(** * DubaiRTA transit planner: a shallow embedding of the JavaScript sources

    The development follows the three planner scripts of the repository:

    - [find_next_transit.js]      (module [NextTransit]: the direct-trip finder),
    - [find_transit_bfs.js]       (module [Bfs]: the search with the distance-first frontier),
    - [find_transit_combined.js]  (module [Combined]: the search with the
                                   transfers-first frontier and the scored walk fallback).

    Helpers that the scripts share verbatim ([parseCSV], [loadFile],
    [addMinutesToTime], [compareTime], [timeDifferenceMinutes],
    [calculateDistance], [findNearestStops], [getDirectConnections]) are
    embedded once.

    Modelling conventions.
    - A JavaScript number that holds an integer is a [Z]; [NaN] is [None] in
      [jsnum := option Z].  Distances are doubles in the source; they are
      idealised as exact rationals ([Q]), with [Infinity] as a separate
      constructor of [dist].
    - Strings are [string]; [Set] is [gset string]; [Map] and objects that are
      only looked up are [gmap string _]; objects that are enumerated with
      [Object.entries] are [jsobj], an association list kept in JavaScript's
      own property order.
    - A row of [stop_times.txt] is the record [StopTimeRow]: the five columns
      the scripts read from each split line, [stop_sequence] after [parseInt].

    Limits of the model.
    - Objects hold their own properties only: a key that names a property of
      [Object.prototype] is read as absent.  A cell that a line of
      [stop_times.txt] lacks is read as the empty string, where the source has
      [undefined].
    - [localeCompare] is the order of code units; [parseInt] and [Number] read
      strings of digits; the functions of [JsMath] give numbers, never [NaN].
    - The theorems that say what a script returns for every feed of some kind
      keep to the feeds on which the source behaves as the model does, by the
      hypotheses [plainRows], [isClockTime], [wellFormedTime] and
      [distancesAreNumbers]. *)

From Stdlib Require Import ZArith QArith Qround Lia Lqa Ascii String List Permutation Sorted.
From stdpp Require Import base option strings pretty gmap.


Local Open Scope string_scope.
Local Open Scope Z_scope.

(** ** JavaScript primitives used by the scripts *)

Module Js.

(** Numbers that hold integers; [None] is [NaN]. *)
Definition jsnum := option Z.

Definition jadd (a b : jsnum) : jsnum :=
  match a, b with Some x, Some y => Some (x + y) | _, _ => None end.
Definition jsub (a b : jsnum) : jsnum :=
  match a, b with Some x, Some y => Some (x - y) | _, _ => None end.
Definition jmul (a b : jsnum) : jsnum :=
  match a, b with Some x, Some y => Some (x * y) | _, _ => None end.
(** [Math.floor(a / k)] for a positive integer constant [k]. *)
Definition jfloordiv (a : jsnum) (k : Z) : jsnum := (λ x, x / k) <$> a.
(** [a % k]: the remainder has the sign of the dividend. *)
Definition jrem (a : jsnum) (k : Z) : jsnum := (λ x, Z.rem x k) <$> a.
(** [a < b] and [a > b]; every comparison with [NaN] is false. *)
Definition jlt (a b : jsnum) : bool :=
  match a, b with Some x, Some y => x <? y | _, _ => false end.
Definition jgt (a b : jsnum) : bool := jlt b a.

Definition is_digit (c : ascii) : bool :=
  let n := nat_of_ascii c in (48 <=? n)%nat && (n <=? 57)%nat.
Definition digit_val (c : ascii) : Z := Z.of_nat (nat_of_ascii c) - 48.

Fixpoint digits_val (acc : Z) (s : string) : option Z :=
  match s with
  | EmptyString => Some acc
  | String c s' =>
      if is_digit c then digits_val (10 * acc + digit_val c) s' else None
  end.

(** [Number(s)] on the strings the scripts feed it: an unsigned decimal
    literal gives its value, the empty string gives 0, anything else is
    treated as [NaN]. *)
Definition Number (s : string) : jsnum := digits_val 0 s.

(** [parseInt(s, 10)] on unsigned decimal literals; the empty string is [NaN]. *)
Definition parseInt (s : string) : jsnum :=
  match s with EmptyString => None | _ => digits_val 0 s end.

(** [String(n)]. *)
Definition toString (n : jsnum) : string :=
  match n with Some z => pretty z | None => "NaN" end.

(** [s.padStart(2, '0')]. *)
Definition padStart2 (s : string) : string :=
  match String.length s with
  | O => "00"
  | S O => "0" +:+ s
  | _ => s
  end.

(** [s.split(c)] for a one-character separator. *)
Fixpoint split (sep : ascii) (s : string) : list string :=
  match s with
  | EmptyString => [EmptyString]
  | String c s' =>
      if Ascii.eqb c sep then EmptyString :: split sep s'
      else match split sep s' with
           | [] => [String c EmptyString]
           | x :: xs => String c x :: xs
           end
  end.

(** Comparison of strings by code units: [a < b], [a > b], and the sign of
    [a.localeCompare(b)] on the digit-and-colon strings of the feed. *)
Definition str_lt (a b : string) : bool := String.ltb a b.
Definition str_gt (a b : string) : bool := String.ltb b a.

(** Destructuring [[a, b, c] = xs.map(Number)]: a missing element is
    [undefined] and behaves as [NaN] in the arithmetic that follows. *)
Definition field (i : nat) (xs : list string) : jsnum :=
  match xs !! i with Some x => Number x | None => None end.

End Js.
Import Js.

(** ** Time helpers (identical in [find_transit_bfs.js] and
    [find_transit_combined.js]) *)

Definition TRANSFER_TIME_MINUTES : Z := 5.

Definition addMinutesToTime (timeStr : string) (minutes : Z) : string :=
  let parts := split ":" timeStr in
  let h := field 0 parts in
  let m := field 1 parts in
  let s := field 2 parts in
  let totalMinutes := jadd (jadd (jmul h (Some 60)) m) (Some minutes) in
  let newH := jrem (jfloordiv totalMinutes 60) 24 in
  let newM := jrem totalMinutes 60 in
  padStart2 (toString newH) +:+ ":" +:+ padStart2 (toString newM) +:+ ":"
    +:+ padStart2 (toString s).

Definition secondsOfDay (t : string) : jsnum :=
  let parts := split ":" t in
  jadd (jadd (jmul (field 0 parts) (Some 3600)) (jmul (field 1 parts) (Some 60)))
       (field 2 parts).

Definition compareTime (time1 time2 : string) : Z :=
  let total1 := secondsOfDay time1 in
  let total2 := secondsOfDay time2 in
  if jlt total1 total2 then -1
  else if jgt total1 total2 then 1
  else 0.

Definition minutesOfDay (t : string) : jsnum :=
  let parts := split ":" t in
  jadd (jmul (field 0 parts) (Some 60)) (field 1 parts).

Definition timeDifferenceMinutes (time1 time2 : string) : jsnum :=
  jsub (minutesOfDay time2) (minutesOfDay time1).

(** ** More JavaScript library behaviour: sorting, trimming, objects *)

Module JsLib.

(** [Array.prototype.sort(cmp)] is stable.  [gt a b] stands for
    [cmp(a, b) > 0]; a [NaN] or non-positive result leaves [a] before [b]. *)
Section Sort.
Context {A : Type} (gt : A → A → bool).
Fixpoint insertSorted (x : A) (l : list A) : list A :=
  match l with
  | [] => [x]
  | y :: l' => if gt x y then y :: insertSorted x l' else x :: l
  end.
Definition sortBy (l : list A) : list A := foldr insertSorted [] l.
End Sort.

(** [xs.findIndex(p)], with [None] for [-1]; [xs.find(p)]. *)
Fixpoint findIndex {A} (p : A → bool) (l : list A) : option nat :=
  match l with
  | [] => None
  | x :: l' => if p x then Some O else S <$> findIndex p l'
  end.
Definition find {A} (p : A → bool) (l : list A) : option A := List.find p l.

Definition str_eqb (a b : string) : bool := bool_decide (a = b).

Definition is_space (c : ascii) : bool :=
  let n := nat_of_ascii c in
  (n =? 32)%nat || ((9 <=? n)%nat && (n <=? 13)%nat).

Fixpoint trimStart (s : string) : string :=
  match s with
  | String c s' => if is_space c then trimStart s' else s
  | EmptyString => EmptyString
  end.
Fixpoint trimEnd (s : string) : string :=
  match s with
  | EmptyString => EmptyString
  | String c s' =>
      match trimEnd s' with
      | EmptyString => if is_space c then EmptyString else String c EmptyString
      | t => String c t
      end
  end.
(** [s.trim()]. *)
Definition trim (s : string) : string := trimEnd (trimStart s).

Definition dquote : ascii := ascii_of_nat 34.
Definition newline : ascii := ascii_of_nat 10.

Fixpoint dropLastQuote (s : string) : string :=
  match s with
  | EmptyString => EmptyString
  | String c EmptyString => if Ascii.eqb c dquote then EmptyString else s
  | String c s' => String c (dropLastQuote s')
  end.
(** [s.replace(/^"|"$/g, '')]: one leading and one trailing double quote
    are removed. *)
Definition stripQuotes (s : string) : string :=
  match s with
  | String c s' => if Ascii.eqb c dquote then dropLastQuote s' else dropLastQuote s
  | EmptyString => EmptyString
  end.

(** *** Objects enumerated with [Object.entries]

    Own string keys come out in the order the language fixes: keys that are
    canonical array indices first, in ascending numeric order, then all other
    keys in insertion order.  Stop and trip identifiers of a GTFS feed are
    often plain numerals, so this order is observable in the scripts. *)
Definition jsobj (V : Type) := list (string * V).

Definition arrayIndex (k : string) : option Z :=
  match k with
  | EmptyString => None
  | String c rest =>
      if (Ascii.eqb c "0" && negb (str_eqb rest ""))%bool then None
      else match digits_val 0 k with
           | Some n => if n <? 4294967295 then Some n else None
           | None => None
           end
  end.

Fixpoint objGet {V} (o : jsobj V) (k : string) : option V :=
  match o with
  | [] => None
  | (k', v) :: o' => if str_eqb k' k then Some v else objGet o' k
  end.

Fixpoint objReplace {V} (o : jsobj V) (k : string) (v : V) : jsobj V :=
  match o with
  | [] => []
  | (k', v') :: o' =>
      if str_eqb k' k then (k, v) :: o' else (k', v') :: objReplace o' k v
  end.

(** Position of a fresh index key [n]: before the first key that is not an
    index or is a larger index. *)
Fixpoint objAddIndex {V} (o : jsobj V) (n : Z) (k : string) (v : V) : jsobj V :=
  match o with
  | [] => [(k, v)]
  | (k', v') :: o' =>
      match arrayIndex k' with
      | Some n' => if n <? n' then (k, v) :: o else (k', v') :: objAddIndex o' n k v
      | None => (k, v) :: o
      end
  end.

(** [o[k] = v]. *)
Definition objSet {V} (o : jsobj V) (k : string) (v : V) : jsobj V :=
  match objGet o k with
  | Some _ => objReplace o k v
  | None =>
      match arrayIndex k with
      | Some n => objAddIndex o n k v
      | None => (o ++ [(k, v)])%list
      end
  end.

(** [Object.entries(o)] and [Object.keys(o)]. *)
Definition entries {V} (o : jsobj V) : list (string * V) := o.
Definition keys {V} (o : jsobj V) : list string := o.*1.

End JsLib.
Import JsLib.

(** ** Feed files: [parseCSV] and [loadFile] *)

(** A parsed CSV row: the object [entry] with one property per header. *)
Abbreviation entry := (gmap string string).

(** [e.col]: a column the header does not have reads as the empty string
    (the scripts only test such values for truthiness or compare them with
    non-empty strings). *)
Definition prop (e : entry) (col : string) : string := default "" (e !! col).

(** The inner character loop of [parseCSV]: [values], [current], [inQuote]. *)
Fixpoint csvFields (line : string) (current : string) (inQuote : bool)
  : list string :=
  match line with
  | EmptyString => [current]
  | String c rest =>
      if Ascii.eqb c dquote then csvFields rest current (negb inQuote)
      else if (Ascii.eqb c "," && negb inQuote)%bool
           then current :: csvFields rest "" inQuote
           else csvFields rest (current +:+ String c "") inQuote
  end.

Definition csvEntry (headers : list string) (values : list string) : entry :=
  foldl (λ (e : entry) '(idx, h),
           <[h := match values !! idx with
                  | Some v => if str_eqb v "" then "" else stripQuotes v
                  | None => ""
                  end]> e)
        ∅ (imap (λ idx h, (idx, h)) headers).

Definition parseCSV (content : string) : list entry :=
  let lines := split newline (trim content) in
  let headers := (λ h, stripQuotes (trim h)) <$> split "," (default "" (head lines)) in
  omap (λ l, let line := trim l in
             if str_eqb line "" then None
             else Some (csvEntry headers (csvFields line "" false)))
       (tail lines).

(** The [data] directory: file name to contents. *)
Abbreviation filesystem := (gmap string string).

(** What a call leaves behind besides its value: lines on [console.error]. *)
Record logged (A : Type) := Logged { console_error : list string; value : A }.
Arguments Logged {A} _ _.
Arguments console_error {A} _.
Arguments value {A} _.

Definition loadFile (fs : filesystem) (filename : string) : logged (list entry) :=
  match fs !! filename with
  | None => Logged ["File not found: " +:+ filename] []
  | Some content => Logged [] (parseCSV content)
  end.

(** A call either returns or throws. *)
Inductive outcome (A : Type) :=
  | Returns (a : A)
  | Throws (message : string).
Arguments Returns {A} _.
Arguments Throws {A} _.

(** [fs.readFileSync(path, 'utf8')]. *)
Definition readFileSync (fs : filesystem) (filename : string) : outcome string :=
  match fs !! filename with
  | Some content => Returns content
  | None => Throws ("ENOENT: no such file or directory, open " +:+ filename)
  end.

(** ** Geo index: [calculateDistance] and [findNearestStops] *)

(** The floating-point library the scripts call.  Doubles are idealised as
    rationals; the functions themselves stay abstract, so every result below
    holds for whatever values [Math.sin] and friends return. *)
Class JsMath := {
  Math_PI : Q;
  Math_sin : Q → Q;
  Math_cos : Q → Q;
  Math_sqrt : Q → Q;
  Math_atan2 : Q → Q → Q;
  parseFloat : string → Q
}.

Definition Qltb (x y : Q) : bool := negb (Qle_bool y x).

Section Geo.
Context `{JsMath}.
Local Open Scope Q_scope.

(** Haversine formula, Earth radius 6371 km. *)
Definition calculateDistance (lat1 lng1 lat2 lng2 : Q) : Q :=
  let R := 6371 in
  let dLat := (lat2 - lat1) * Math_PI / 180 in
  let dLng := (lng2 - lng1) * Math_PI / 180 in
  let a := Math_sin (dLat / 2) * Math_sin (dLat / 2) +
           Math_cos (lat1 * Math_PI / 180) * Math_cos (lat2 * Math_PI / 180) *
           Math_sin (dLng / 2) * Math_sin (dLng / 2) in
  let c := 2 * Math_atan2 (Math_sqrt a) (Math_sqrt (1 - a)) in
  R * c.

(** [{...stop, distance}]. *)
Record StopWithDistance := { stop : entry; distance : Q }.

Definition stop_id (s : StopWithDistance) : string := prop (stop s) "stop_id".

Definition truthy (s : string) : bool := negb (str_eqb s "").

Definition findNearestStops (fs : filesystem) (targetLat targetLng : Q)
    (maxResults : nat) : list StopWithDistance :=
  let stops := value (loadFile fs "stops.txt") in
  let stopsWithDistance :=
    take maxResults
      (sortBy (λ a b, Qltb (distance b) (distance a))
         ((λ stop, {| stop := stop;
                       distance := calculateDistance targetLat targetLng
                                     (parseFloat (prop stop "stop_lat"))
                                     (parseFloat (prop stop "stop_lon")) |})
            <$> List.filter (λ stop, truthy (prop stop "stop_lat")
                                       && truthy (prop stop "stop_lon")) stops)) in
  stopsWithDistance.
End Geo.

(** ** Service-day filter and stop-time rows: [preloadTransitData] *)

Definition jle (a b : jsnum) : bool :=
  match a, b with Some x, Some y => x <=? y | _, _ => false end.

Record PreloadedData := {
  validTripIds : gset string;
  tripRouteMap : gmap string entry;
  stopTimeLines : list string;
  stHeaders : list string;
  routes : list entry
}.

Definition preloadTransitData (fs : filesystem) (dayName : string) (todayDate : Z)
    (routeType : option string) : outcome PreloadedData :=
  let routes := value (loadFile fs "routes.txt") in
  let targetRouteIds : gset string :=
    list_to_set ((λ r, prop r "route_id") <$>
      List.filter (λ r, match routeType with
                        | None => true
                        | Some rt => negb (truthy rt) || str_eqb (prop r "route_type") rt
                        end) routes) in
  let calendar := value (loadFile fs "calendar.txt") in
  let activeServices : gset string :=
    list_to_set ((λ c, prop c "service_id") <$>
      List.filter (λ c, let startDate := parseInt (prop c "start_date") in
                        let endDate := parseInt (prop c "end_date") in
                        let isActiveDay := str_eqb (prop c dayName) "1" in
                        isActiveDay && jle startDate (Some todayDate)
                          && jle (Some todayDate) endDate) calendar) in
  let allTrips := value (loadFile fs "trips.txt") in
  let validTrips :=
    List.filter (λ t, bool_decide (prop t "route_id" ∈ targetRouteIds)
                        && bool_decide (prop t "service_id" ∈ activeServices)) allTrips in
  let validTripIds : gset string := list_to_set ((λ t, prop t "trip_id") <$> validTrips) in
  let tripRouteMap : gmap string entry :=
    foldl (λ m t, <[prop t "trip_id" := t]> m) ∅ validTrips in
  match readFileSync fs "stop_times.txt" with
  | Throws e => Throws e
  | Returns rawStopTimes =>
      let stopTimeLines := split newline (trim rawStopTimes) in
      let stHeaders :=
        (λ h, stripQuotes (trim h)) <$> split "," (default "" (head stopTimeLines)) in
      Returns {| validTripIds := validTripIds;
                 tripRouteMap := tripRouteMap;
                 stopTimeLines := stopTimeLines;
                 stHeaders := stHeaders;
                 routes := routes |}
  end.

(** [s.split(sep)] for a separator of several characters: [skip] counts the
    characters of a matched separator still to be passed over. *)
Fixpoint splitStr (sep : string) (skip : nat) (s : string) : list string :=
  match s with
  | EmptyString => [EmptyString]
  | String c s' =>
      match skip with
      | S k => splitStr sep k s'
      | O =>
          if String.prefix sep s
          then EmptyString :: splitStr sep (String.length sep - 1) s'
          else match splitStr sep O s' with
               | [] => [String c EmptyString]
               | x :: xs => String c x :: xs
               end
      end
  end.

Definition quoteCommaQuote : string :=
  String dquote (String "," (String dquote EmptyString)).

Definition stripLeadingQuote (s : string) : string :=
  match s with
  | String c s' => if Ascii.eqb c dquote then s' else s
  | EmptyString => EmptyString
  end.

Definition mapLast {A} (f : A → A) (l : list A) : list A :=
  match reverse l with
  | [] => []
  | x :: r => reverse (f x :: r)
  end.

(** The three lines that split one [stop_times.txt] line into [parts]. *)
Definition lineParts (line : string) : list string :=
  let parts := splitStr quoteCommaQuote O line in
  let parts := match parts with
               | p :: rest => stripLeadingQuote p :: rest
               | [] => []
               end in
  mapLast dropLastQuote parts.

(** [xs.indexOf(x)], with [None] for [-1]. *)
Definition indexOf (x : string) (xs : list string) : option nat :=
  findIndex (str_eqb x) xs.

(** [parts[idx]]; an absent cell reads as the empty string. *)
Definition cell (parts : list string) (idx : option nat) : string :=
  match idx with
  | Some i => default "" (parts !! i)
  | None => ""
  end.

(** One row of [stop_times.txt] as the scripts read it. *)
Record StopTimeRow := {
  st_trip_id : string;
  st_stop_id : string;
  st_seq : jsnum;
  st_arr : string;
  st_dep : string
}.

Definition stopTimeRow (stHeaders : list string) (line : string) : StopTimeRow :=
  let parts := lineParts line in
  {| st_trip_id := cell parts (indexOf "trip_id" stHeaders);
     st_stop_id := cell parts (indexOf "stop_id" stHeaders);
     st_seq := parseInt (cell parts (indexOf "stop_sequence" stHeaders));
     st_arr := cell parts (indexOf "arrival_time" stHeaders);
     st_dep := cell parts (indexOf "departure_time" stHeaders) |}.

(** The rows the loops [for (let i = 1; i < stopTimeLines.length; i++)] visit. *)
Definition stopTimeRows (pd : PreloadedData) : list StopTimeRow :=
  stopTimeRow (stHeaders pd) <$> tail (stopTimeLines pd).

(** A writer of feed lines, for the example feeds in this file: the cells,
    each in double quotes, separated by commas. *)
Definition quotedLine (cells : list string) : string :=
  String dquote
    (String.concat quoteCommaQuote cells +:+ String dquote EmptyString).

Definition joinLines (lines : list string) : string :=
  String.concat (String newline EmptyString) lines.

(** ** Connection expander: [getDirectConnections] *)

Record StopInfo := {
  si_stop_id : string;
  si_seq : jsnum;
  si_arr : string;
  si_dep : string
}.

Record Connection := {
  conn_stop_id : string;
  arrival_time : string;
  departure_time : string;
  trip_id : string;
  route_id : string;
  headsign : string
}.

(** [if (!o[k]) o[k] = []; o[k].push(x)]. *)
Definition objPush {V} (o : jsobj (list V)) (k : string) (x : V) : jsobj (list V) :=
  match objGet o k with
  | Some l => objSet o k (l ++ [x])%list
  | None => objSet o k [x]
  end.

(** [(a, b) => a.seq - b.seq], read as "positive". *)
Definition seqAfter (a b : StopInfo) : bool :=
  jgt (jsub (si_seq a) (si_seq b)) (Some 0).

(** [tripRouteMap[tripId].route_id] and [.trip_headsign]; every key of
    [tripStopMap] passed [validTripIds.has], and [preloadTransitData] fills
    both from the same trips. *)
Definition tripProp (pd : PreloadedData) (tripId col : string) : string :=
  prop (default ∅ (tripRouteMap pd !! tripId)) col.

(** [{ stop_id: sId, seq, arr, dep }]. *)
Definition infoOf (row : StopTimeRow) : StopInfo :=
  {| si_stop_id := st_stop_id row; si_seq := st_seq row;
     si_arr := st_arr row; si_dep := st_dep row |}.

(** [validTripIds.has(tId)]. *)
Definition validRow (pd : PreloadedData) (row : StopTimeRow) : bool :=
  bool_decide (st_trip_id row ∈ validTripIds pd).

Definition tripStopMap (pd : PreloadedData) : jsobj (list StopInfo) :=
  foldl (λ m row,
           if validRow pd row then objPush m (st_trip_id row) (infoOf row) else m)
        [] (stopTimeRows pd).

(** The body of the loop over [Object.entries(tripStopMap)]. *)
Definition connectionsOfTrip (stopId afterTime : string) (pd : PreloadedData)
    (e : string * list StopInfo) : list Connection :=
  let '(tripId, stops) := e in
  let stops := sortBy seqAfter stops in
  match findIndex (λ s, str_eqb (si_stop_id s) stopId) stops with
  | None => []
  | Some stopIndex =>
      match stops !! stopIndex with
      | None => []
      | Some stopInfo =>
          if compareTime (si_dep stopInfo) afterTime <=? 0 then []
          else (λ destStop,
                  {| conn_stop_id := si_stop_id destStop;
                     arrival_time := si_arr destStop;
                     departure_time := si_dep stopInfo;
                     trip_id := tripId;
                     route_id := tripProp pd tripId "route_id";
                     headsign := tripProp pd tripId "trip_headsign" |})
                 <$> drop (S stopIndex) stops
      end
  end.

Definition getDirectConnections (stopId afterTime : string) (pd : PreloadedData)
  : list Connection :=
  List.flat_map (connectionsOfTrip stopId afterTime pd) (entries (tripStopMap pd)).

(** ** Distances with [Infinity] *)

Inductive dist :=
  | Fin (q : Q)
  | Infinity.

(** [a < b]. *)
Definition dist_ltb (a b : dist) : bool :=
  match a, b with
  | Fin x, Fin y => Qltb x y
  | Fin _, Infinity => true
  | Infinity, _ => false
  end.
(** [a === b]. *)
Definition dist_eqb (a b : dist) : bool :=
  match a, b with
  | Fin x, Fin y => Qeq_bool x y
  | Infinity, Infinity => true
  | _, _ => false
  end.
(** [a * k] for a positive constant [k]. *)
Definition dist_scale (a : dist) (k : Q) : dist :=
  match a with Fin x => Fin (x * k) | Infinity => Infinity end.
Definition dist_add (a b : dist) : dist :=
  match a, b with Fin x, Fin y => Fin (x + y) | _, _ => Infinity end.

(** ** [find_next_transit.js]: the direct-trip finder *)

Module NextTransit.

Record TripStop := { seq : jsnum; dep : string; arr : string }.

Record Match := {
  m_trip_id : string;
  m_departure_time : string;
  arrival_at_B : string;
  m_route_id : string;
  m_headsign : string;
  stopB : string
}.

(** [tripStops[tId][sId] = {seq, dep, arr}], creating [tripStops[tId]]
    when absent.  The inner object is only looked up. *)
Definition tripStops (stopA : string) (candidateStopIds : gset string)
    (pd : PreloadedData) : jsobj (gmap string TripStop) :=
  foldl (λ m row,
           let tId := st_trip_id row in
           let sId := st_stop_id row in
           if bool_decide (tId ∈ validTripIds pd) then
             if str_eqb sId stopA || bool_decide (sId ∈ candidateStopIds) then
               objSet m tId
                 (<[sId := {| seq := st_seq row; dep := st_dep row; arr := st_arr row |}]>
                    (default ∅ (objGet m tId)))
             else m
           else m)
        [] (stopTimeRows pd).

(** The inner loop over [candidateStops] for one trip that holds [stopA]. *)
Definition matchesOfTrip (stopA : string) (candidateStops : list StopWithDistance)
    (pd : PreloadedData) (tId : string) (stops : gmap string TripStop)
    (a : TripStop) (matchesByDest : jsobj (list Match)) : jsobj (list Match) :=
  foldl (λ byDest candidateStop,
           let stopB := stop_id candidateStop in
           match stops !! stopB with
           | Some b =>
               if jlt (seq a) (seq b) then
                 objPush byDest stopB
                   {| m_trip_id := tId;
                      m_departure_time := dep a;
                      arrival_at_B := arr b;
                      m_route_id := tripProp pd tId "route_id";
                      m_headsign := tripProp pd tId "trip_headsign";
                      stopB := stopB |}
               else byDest
           | None => byDest
           end)
        matchesByDest candidateStops.

Definition matchesByDest (stopA : string) (candidateStops : list StopWithDistance)
    (pd : PreloadedData) : jsobj (list Match) :=
  foldl (λ byDest '(tId, stops),
           match stops !! stopA with
           | Some a => matchesOfTrip stopA candidateStops pd tId stops a byDest
           | None => byDest
           end)
        []
        (entries (tripStops stopA (list_to_set (stop_id <$> candidateStops)) pd)).

(** [matches.sort(...)] then [matches.find(m => m.departure_time > userTime)]. *)
Definition nextTripOf (userTime : string) (matches : list Match) : option Match :=
  find (λ m, str_gt (m_departure_time m) userTime)
       (sortBy (λ a b, str_gt (m_departure_time a) (m_departure_time b)) matches).

(** [candidateStops.find(s => s.stop_id === stopB).distance]; [stopB] is a
    key of [matchesByDest], so the stop is found. *)
Definition stopDistanceOf (candidateStops : list StopWithDistance) (stopB : string) : Q :=
  match find (λ s, str_eqb (stop_id s) stopB) candidateStops with
  | Some s => distance s
  | None => 0%Q
  end.

(** One round of the selection loop; the state is
    [(bestTrip, bestStopDistance)]. *)
Definition selectStep (candidateStops : list StopWithDistance) (userTime : string)
    (best : option Match * dist) (e : string * list Match) : option Match * dist :=
  let '(stopB, matches) := e in
  match nextTripOf userTime matches with
  | None => best
  | Some nextTrip =>
      let stopDistance := Fin (stopDistanceOf candidateStops stopB) in
      let '(bestTrip, bestStopDistance) := best in
      if match bestTrip with
         | None => true
         | Some bt =>
             dist_ltb stopDistance (dist_scale bestStopDistance (8 # 10))
             || (dist_ltb stopDistance (dist_scale bestStopDistance (12 # 10))
                 && str_lt (m_departure_time nextTrip) (m_departure_time bt))
         end
      then (Some nextTrip, stopDistance)
      else best
  end.

Definition findBestDirectTrip (stopA : string) (candidateStops : list StopWithDistance)
    (userTime : string) (pd : PreloadedData) : option Match :=
  if bool_decide (size (validTripIds pd) = 0%nat) then None
  else
    fst (foldl (selectStep candidateStops userTime) (None, Infinity)
               (entries (matchesByDest stopA candidateStops pd))).

End NextTransit.

(** ** Search states shared by the two [bfsSearch] functions *)

Record Leg := {
  from : string;
  to : string;
  departure : string;
  arrival : string;
  leg_trip_id : string;
  leg_route_id : string;
  leg_headsign : string
}.

(** The object [bfsSearch] returns. *)
Record Route := {
  path : list Leg;
  finalStop : string;
  finalTime : string;
  numTransfers : Z;
  distanceToDestination : dist
}.

(** An element of [queue]. *)
Record QueueItem := {
  q_stop : string;
  q_time : string;
  q_path : list Leg;
  q_numTransfers : Z;
  distanceToTarget : dist
}.

Definition legOf (current : QueueItem) (conn : Connection) : Leg :=
  {| from := q_stop current;
     to := conn_stop_id conn;
     departure := departure_time conn;
     arrival := arrival_time conn;
     leg_trip_id := trip_id conn;
     leg_route_id := route_id conn;
     leg_headsign := headsign conn |}.

(** [current.path.length > 0 && (last.route_id !== conn.route_id ||
    last.trip_id !== conn.trip_id)]. *)
Definition isTransfer (current : QueueItem) (conn : Connection) : bool :=
  match last (q_path current) with
  | None => false
  | Some l => negb (str_eqb (leg_route_id l) (route_id conn))
              || negb (str_eqb (leg_trip_id l) (trip_id conn))
  end.

Definition nonEmpty {A} (l : list A) : bool :=
  match l with [] => false | _ => true end.

(** [queue.splice(insertIndex, 0, queueItem)] where [insertIndex] is the first
    position whose item satisfies [before], or [queue.length]. *)
Fixpoint spliceBefore (before : QueueItem → bool) (queueItem : QueueItem)
    (queue : list QueueItem) : list QueueItem :=
  match queue with
  | [] => [queueItem]
  | item :: rest =>
      if before item then queueItem :: queue
      else item :: spliceBefore before queueItem rest
  end.

(** The [Map] built from [targetStopsList]; a later duplicate overwrites. *)
Definition stopDistanceMap (targetStopsList : list StopWithDistance) : gmap string Q :=
  foldl (λ m s, <[stop_id s := distance s]> m) ∅ targetStopsList.

Definition getMinDistanceToTarget (targetStopsList : list StopWithDistance)
    (stopId : string) : dist :=
  match stopDistanceMap targetStopsList !! stopId with
  | Some d => Fin d
  | None => Infinity
  end.

(** [`${current.stop}:${current.numTransfers}`]. *)
Definition visitedKey (current : QueueItem) : string :=
  q_stop current +:+ ":" +:+ pretty (q_numTransfers current).

(** What one turn of a loop body does: [return] from [bfsSearch], or go on. *)
Inductive flow (S : Type) :=
  | Return (r : option Route)
  | Continue (s : S).
Arguments Return {S} _.
Arguments Continue {S} _.

(** ** [find_transit_bfs.js]: [bfsSearch] *)

Module Bfs.

Definition MAX_ITERATIONS : nat := Z.to_nat 20000.
Definition DEFAULT_MAX_TRANSFERS : Z := 2.
Definition MAX_DESTINATIONS_NEAR_PLACE : nat := 20.
Definition MAX_NEARBY_STOPS_TO_CHECK : nat := 20.
Definition MAX_WALKING_DISTANCE_KM : Q := 5 # 10.

(** The mutable locals of [bfsSearch]. *)
Record SearchState := {
  queue : list QueueItem;
  visited : gset string;
  bestRoute : option Route;
  bestDistance : dist
}.

Section Search.
Context (targetStops : gset string) (targetStopsList : list StopWithDistance)
        (maxTransfers : Z) (pd : PreloadedData).

(** "Prioritize: closer distance first, then fewer transfers". *)
Definition insertQueue (queueItem : QueueItem) (queue : list QueueItem)
  : list QueueItem :=
  spliceBefore
    (λ item,
       dist_ltb (distanceToTarget queueItem) (distanceToTarget item)
       || (dist_eqb (distanceToTarget queueItem) (distanceToTarget item)
           && (q_numTransfers queueItem <? q_numTransfers item)))
    queueItem queue.

Definition hasDirect (st : SearchState) : bool :=
  match bestRoute st with
  | Some r => numTransfers r =? 0
  | None => false
  end.

(** [if (distance < bestDistance) { bestDistance = ...; bestRoute = ... }]. *)
Definition recordCandidate (r : Route) (st : SearchState) : SearchState :=
  if dist_ltb (distanceToDestination r) (bestDistance st)
  then {| queue := queue st; visited := visited st;
          bestRoute := Some r; bestDistance := distanceToDestination r |}
  else st.

(** The body of [for (const conn of connections)]. *)
Definition visitConnection (current : QueueItem) (nextAvailableTime : string)
    (st : SearchState) (conn : Connection) : flow SearchState :=
  if compareTime (departure_time conn) nextAvailableTime <? 0 then Continue st
  else if bool_decide (conn_stop_id conn ∈ targetStops) then
    let finalNumTransfers :=
      if isTransfer current conn then q_numTransfers current + 1
      else q_numTransfers current in
    let distance := getMinDistanceToTarget targetStopsList (conn_stop_id conn) in
    let st' :=
      recordCandidate
        {| path := q_path current ++ [legOf current conn];
           finalStop := conn_stop_id conn;
           finalTime := arrival_time conn;
           numTransfers := finalNumTransfers;
           distanceToDestination := distance |} st in
    if dist_ltb distance (Fin (35 # 100)) then Return (bestRoute st')
    else Continue st'
  else if hasDirect st then Continue st
  else
    let newNumTransfers :=
      if isTransfer current conn then q_numTransfers current + 1
      else q_numTransfers current in
    if maxTransfers <? newNumTransfers then Continue st
    else
      let queueItem :=
        {| q_stop := conn_stop_id conn;
           q_time := arrival_time conn;
           q_path := q_path current ++ [legOf current conn];
           q_numTransfers := newNumTransfers;
           distanceToTarget :=
             getMinDistanceToTarget targetStopsList (conn_stop_id conn) |} in
      Continue {| queue := insertQueue queueItem (queue st);
                  visited := visited st;
                  bestRoute := bestRoute st;
                  bestDistance := bestDistance st |}.

Fixpoint visitConnections (current : QueueItem) (nextAvailableTime : string)
    (st : SearchState) (connections : list Connection) : flow SearchState :=
  match connections with
  | [] => Continue st
  | conn :: rest =>
      match visitConnection current nextAvailableTime st conn with
      | Return r => Return r
      | Continue st' => visitConnections current nextAvailableTime st' rest
      end
  end.

(** The part of the [while] body after the pruning tests: mark the state
    visited and walk over its connections. *)
Definition expand (current : QueueItem) (st : SearchState) : flow SearchState :=
  let st := {| queue := queue st;
               visited := {[visitedKey current]} ∪ visited st;
               bestRoute := bestRoute st;
               bestDistance := bestDistance st |} in
  let connections := getDirectConnections (q_stop current) (q_time current) pd in
  let nextAvailableTime :=
    if nonEmpty (q_path current)
    then addMinutesToTime (q_time current) TRANSFER_TIME_MINUTES
    else q_time current in
  visitConnections current nextAvailableTime st connections.

(** The [while] body for the dequeued [current]; [st] already has the
    queue without it. *)
Definition visit (current : QueueItem) (st : SearchState) : flow SearchState :=
  if bool_decide (q_stop current ∈ targetStops) then
    let distance := getMinDistanceToTarget targetStopsList (q_stop current) in
    let st' :=
      recordCandidate
        {| path := q_path current;
           finalStop := q_stop current;
           finalTime := q_time current;
           numTransfers := q_numTransfers current;
           distanceToDestination := distance |} st in
    if dist_ltb distance (Fin (35 # 100)) then Return (bestRoute st')
    else Continue st'
  else if hasDirect st && nonEmpty (q_path current) then Continue st
  else if maxTransfers <? q_numTransfers current then Continue st
  else if match bestRoute st with
          | Some _ => dist_ltb (dist_scale (bestDistance st) 2)
                               (distanceToTarget current)
          | None => false
          end then Continue st
  else if bool_decide (visitedKey current ∈ visited st) then Continue st
  else expand current st.

(** [while (queue.length > 0 && iterations < MAX_ITERATIONS)]: [fuel] is
    the number of iterations still allowed.  The final state is returned
    next to the result, so that the set of expanded states can be
    inspected. *)
Fixpoint search (fuel : nat) (st : SearchState) : option Route * SearchState :=
  match fuel with
  | O => (bestRoute st, st)
  | S fuel' =>
      match queue st with
      | [] => (bestRoute st, st)
      | current :: rest =>
          let st := {| queue := rest; visited := visited st;
                       bestRoute := bestRoute st;
                       bestDistance := bestDistance st |} in
          match visit current st with
          | Return r => (r, st)
          | Continue st' => search fuel' st'
          end
      end
  end.

Definition initialState (startStop startTime : string) : SearchState :=
  {| queue := [ {| q_stop := startStop; q_time := startTime; q_path := [];
                   q_numTransfers := 0;
                   distanceToTarget :=
                     getMinDistanceToTarget targetStopsList startStop |} ];
     visited := ∅;
     bestRoute := None;
     bestDistance := Infinity |}.

Definition bfsRun (startStop startTime : string) : option Route * SearchState :=
  search MAX_ITERATIONS (initialState startStop startTime).

End Search.

Definition bfsSearch (startStop : string) (targetStops : gset string)
    (targetStopsList : list StopWithDistance) (startTime : string)
    (maxTransfers : Z) (pd : PreloadedData) : option Route :=
  if bool_decide (startStop ∈ targetStops) then
    Some {| path := []; finalStop := startStop; finalTime := startTime;
            numTransfers := 0;
            distanceToDestination :=
              getMinDistanceToTarget targetStopsList startStop |}
  else fst (bfsRun targetStops targetStopsList maxTransfers pd startStop startTime).

End Bfs.

(** ** [find_transit_combined.js]: [bfsSearch], [calculateTotalTime] and the
    route comparison of [main] *)

(** Minute counts and scores of [main]: an integer, [Infinity] or [NaN]. *)
Inductive xnum :=
  | XNum (z : Z)
  | XInfinity
  | XNaN.

Definition xnum_of (n : jsnum) : xnum :=
  match n with Some z => XNum z | None => XNaN end.
Definition xadd (a b : xnum) : xnum :=
  match a, b with
  | XNum x, XNum y => XNum (x + y)
  | XNaN, _ | _, XNaN => XNaN
  | _, _ => XInfinity
  end.
(** [a < b]; false when either side is [NaN]. *)
Definition xlt (a b : xnum) : bool :=
  match a, b with
  | XNum x, XNum y => x <? y
  | XNum _, XInfinity => true
  | _, _ => false
  end.

Record Walk := {
  walk_from : option entry;
  walk_to : StopWithDistance;
  walk_distance : Q;
  walk_time : Z
}.

Module Combined.

Definition MAX_ITERATIONS : nat := Z.to_nat 50000.
Definition MAX_TRANSFERS : Z := 5.
Definition MAX_DESTINATIONS_NEAR_PLACE : nat := 20.
Definition MAX_NEARBY_STOPS_TO_CHECK : nat := 20.
Definition MAX_WALKING_DISTANCE_KM : Q := 5 # 10.
Definition WALKING_SPEED_M_PER_MIN : Q := 80.

Record SearchState := {
  queue : list QueueItem;
  visited : gset string;
  bestRoute : option Route;
  bestScore : dist
}.

(** [numTransfers * 1000 + distance * 10]. *)
Definition scoreOf (numTransfers : Z) (distance : dist) : dist :=
  dist_add (Fin (inject_Z numTransfers * 1000)) (dist_scale distance 10).

Section Search.
Context (targetStops : gset string) (targetStopsList : list StopWithDistance)
        (maxTransfers : Z) (pd : PreloadedData).

(** "Prioritize: fewer transfers first, then closer distance". *)
Definition insertQueue (queueItem : QueueItem) (queue : list QueueItem)
  : list QueueItem :=
  spliceBefore
    (λ item,
       (q_numTransfers queueItem <? q_numTransfers item)
       || ((q_numTransfers queueItem =? q_numTransfers item)
           && dist_ltb (distanceToTarget queueItem) (distanceToTarget item)))
    queueItem queue.

Definition bestHas (st : SearchState) (n : Z) : bool :=
  match bestRoute st with
  | Some r => numTransfers r =? n
  | None => false
  end.

(** [if (score < bestScore) { ...; if (n === 0) return bestRoute;
    else if (n === 1) return bestRoute; }]. *)
Definition recordCandidate (r : Route) (st : SearchState) : flow SearchState :=
  let score := scoreOf (numTransfers r) (distanceToDestination r) in
  if dist_ltb score (bestScore st) then
    let st' := {| queue := queue st; visited := visited st;
                  bestRoute := Some r; bestScore := score |} in
    if (numTransfers r =? 0) || (numTransfers r =? 1)
    then Return (bestRoute st')
    else Continue st'
  else Continue st.

Definition visitConnection (current : QueueItem) (nextAvailableTime : string)
    (st : SearchState) (conn : Connection) : flow SearchState :=
  if compareTime (departure_time conn) nextAvailableTime <? 0 then Continue st
  else
    let newNumTransfers :=
      if isTransfer current conn then q_numTransfers current + 1
      else q_numTransfers current in
    if maxTransfers <? newNumTransfers then Continue st
    else if bestHas st 0 && (0 <? newNumTransfers) then Continue st
    else if bestHas st 1 && (2 <=? newNumTransfers) then Continue st
    else if bool_decide (conn_stop_id conn ∈ targetStops) then
      recordCandidate
        {| path := q_path current ++ [legOf current conn];
           finalStop := conn_stop_id conn;
           finalTime := arrival_time conn;
           numTransfers := newNumTransfers;
           distanceToDestination :=
             getMinDistanceToTarget targetStopsList (conn_stop_id conn) |} st
    else if bestHas st 0 then Continue st
    else if bestHas st 1 && (2 <=? newNumTransfers) then Continue st
    else
      let queueItem :=
        {| q_stop := conn_stop_id conn;
           q_time := arrival_time conn;
           q_path := q_path current ++ [legOf current conn];
           q_numTransfers := newNumTransfers;
           distanceToTarget :=
             getMinDistanceToTarget targetStopsList (conn_stop_id conn) |} in
      Continue {| queue := insertQueue queueItem (queue st);
                  visited := visited st;
                  bestRoute := bestRoute st;
                  bestScore := bestScore st |}.

Fixpoint visitConnections (current : QueueItem) (nextAvailableTime : string)
    (st : SearchState) (connections : list Connection) : flow SearchState :=
  match connections with
  | [] => Continue st
  | conn :: rest =>
      match visitConnection current nextAvailableTime st conn with
      | Return r => Return r
      | Continue st' => visitConnections current nextAvailableTime st' rest
      end
  end.

Definition expand (current : QueueItem) (st : SearchState) : flow SearchState :=
  let st := {| queue := queue st;
               visited := {[visitedKey current]} ∪ visited st;
               bestRoute := bestRoute st;
               bestScore := bestScore st |} in
  let connections := getDirectConnections (q_stop current) (q_time current) pd in
  let nextAvailableTime :=
    if nonEmpty (q_path current)
    then addMinutesToTime (q_time current) TRANSFER_TIME_MINUTES
    else q_time current in
  visitConnections current nextAvailableTime st connections.

Definition visit (current : QueueItem) (st : SearchState) : flow SearchState :=
  if bool_decide (q_stop current ∈ targetStops) then
    recordCandidate
      {| path := q_path current;
         finalStop := q_stop current;
         finalTime := q_time current;
         numTransfers := q_numTransfers current;
         distanceToDestination :=
           getMinDistanceToTarget targetStopsList (q_stop current) |} st
  else if bestHas st 0 && nonEmpty (q_path current) then Continue st
  else if bestHas st 1 && (1 <=? q_numTransfers current) then Continue st
  else if maxTransfers <? q_numTransfers current then Continue st
  else if bool_decide (visitedKey current ∈ visited st) then Continue st
  else expand current st.

Fixpoint search (fuel : nat) (st : SearchState) : option Route * SearchState :=
  match fuel with
  | O => (bestRoute st, st)
  | S fuel' =>
      match queue st with
      | [] => (bestRoute st, st)
      | current :: rest =>
          let st := {| queue := rest; visited := visited st;
                       bestRoute := bestRoute st;
                       bestScore := bestScore st |} in
          match visit current st with
          | Return r => (r, st)
          | Continue st' => search fuel' st'
          end
      end
  end.

Definition initialState (startStop startTime : string) : SearchState :=
  {| queue := [ {| q_stop := startStop; q_time := startTime; q_path := [];
                   q_numTransfers := 0;
                   distanceToTarget :=
                     getMinDistanceToTarget targetStopsList startStop |} ];
     visited := ∅;
     bestRoute := None;
     bestScore := Infinity |}.

Definition bfsRun (startStop startTime : string) : option Route * SearchState :=
  search MAX_ITERATIONS (initialState startStop startTime).

End Search.

Definition bfsSearch (startStop : string) (targetStops : gset string)
    (targetStopsList : list StopWithDistance) (startTime : string)
    (maxTransfers : Z) (pd : PreloadedData) : option Route :=
  if bool_decide (startStop ∈ targetStops) then
    Some {| path := []; finalStop := startStop; finalTime := startTime;
            numTransfers := 0;
            distanceToDestination :=
              getMinDistanceToTarget targetStopsList startStop |}
  else fst (bfsRun targetStops targetStopsList maxTransfers pd startStop startTime).

(** [calculateTotalTime(result, walkTime = 0)] for a [result] that exists. *)
Definition calculateTotalTime (result : Route) (walkTime : Z) : xnum :=
  match head (path result), last (path result) with
  | Some firstLeg, Some lastLeg =>
      xadd (xnum_of (timeDifferenceMinutes (departure firstLeg) (arrival lastLeg)))
           (XNum walkTime)
  | _, _ => XInfinity
  end.

(** An element of [nearbyResults]; [bestOverallRoute] has the same shape,
    with [walkInfo: null] for the route from the original stop. *)
Record RouteInfo := {
  result : Route;
  walkInfo : option Walk
}.

Definition walkTimeOf (info : RouteInfo) : Z :=
  match walkInfo info with Some w => walk_time w | None => 0 end.

(** [totalTime + result.numTransfers * 30]. *)
Definition routeScore (info : RouteInfo) : xnum :=
  xadd (calculateTotalTime (result info) (walkTimeOf info))
       (XNum (numTransfers (result info) * 30)).

(** The locals [bestOverallRoute], [bestOverallTime], [bestOverallScore]. *)
Record Overall := {
  bestOverallRoute : option RouteInfo;
  bestOverallTime : xnum;
  bestOverallScore : xnum
}.

(** [if (score < bestOverallScore) { ... }]. *)
Definition compareRoute (best : Overall) (info : RouteInfo) : Overall :=
  let totalTime := calculateTotalTime (result info) (walkTimeOf info) in
  let score := routeScore info in
  if xlt score (bestOverallScore best)
  then {| bestOverallRoute := Some info; bestOverallTime := totalTime;
          bestOverallScore := score |}
  else best.

(** STEP 6 of [main]: the original route first, then [nearbyResults] in order. *)
Definition pickBest (originalResult : option Route) (nearbyResults : list RouteInfo)
  : Overall :=
  let start := {| bestOverallRoute := None; bestOverallTime := XInfinity;
                  bestOverallScore := XInfinity |} in
  let afterOriginal :=
    match originalResult with
    | Some r => compareRoute start {| result := r; walkInfo := None |}
    | None => start
    end in
  foldl compareRoute afterOriginal nearbyResults.

(** The routes STEP 6 compares, in the order it compares them. *)
Definition candidates (originalResult : option Route) (nearbyResults : list RouteInfo)
  : list RouteInfo :=
  match originalResult with
  | Some r => {| result := r; walkInfo := None |} :: nearbyResults
  | None => nearbyResults
  end.

Section Main.
Context `{JsMath}.

(** PHASE 2 of STEP 5: the loop over [nearbyStops], which stops at the
    first walkable stop that gives a route without transfers. *)
Fixpoint searchNearby (stopAInfo : option entry) (targetStops : gset string)
    (targetStopsList : list StopWithDistance) (userTime : string)
    (pd : PreloadedData) (nearbyStops : list StopWithDistance)
  : list RouteInfo :=
  match nearbyStops with
  | [] => []
  | nearbyStop :: rest =>
      match bfsSearch (stop_id nearbyStop) targetStops targetStopsList userTime
                      MAX_TRANSFERS pd with
      | Some nearbyResult =>
          let walkTime :=
            Qceiling (distance nearbyStop * 1000 / WALKING_SPEED_M_PER_MIN) in
          let info :=
            {| result := nearbyResult;
               walkInfo := Some {| walk_from := stopAInfo;
                                   walk_to := nearbyStop;
                                   walk_distance := distance nearbyStop;
                                   walk_time := walkTime |} |} in
          if numTransfers nearbyResult =? 0 then [info]
          else info :: searchNearby stopAInfo targetStops targetStopsList
                                    userTime pd rest
      | None => searchNearby stopAInfo targetStops targetStopsList userTime pd rest
      end
  end.

(** STEPs 2 and 4 to 6 of [main], after geocoding ([placeLat], [placeLng])
    and [preloadTransitData] ([pd]). *)
Definition planRoute (fs : filesystem) (stopA : string) (placeLat placeLng : Q)
    (userTime : string) (pd : PreloadedData)
  : option Route * list RouteInfo * Overall :=
  let targetStopsList :=
    findNearestStops fs placeLat placeLng MAX_DESTINATIONS_NEAR_PLACE in
  let targetStops : gset string := list_to_set (stop_id <$> targetStopsList) in
  let allStops := value (loadFile fs "stops.txt") in
  let stopAInfo := find (λ s, str_eqb (prop s "stop_id") stopA) allStops in
  let nearbyStops :=
    match stopAInfo with
    | Some info =>
        if truthy (prop info "stop_lat") && truthy (prop info "stop_lon") then
          List.filter
            (λ s, negb (str_eqb (stop_id s) stopA)
                  && Qle_bool (distance s) MAX_WALKING_DISTANCE_KM)
            (findNearestStops fs (parseFloat (prop info "stop_lat"))
               (parseFloat (prop info "stop_lon")) MAX_NEARBY_STOPS_TO_CHECK)
        else []
    | None => []
    end in
  let originalResult :=
    bfsSearch stopA targetStops targetStopsList userTime MAX_TRANSFERS pd in
  let foundDirectRoute :=
    match originalResult with
    | Some r => numTransfers r =? 0
    | None => false
    end in
  let nearbyResults :=
    if negb foundDirectRoute
    then searchNearby stopAInfo targetStops targetStopsList userTime pd nearbyStops
    else [] in
  (originalResult, nearbyResults, pickBest originalResult nearbyResults).

(** [main] from the geocoder's answer on: the route it prints, or the
    error its [catch] reports before [process.exit(1)]. *)
Definition main (fs : filesystem) (stopA : string) (placeLat placeLng : Q)
    (userTime : string) (routeType : option string) (dayName : string)
    (todayDate : Z) : outcome (option RouteInfo) :=
  match preloadTransitData fs dayName todayDate routeType with
  | Throws e => Throws e
  | Returns pd =>
      Returns (bestOverallRoute
                 (planRoute fs stopA placeLat placeLng userTime pd).2)
  end.
End Main.

End Combined.

(** ** [find_transit_bfs.js]: the walk fallback of [main] *)

(** [result] of [main]: the route, with [walk] when it starts at a nearby stop. *)
Record Journey := {
  journey_route : Route;
  journey_walk : option Walk
}.

(** The loop over [nearbyStops], left at the first stop that gives a route. *)
Fixpoint bfsSearchNearby (stopAInfo : option entry) (targetStops : gset string)
    (targetStopsList : list StopWithDistance) (userTime : string)
    (maxTransfers : Z) (pd : PreloadedData) (nearbyStops : list StopWithDistance)
  : option Journey :=
  match nearbyStops with
  | [] => None
  | nearbyStop :: rest =>
      match Bfs.bfsSearch (stop_id nearbyStop) targetStops targetStopsList userTime
                          maxTransfers pd with
      | Some nearbyResult =>
          Some {| journey_route := nearbyResult;
                  journey_walk :=
                    Some {| walk_from := stopAInfo;
                            walk_to := nearbyStop;
                            walk_distance := distance nearbyStop;
                            walk_time := Qceiling (distance nearbyStop * 1000 / 80) |} |}
      | None => bfsSearchNearby stopAInfo targetStops targetStopsList userTime
                                maxTransfers pd rest
      end
  end.


(** ** Well-formed times, for the statements below *)

(** The two-digit numeral of [n], for [0 <= n < 100]. *)
Definition digitChar (d : Z) : ascii :=
  match d with
  | 0 => "0" | 1 => "1" | 2 => "2" | 3 => "3" | 4 => "4"
  | 5 => "5" | 6 => "6" | 7 => "7" | 8 => "8" | _ => "9"
  end%char.

Definition twoDigits (n : Z) : string :=
  String (digitChar (n / 10)) (String (digitChar (n mod 10)) EmptyString).

(** The string [HH:MM:SS]. *)
Definition timeString (hh mm ss : Z) : string :=
  twoDigits hh +:+ ":" +:+ twoDigits mm +:+ ":" +:+ twoDigits ss.

(** [HH] may exceed 23, as GTFS allows for trips that run past midnight. *)
Definition wellFormedTime (hh mm ss : Z) : Prop :=
  0 <= hh < 100 ∧ 0 <= mm < 60 ∧ 0 <= ss < 60.

(** ** Example feeds

    One bus route [R] and one service [C] that runs on Mondays; the trips and
    the rows of [stop_times.txt] vary.  The files are written the way the
    scripts expect them: [stop_times.txt] with every cell in double quotes. *)

Definition stopTimesHeader : list string :=
  ["trip_id"; "arrival_time"; "departure_time"; "stop_id"; "stop_sequence"].

Definition feedFiles (trips : list string) (stopTimes : list (list string))
  : filesystem :=
  {[ "routes.txt" := joinLines ["route_id,route_type"; "R,3"];
     "calendar.txt" :=
       joinLines ["service_id,monday,start_date,end_date"; "C,1,20250101,20261231"];
     "trips.txt" :=
       joinLines ("route_id,service_id,trip_id,trip_headsign"
                  :: ((λ t, "R,C," +:+ t +:+ ",Downtown") <$> trips));
     "stop_times.txt" := joinLines (quotedLine <$> (stopTimesHeader :: stopTimes)) ]}.

Definition noData : PreloadedData :=
  {| validTripIds := ∅; tripRouteMap := ∅; stopTimeLines := [];
     stHeaders := []; routes := [] |}.

(** The feed as [preloadTransitData] loads it on Monday 2025-11-24. *)
Definition loadFeed (fs : filesystem) : PreloadedData :=
  match preloadTransitData fs "monday" 20251124 None with
  | Returns pd => pd
  | Throws _ => noData
  end.

(** A stop near the destination, with its distance in kilometres. *)
Definition targetStop (id : string) (km : Q) : StopWithDistance :=
  {| stop := {[ "stop_id" := id ]}; distance := km |}.

(** Trip T1 reaches X at 23:57; trip T2 leaves X at 23:58 for Z. *)
Definition lateEveningFeed : filesystem :=
  feedFiles ["T1"; "T2"]
    [ ["T1"; "23:00:00"; "23:00:00"; "S"; "1"];
      ["T1"; "23:57:00"; "23:57:00"; "X"; "2"];
      ["T2"; "23:58:00"; "23:58:00"; "X"; "1"];
      ["T2"; "23:59:00"; "23:59:00"; "Z"; "2"] ].

(** One trip from S that calls at A and then at B. *)
Definition oneLineFeed : filesystem :=
  feedFiles ["T1"]
    [ ["T1"; "08:00:00"; "08:00:00"; "S"; "1"];
      ["T1"; "08:10:00"; "08:10:00"; "A"; "2"];
      ["T1"; "08:20:00"; "08:20:00"; "B"; "3"] ].

(** X is reached from S on T1 alone, and again by changing to T2 at Y. *)
Definition twoWaysFeed : filesystem :=
  feedFiles ["T1"; "T2"]
    [ ["T1"; "08:00:00"; "08:00:00"; "S"; "1"];
      ["T1"; "08:10:00"; "08:10:00"; "Y"; "2"];
      ["T1"; "08:30:00"; "08:30:00"; "X"; "3"];
      ["T2"; "08:20:00"; "08:20:00"; "Y"; "1"];
      ["T2"; "08:25:00"; "08:25:00"; "X"; "2"] ].

(** A trip that calls at S twice. *)
Definition loopFeed : filesystem :=
  feedFiles ["T1"]
    [ ["T1"; "08:00:00"; "08:00:00"; "S"; "1"];
      ["T1"; "08:30:00"; "08:30:00"; "X"; "2"];
      ["T1"; "09:00:00"; "09:00:00"; "S"; "3"];
      ["T1"; "09:30:00"; "09:30:00"; "Y"; "4"] ].

(** Two trips from A: T1 at 08:00 to B1, T2 at 09:00 to B2. *)
Definition twoTargetsFeed : filesystem :=
  feedFiles ["T1"; "T2"]
    [ ["T1"; "08:00:00"; "08:00:00"; "A"; "1"];
      ["T1"; "08:30:00"; "08:30:00"; "B1"; "2"];
      ["T2"; "09:00:00"; "09:00:00"; "A"; "1"];
      ["T2"; "09:30:00"; "09:30:00"; "B2"; "2"] ].

Definition throws {A} (o : outcome A) : bool :=
  match o with Throws _ => true | Returns _ => false end.

(** The stops with coordinates, each with its distance to the reference
    point, in the order of [stops.txt]: the array [findNearestStops] sorts. *)
Definition measuredStops `{JsMath} (fs : filesystem) (targetLat targetLng : Q)
  : list StopWithDistance :=
  (λ stop, {| stop := stop;
               distance := calculateDistance targetLat targetLng
                             (parseFloat (prop stop "stop_lat"))
                             (parseFloat (prop stop "stop_lon")) |})
    <$> List.filter (λ stop, truthy (prop stop "stop_lat")
                               && truthy (prop stop "stop_lon"))
                    (value (loadFile fs "stops.txt")).

(** Two stops at the same place; the one with the larger [stop_id] comes
    first in the file. *)
Definition twinStopsFeed : filesystem :=
  {[ "stops.txt" := joinLines ["stop_id,stop_name,stop_lat,stop_lon";
                               "2,Second,25.2,55.3";
                               "1,First,25.2,55.3"] ]}.

(** A stand-in for the floating-point library, to run examples: decimal
    numerals are read exactly, and the trigonometric functions are replaced
    by their small-angle forms.  No statement below depends on its values. *)
Definition decimalValue (s : string) : Q :=
  match split "." s with
  | [i] => inject_Z (default 0 (digits_val 0 i))
  | [i; f] => Qmake (default 0 (digits_val 0 (i +:+ f)))
                    (Z.to_pos (10 ^ Z.of_nat (String.length f)))
  | _ => 0%Q
  end.

Definition exampleMath : JsMath :=
  {| Math_PI := 355 # 113;
     Math_sin := λ x, x;
     Math_cos := λ _, 1%Q;
     Math_sqrt := λ x, x;
     Math_atan2 := λ y _, y;
     parseFloat := decimalValue |}.

(** A feed with coordinates.  The destination is at (25, 58), where stop Z
    and nineteen further stops lie; S is the source, W is within walking
    distance of S, X is not.  From S the destination takes a change at X;
    from W there is a direct trip. *)
Definition walkFeed : filesystem :=
  <[ "stops.txt" :=
       joinLines ("stop_id,stop_name,stop_lat,stop_lon"
                  :: "Z,Mall,25,58"
                  :: ((λ i : nat, "F" +:+ pretty i +:+ ",Mall gate,25,58") <$> seq 1 19)
                  ++ ["S,Start,25,55"; "W,Corner,25,55.5"; "X,Change,25,56"])%list ]>
    (feedFiles ["T1"; "T2"; "T3"]
       [ ["T1"; "08:00:00"; "08:00:00"; "S"; "1"];
         ["T1"; "08:10:00"; "08:10:00"; "X"; "2"];
         ["T2"; "08:20:00"; "08:20:00"; "X"; "1"];
         ["T2"; "08:40:00"; "08:40:00"; "Z"; "2"];
         ["T3"; "08:05:00"; "08:05:00"; "W"; "1"];
         ["T3"; "08:50:00"; "08:50:00"; "Z"; "2"] ]).

(** The state of [twoWaysFeed] in which X is reached through Y, after one
    transfer, and the locals of the search once X has been expanded as reached
    without a transfer. *)
Definition xAfterOneTransfer : QueueItem :=
  {| q_stop := "X"; q_time := "08:25:00";
     q_path := [ {| from := "S"; to := "Y"; departure := "08:00:00";
                    arrival := "08:10:00"; leg_trip_id := "T1";
                    leg_route_id := "R"; leg_headsign := "Downtown" |};
                 {| from := "Y"; to := "X"; departure := "08:20:00";
                    arrival := "08:25:00"; leg_trip_id := "T2";
                    leg_route_id := "R"; leg_headsign := "Downtown" |} ];
     q_numTransfers := 1; distanceToTarget := Infinity |}.

Definition xSeenWithoutTransfer : Bfs.SearchState :=
  {| Bfs.queue := []; Bfs.visited := {[ "S:0"; "Y:0"; "X:0" ]};
     Bfs.bestRoute := None; Bfs.bestDistance := Infinity |}.

(** ** The frontier order and the states a search goes through *)

(** [a] comes before [b] in the order (transfers, distance to nearest target). *)
Definition lexBefore (a b : QueueItem) : Prop :=
  q_numTransfers a < q_numTransfers b
  ∨ (q_numTransfers a = q_numTransfers b
     ∧ dist_ltb (distanceToTarget a) (distanceToTarget b) = true).

(** States are dequeued from the head: a state that comes before another in
    the order sits nearer the head. *)
Definition frontierOrdered (queue : list QueueItem) : Prop :=
  ∀ i j a b, queue !! i = Some a → queue !! j = Some b → lexBefore a b → (i < j)%nat.

(** The values the locals of [bfsSearch] ([find_transit_combined.js]) take,
    statement by statement: after [queue.shift()], after [visited.add], after
    a candidate is recorded, after a connection is handled.  The current
    state and the connection are left free, so the relation holds of every
    state of every run, and of more. *)
Inductive combinedReachable (targetStops : gset string)
    (targetStopsList : list StopWithDistance) (maxTransfers : Z)
  : Combined.SearchState → Prop :=
  | combined_start startStop startTime :
      combinedReachable targetStops targetStopsList maxTransfers
        (Combined.initialState targetStopsList startStop startTime)
  | combined_dequeue st current rest :
      combinedReachable targetStops targetStopsList maxTransfers st →
      Combined.queue st = current :: rest →
      combinedReachable targetStops targetStopsList maxTransfers
        {| Combined.queue := rest; Combined.visited := Combined.visited st;
           Combined.bestRoute := Combined.bestRoute st;
           Combined.bestScore := Combined.bestScore st |}
  | combined_mark st key :
      combinedReachable targetStops targetStopsList maxTransfers st →
      combinedReachable targetStops targetStopsList maxTransfers
        {| Combined.queue := Combined.queue st;
           Combined.visited := {[key]} ∪ Combined.visited st;
           Combined.bestRoute := Combined.bestRoute st;
           Combined.bestScore := Combined.bestScore st |}
  | combined_candidate st r st' :
      combinedReachable targetStops targetStopsList maxTransfers st →
      Combined.recordCandidate r st = Continue st' →
      combinedReachable targetStops targetStopsList maxTransfers st'
  | combined_connection st current nextAvailableTime conn st' :
      combinedReachable targetStops targetStopsList maxTransfers st →
      Combined.visitConnection targetStops targetStopsList maxTransfers
        current nextAvailableTime st conn = Continue st' →
      combinedReachable targetStops targetStopsList maxTransfers st'.

(** The same for [bfsSearch] of [find_transit_bfs.js], which builds its first
    state only when the start stop is not a target stop. *)
Inductive bfsReachable (targetStops : gset string)
    (targetStopsList : list StopWithDistance) (maxTransfers : Z)
  : Bfs.SearchState → Prop :=
  | bfs_start startStop startTime :
      startStop ∉ targetStops →
      bfsReachable targetStops targetStopsList maxTransfers
        (Bfs.initialState targetStopsList startStop startTime)
  | bfs_dequeue st current rest :
      bfsReachable targetStops targetStopsList maxTransfers st →
      Bfs.queue st = current :: rest →
      bfsReachable targetStops targetStopsList maxTransfers
        {| Bfs.queue := rest; Bfs.visited := Bfs.visited st;
           Bfs.bestRoute := Bfs.bestRoute st;
           Bfs.bestDistance := Bfs.bestDistance st |}
  | bfs_mark st key :
      bfsReachable targetStops targetStopsList maxTransfers st →
      bfsReachable targetStops targetStopsList maxTransfers
        {| Bfs.queue := Bfs.queue st;
           Bfs.visited := {[key]} ∪ Bfs.visited st;
           Bfs.bestRoute := Bfs.bestRoute st;
           Bfs.bestDistance := Bfs.bestDistance st |}
  | bfs_candidate st r :
      bfsReachable targetStops targetStopsList maxTransfers st →
      bfsReachable targetStops targetStopsList maxTransfers
        (Bfs.recordCandidate r st)
  | bfs_connection st current nextAvailableTime conn st' :
      bfsReachable targetStops targetStopsList maxTransfers st →
      Bfs.visitConnection targetStops targetStopsList maxTransfers
        current nextAvailableTime st conn = Continue st' →
      bfsReachable targetStops targetStopsList maxTransfers st'.

(** ** The connections the specification asks for *)

Global Instance StopTimeRow_eq_dec : EqDecision StopTimeRow.
Proof. solve_decision. Defined.

(** The rows of one trip, in file order. *)
Definition rowsOfTrip (pd : PreloadedData) (tripId : string) : list StopTimeRow :=
  List.filter (λ r, str_eqb (st_trip_id r) tripId) (stopTimeRows pd).

(** The invariant of the data model: within each valid trip the stop
    sequences are numbers and no two rows share one. *)
Definition sequencesWellFormed (pd : PreloadedData) : Prop :=
  Forall (λ tripId, Forall (λ r, is_Some (st_seq r)) (rowsOfTrip pd tripId)
                    ∧ NoDup (st_seq <$> rowsOfTrip pd tripId))
         (elements (validTripIds pd)).

Global Instance sequencesWellFormed_dec pd : Decision (sequencesWellFormed pd).
Proof. unfold sequencesWellFormed. apply _. Defined.

(** [src] is the first call of its trip at [stopId]: no row of the trip at
    that stop has a lower sequence. *)
Definition isFirstCall (pd : PreloadedData) (stopId : string) (src : StopTimeRow) : bool :=
  str_eqb (st_stop_id src) stopId
  && forallb (λ r, negb (str_eqb (st_trip_id r) (st_trip_id src)
                         && str_eqb (st_stop_id r) stopId
                         && jlt (st_seq r) (st_seq src)))
             (stopTimeRows pd).

(** A valid trip can be boarded at [stopId] after [afterTime] through [src]. *)
Definition boards (pd : PreloadedData) (stopId afterTime : string)
    (src : StopTimeRow) : bool :=
  validRow pd src && isFirstCall pd stopId src
  && (0 <? compareTime (st_dep src) afterTime).

Definition laterOnTrip (src dst : StopTimeRow) : bool :=
  str_eqb (st_trip_id dst) (st_trip_id src) && jlt (st_seq src) (st_seq dst).

Definition connectionOf (pd : PreloadedData) (src dst : StopTimeRow) : Connection :=
  {| conn_stop_id := st_stop_id dst;
     arrival_time := st_arr dst;
     departure_time := st_dep src;
     trip_id := st_trip_id src;
     route_id := tripProp pd (st_trip_id src) "route_id";
     headsign := tripProp pd (st_trip_id src) "trip_headsign" |}.

(** The connections through one boarding row: one for every later row of
    its trip. *)
Definition expectedFrom (pd : PreloadedData) (stopId afterTime : string)
    (src : StopTimeRow) : list Connection :=
  if boards pd stopId afterTime src
  then connectionOf pd src <$> List.filter (laterOnTrip src) (stopTimeRows pd)
  else [].

Definition expectedConnections (stopId afterTime : string) (pd : PreloadedData)
  : list Connection :=
  List.flat_map (expectedFrom pd stopId afterTime) (stopTimeRows pd).

(** The rows that [tripStopMap] files under one trip, in file order, and the
    comparison of [stops.sort] read on rows. *)
Definition validRowsOfTrip (pd : PreloadedData) (tripId : string) : list StopTimeRow :=
  List.filter (λ r, validRow pd r && str_eqb (st_trip_id r) tripId) (stopTimeRows pd).

Definition rowAfter (a b : StopTimeRow) : bool :=
  jgt (jsub (st_seq a) (st_seq b)) (Some 0).

(** The connections as the specification words them: every row at [stopId]
    of a valid trip that departs after [afterTime] counts, whether or not it is
    the trip's first call there. *)
Definition specifiedConnections (stopId afterTime : string) (pd : PreloadedData)
  : list Connection :=
  List.flat_map
    (λ src, if validRow pd src && str_eqb (st_stop_id src) stopId
               && (0 <? compareTime (st_dep src) afterTime)
            then connectionOf pd src <$> List.filter (laterOnTrip src) (stopTimeRows pd)
            else [])
    (stopTimeRows pd).

(** ** Eligible legs of the direct-trip finder *)

(** [{ trip_id, departure_time, arrival_at_B, route_id, headsign, stopB }]
    for the rows of the source and of the target on one trip. *)
Definition matchOf (pd : PreloadedData) (ra rb : StopTimeRow) : NextTransit.Match :=
  {| NextTransit.m_trip_id := st_trip_id ra;
     NextTransit.m_departure_time := st_dep ra;
     NextTransit.arrival_at_B := st_arr rb;
     NextTransit.m_route_id := tripProp pd (st_trip_id ra) "route_id";
     NextTransit.m_headsign := tripProp pd (st_trip_id ra) "trip_headsign";
     NextTransit.stopB := st_stop_id rb |}.

(** A leg from [stopA] to a candidate stop: both stops on one valid trip, the
    target at a strictly greater sequence. *)
Definition eligibleLeg (pd : PreloadedData) (stopA : string)
    (candidateStops : list StopWithDistance) (m : NextTransit.Match) : Prop :=
  ∃ ra rb,
    ra ∈ stopTimeRows pd ∧ rb ∈ stopTimeRows pd
    ∧ validRow pd ra = true
    ∧ st_trip_id rb = st_trip_id ra
    ∧ st_stop_id ra = stopA
    ∧ st_stop_id rb ∈ stop_id <$> candidateStops
    ∧ jlt (st_seq ra) (st_seq rb) = true
    ∧ m = matchOf pd ra rb.

(** No valid trip has two rows at the same stop. *)
Definition noRepeatedCalls (pd : PreloadedData) : Prop :=
  Forall (λ r1,
            Forall (λ r2, validRow pd r1 = true →
                          st_trip_id r1 = st_trip_id r2 →
                          st_stop_id r1 = st_stop_id r2 → r1 = r2)
                   (stopTimeRows pd))
         (stopTimeRows pd).

Global Instance noRepeatedCalls_dec pd : Decision (noRepeatedCalls pd).
Proof. unfold noRepeatedCalls. apply _. Defined.

(** The test of the selection loop once a trip has been chosen: the new stop
    replaces the chosen one when it is below 0.8 times its distance, or below
    1.2 times its distance with a strictly earlier departure. *)
Definition replaces (newDistance : Q) (newDeparture : string)
    (bestDistance : Q) (bestDeparture : string) : bool :=
  Qltb newDistance (bestDistance * (8 # 10))
  || (Qltb newDistance (bestDistance * (12 # 10))
      && str_lt newDeparture bestDeparture).

(** The stops the finder keeps rows for, and the cell it keeps of a row. *)
Definition relevantStop (stopA : string) (candidateStopIds : gset string)
    (sId : string) : bool :=
  str_eqb sId stopA || bool_decide (sId ∈ candidateStopIds).

Definition cellOf (row : StopTimeRow) : NextTransit.TripStop :=
  {| NextTransit.seq := st_seq row; NextTransit.dep := st_dep row;
     NextTransit.arr := st_arr row |}.

(** The matches one trip contributes, as (destination, match) pairs in the
    order they are pushed. *)
Definition pairsOfTrip (candidateStops : list StopWithDistance) (pd : PreloadedData)
    (tId : string) (stops : gmap string NextTransit.TripStop)
    (a : NextTransit.TripStop) : list (string * NextTransit.Match) :=
  List.flat_map
    (λ candidateStop,
       match stops !! stop_id candidateStop with
       | Some b =>
           if jlt (NextTransit.seq a) (NextTransit.seq b)
           then [ (stop_id candidateStop,
                   {| NextTransit.m_trip_id := tId;
                      NextTransit.m_departure_time := NextTransit.dep a;
                      NextTransit.arrival_at_B := NextTransit.arr b;
                      NextTransit.m_route_id := tripProp pd tId "route_id";
                      NextTransit.m_headsign := tripProp pd tId "trip_headsign";
                      NextTransit.stopB := stop_id candidateStop |}) ]
           else []
       | None => []
       end)
    candidateStops.

Definition matchPairs (stopA : string) (candidateStops : list StopWithDistance)
    (pd : PreloadedData) : list (string * NextTransit.Match) :=
  List.flat_map
    (λ e : string * gmap string NextTransit.TripStop,
       match e.2 !! stopA with
       | Some a => pairsOfTrip candidateStops pd e.1 e.2 a
       | None => []
       end)
    (entries (NextTransit.tripStops stopA
                (list_to_set (stop_id <$> candidateStops)) pd)).

(** [if (!o[k]) o[k] = []; o[k].push(x)] for a pair [(k, x)]. *)
Definition pushPair {V} (o : jsobj (list V)) (p : string * V) : jsobj (list V) :=
  objPush o p.1 p.2.

(** ** Auxiliary notions for the statements on the searches *)


(** The loop body left [bfsSearch] with a [return]. *)
Definition returnsNow {S} (f : flow S) : bool :=
  match f with Return _ => true | Continue _ => false end.

Definition fewerTransfers (a b : QueueItem) : Prop :=
  q_numTransfers a < q_numTransfers b.

(** Every state of the frontier is at distance [Infinity], and the frontier
    is sorted by the number of transfers. *)
Definition bfsFrontierInv (queue : list QueueItem) : Prop :=
  Forall (λ item, distanceToTarget item = Infinity) queue
  ∧ StronglySorted (λ x y, ¬ fewerTransfers y x) queue.

(** Scenario feeds of the specification: trip T1 from S1 by S2 to S3, and
    the same with T1 ending at S2 and trip T2 going on to S3. *)
Definition scenarioDirectFeed : filesystem :=
  feedFiles ["T1"; "T2"]
    [ ["T1"; "08:00:00"; "08:00:00"; "S1"; "1"];
      ["T1"; "08:10:00"; "08:10:30"; "S2"; "2"];
      ["T1"; "08:20:00"; "08:20:00"; "S3"; "3"];
      ["T2"; "08:20:00"; "08:20:00"; "S2"; "1"];
      ["T2"; "08:30:00"; "08:30:00"; "S3"; "2"] ].

Definition scenarioTransferFeed : filesystem :=
  feedFiles ["T1"; "T2"]
    [ ["T1"; "08:00:00"; "08:00:00"; "S1"; "1"];
      ["T1"; "08:10:00"; "08:10:30"; "S2"; "2"];
      ["T2"; "08:20:00"; "08:20:00"; "S2"; "1"];
      ["T2"; "08:30:00"; "08:30:00"; "S3"; "2"] ].

(** * Further notions: the [main] functions, and what the searches keep *)

Local Open Scope list_scope.

(** ** Feed files: what [parseCSV] reads off a file *)

(** The character occurs in the string. *)
Fixpoint hasChar (c : ascii) (s : string) : bool :=
  match s with
  | EmptyString => false
  | String a s' => Ascii.eqb a c || hasChar c s'
  end.

(** The names [parseCSV] reads off the first line. *)
Definition csvHeaders (content : string) : list string :=
  (λ h, stripQuotes (trim h))
    <$> split "," (default "" (head (split newline (trim content)))).

(** The value [parseCSV] stores for the cell at position [idx]:
    [values[idx] ? values[idx].replace(/^"|"$/g, '') : '']. *)
Definition csvValue (values : list string) (idx : nat) : string :=
  match values !! idx with
  | Some v => if str_eqb v "" then "" else stripQuotes v
  | None => ""
  end.

(** The feed of [oneLineFeed] with a [stop_times.txt] whose cells are not
    quoted. *)
Definition unquotedFeed : filesystem :=
  <[ "stop_times.txt" :=
       joinLines ["trip_id,arrival_time,departure_time,stop_id,stop_sequence";
                  "T1,08:00:00,08:00:00,S,1";
                  "T1,08:10:00,08:10:00,A,2";
                  "T1,08:20:00,08:20:00,B,3"] ]> oneLineFeed.

(** ** The service-day filter of [preloadTransitData], test by test *)

(** [!routeType || r.route_type === routeType]. *)
Definition routeSelected (routeType : option string) (r : entry) : bool :=
  match routeType with
  | None => true
  | Some rt => negb (truthy rt) || str_eqb (prop r "route_type") rt
  end.

(** [isActiveDay && todayDate >= startDate && todayDate <= endDate]. *)
Definition serviceActive (dayName : string) (todayDate : Z) (c : entry) : bool :=
  str_eqb (prop c dayName) "1"
  && jle (parseInt (prop c "start_date")) (Some todayDate)
  && jle (Some todayDate) (parseInt (prop c "end_date")).

(** A row of [trips.txt] that runs today on a selected route:
    [targetRouteIds.has(t.route_id) && activeServices.has(t.service_id)]. *)
Definition runsToday (fs : filesystem) (dayName : string) (todayDate : Z)
    (routeType : option string) (t : entry) : Prop :=
  (∃ r, r ∈ value (loadFile fs "routes.txt")
        ∧ routeSelected routeType r = true
        ∧ prop r "route_id" = prop t "route_id")
  ∧ (∃ c, c ∈ value (loadFile fs "calendar.txt")
          ∧ serviceActive dayName todayDate c = true
          ∧ prop c "service_id" = prop t "service_id").

(** The trips that run today on the selected routes: steps 1 to 3 of
    [preloadTransitData], which [main] of [find_next_transit.js] repeats in
    its mode with two stop ids. *)
Definition validTripsOf (fs : filesystem) (dayName : string) (todayDate : Z)
    (routeType : option string) : list entry :=
  let routes := value (loadFile fs "routes.txt") in
  let targetRouteIds : gset string :=
    list_to_set ((λ r, prop r "route_id") <$>
      List.filter (λ r, match routeType with
                        | None => true
                        | Some rt => negb (truthy rt) || str_eqb (prop r "route_type") rt
                        end) routes) in
  let calendar := value (loadFile fs "calendar.txt") in
  let activeServices : gset string :=
    list_to_set ((λ c, prop c "service_id") <$>
      List.filter (λ c, let startDate := parseInt (prop c "start_date") in
                        let endDate := parseInt (prop c "end_date") in
                        let isActiveDay := str_eqb (prop c dayName) "1" in
                        isActiveDay && jle startDate (Some todayDate)
                          && jle (Some todayDate) endDate) calendar) in
  let allTrips := value (loadFile fs "trips.txt") in
  List.filter (λ t, bool_decide (prop t "route_id" ∈ targetRouteIds)
                      && bool_decide (prop t "service_id" ∈ activeServices)) allTrips.

(** ** Feeds on which the scripts read what the file says

    Statements that compare the result of a script with the rows of the feed
    assume that the engine's built-in functions meet no input on which their
    result is engine-defined or an exception. *)

Fixpoint allDigits (s : string) : bool :=
  match s with
  | EmptyString => true
  | String c s' => is_digit c && allDigits s'
  end.

(** A time written [HH:MM:SS] with two digits each.  On such strings
    [localeCompare], which sorts the matches of the direct-trip finder, orders
    as [<] and [>] do, and [Number] reads every field. *)
Definition isClockTime (s : string) : bool :=
  match s with
  | String h1 (String h2 (String c1 (String m1 (String m2 (String c2
      (String s1 (String s2 EmptyString))))))) =>
      is_digit h1 && is_digit h2 && Ascii.eqb c1 ":" && is_digit m1 && is_digit m2
      && Ascii.eqb c2 ":" && is_digit s1 && is_digit s2
  | _ => false
  end.

(** The own property names of [Object.prototype].  The scripts keep trips
    and stops in plain objects ([tripStopMap], [tripStops], [matchesByDest]),
    in which such a key is found before it has been set. *)
Definition objectPrototypeKeys : list string :=
  ["constructor"; "__defineGetter__"; "__defineSetter__"; "hasOwnProperty";
   "__lookupGetter__"; "__lookupSetter__"; "isPrototypeOf";
   "propertyIsEnumerable"; "toString"; "valueOf"; "__proto__"; "toLocaleString"].

(** [parts[idx]] is there: the header has the column and the line the cell. *)
Definition hasCell (parts : list string) (idx : option nat) : bool :=
  match idx with
  | Some i => match parts !! i with Some _ => true | None => false end
  | None => false
  end.

(** A line of [stop_times.txt] that has its five cells, a stop sequence made
    of digits, a departure time written [HH:MM:SS], and ids of trip and stop
    that are no property names of [Object.prototype]. *)
Definition plainLine (stHeaders : list string) (line : string) : bool :=
  let parts := lineParts line in
  let row := stopTimeRow stHeaders line in
  forallb (λ col, hasCell parts (indexOf col stHeaders))
          ["trip_id"; "stop_id"; "stop_sequence"; "arrival_time"; "departure_time"]
  && match st_seq row with Some _ => true | None => false end
  && isClockTime (st_dep row)
  && negb (bool_decide (st_trip_id row ∈ objectPrototypeKeys))
  && negb (bool_decide (st_stop_id row ∈ objectPrototypeKeys)).

Definition plainRows (pd : PreloadedData) : Prop :=
  forallb (plainLine (stHeaders pd)) (tail (stopTimeLines pd)) = true.

(** A decimal numeral, with or without a sign and a fraction: [parseFloat]
    reads all of it, as a number. *)
Definition unsigned (s : string) : string :=
  match s with
  | String c s' => if Ascii.eqb c "-" then s' else s
  | EmptyString => s
  end.

Definition decimalNumeral (s : string) : bool :=
  match split "." (unsigned s) with
  | [i] => truthy i && allDigits i
  | [i; f] => truthy i && allDigits i && truthy f && allDigits f
  | _ => false
  end.

Section Numbers.
Context `{JsMath}.
Local Open Scope Q_scope.

(** The term [a] of [calculateDistance], of which it takes the square roots
    [Math.sqrt(a)] and [Math.sqrt(1 - a)]. *)
Definition haversineTerm (lat1 lng1 lat2 lng2 : Q) : Q :=
  let dLat := (lat2 - lat1) * Math_PI / 180 in
  let dLng := (lng2 - lng1) * Math_PI / 180 in
  Math_sin (dLat / 2) * Math_sin (dLat / 2) +
  Math_cos (lat1 * Math_PI / 180) * Math_cos (lat2 * Math_PI / 180) *
  Math_sin (dLng / 2) * Math_sin (dLng / 2).

(** The distance of the stop is a number: its coordinates are decimal
    numerals, and neither square root is taken of a negative number. *)
Definition distanceIsNumber (targetLat targetLng : Q) (stop : entry) : bool :=
  decimalNumeral (prop stop "stop_lat") && decimalNumeral (prop stop "stop_lon")
  && (let a := haversineTerm targetLat targetLng
                 (parseFloat (prop stop "stop_lat"))
                 (parseFloat (prop stop "stop_lon")) in
      Qle_bool 0 a && Qle_bool a 1).

(** Every stop that passes the filter of [findNearestStops] has a distance
    that is a number.  Otherwise a distance is [NaN], the comparator of the
    sort gives [NaN], and the order of the stops is left to the engine. *)
Definition distancesAreNumbers (fs : filesystem) (targetLat targetLng : Q) : Prop :=
  forallb (λ s, distanceIsNumber targetLat targetLng (stop s))
          (measuredStops fs targetLat targetLng) = true.
End Numbers.

(** ** The walk fallback of [find_transit_combined.js], stop by stop *)


(** ** The direct-trip finder: the trip held during the selection loop *)

(** [bestTrip] after the loop has gone through the destinations [scan]. *)
Definition heldAfter (candidateStops : list StopWithDistance) (userTime : string)
    (scan : list (string * list NextTransit.Match)) : option NextTransit.Match :=
  fst (foldl (NextTransit.selectStep candidateStops userTime) (None, Infinity) scan).



(** ** Paths of the searches *)

(** The connection a leg was made from. *)
Definition connOfLeg (l : Leg) : Connection :=
  {| conn_stop_id := to l; arrival_time := arrival l; departure_time := departure l;
     trip_id := leg_trip_id l; route_id := leg_route_id l; headsign := leg_headsign l |}.

(** Where and when a path ends; the start for the empty path. *)
Definition endOf (startStop : string) (path : list Leg) : string :=
  match last path with Some l => to l | None => startStop end.
Definition endTime (startTime : string) (path : list Leg) : string :=
  match last path with Some l => arrival l | None => startTime end.

(** The test [isTransfer] of the searches, read on two consecutive legs. *)
Definition changesVehicle (l1 l2 : Leg) : bool :=
  negb (str_eqb (leg_route_id l1) (leg_route_id l2))
  || negb (str_eqb (leg_trip_id l1) (leg_trip_id l2)).

Fixpoint countTransfers (path : list Leg) : Z :=
  match path with
  | l1 :: rest =>
      match rest with
      | l2 :: _ => (if changesVehicle l1 l2 then 1 else 0) + countTransfers rest
      | [] => 0
      end
  | [] => 0
  end.

(** A path that the searches can have built from [stop] at [time]: every leg
    starts where the traveller stands, is one of the connections the expander
    offers there after the time of arrival, and, [first] leg apart, does not
    leave before [addMinutesToTime] of the arrival by the transfer time. *)
Fixpoint validPath (pd : PreloadedData) (stop time : string) (first : bool)
    (path : list Leg) : Prop :=
  match path with
  | [] => True
  | l :: rest =>
      from l = stop
      ∧ connOfLeg l ∈ getDirectConnections stop time pd
      ∧ 0 <= compareTime (departure l)
               (if first then time else addMinutesToTime time TRANSFER_TIME_MINUTES)
      ∧ validPath pd (to l) (arrival l) false rest
  end.

(** What every element of [queue] satisfies, and every route held in
    [bestRoute], in a search from [startStop] at [startTime]; [bound] limits
    the transfers of a route with legs. *)
Definition wellBuiltItem (targetStops : gset string) (pd : PreloadedData)
    (startStop startTime : string) (item : QueueItem) : Prop :=
  validPath pd startStop startTime true (q_path item)
  ∧ q_stop item = endOf startStop (q_path item)
  ∧ q_time item = endTime startTime (q_path item)
  ∧ q_numTransfers item = countTransfers (q_path item)
  ∧ q_stop item ∉ targetStops.

Definition wellBuiltRoute (targetStops : gset string)
    (targetStopsList : list StopWithDistance) (pd : PreloadedData)
    (startStop startTime : string) (bound : Z) (r : Route) : Prop :=
  validPath pd startStop startTime true (path r)
  ∧ finalStop r = endOf startStop (path r)
  ∧ finalTime r = endTime startTime (path r)
  ∧ numTransfers r = countTransfers (path r)
  ∧ finalStop r ∈ targetStops
  ∧ distanceToDestination r = getMinDistanceToTarget targetStopsList (finalStop r)
  ∧ (path r ≠ [] → numTransfers r <= bound).

Definition wellBuiltBest (targetStops : gset string)
    (targetStopsList : list StopWithDistance) (pd : PreloadedData)
    (startStop startTime : string) (bound : Z) (best : option Route) : Prop :=
  ∀ r, best = Some r →
       wellBuiltRoute targetStops targetStopsList pd startStop startTime bound r.

Definition bfsWellBuilt (targetStops : gset string)
    (targetStopsList : list StopWithDistance) (maxTransfers : Z) (pd : PreloadedData)
    (startStop startTime : string) (st : Bfs.SearchState) : Prop :=
  Forall (wellBuiltItem targetStops pd startStop startTime) (Bfs.queue st)
  ∧ wellBuiltBest targetStops targetStopsList pd startStop startTime
      (maxTransfers + 1) (Bfs.bestRoute st).

Definition combinedWellBuilt (targetStops : gset string)
    (targetStopsList : list StopWithDistance) (maxTransfers : Z) (pd : PreloadedData)
    (startStop startTime : string) (st : Combined.SearchState) : Prop :=
  Forall (wellBuiltItem targetStops pd startStop startTime) (Combined.queue st)
  ∧ wellBuiltBest targetStops targetStopsList pd startStop startTime
      maxTransfers (Combined.bestRoute st).

(** ** The comparison loop of [main] in [find_transit_combined.js] *)

(** What the loop has done after the routes [seen]: it holds the first of the
    routes with the least score, if any route has a score that is a number. *)
Definition firstBest (seen : list Combined.RouteInfo) (o : Combined.Overall) : Prop :=
  match Combined.bestOverallRoute o with
  | None =>
      Combined.bestOverallScore o = XInfinity
      ∧ Forall (λ c, ∀ z, Combined.routeScore c ≠ XNum z) seen
  | Some best =>
      ∃ before after z,
        seen = before ++ best :: after
        ∧ Combined.routeScore best = XNum z
        ∧ Combined.bestOverallScore o = XNum z
        ∧ Forall (λ c, xlt (XNum z) (Combined.routeScore c) = true
                       ∨ Combined.routeScore c = XNaN) before
        ∧ Forall (λ c, xlt (Combined.routeScore c) (XNum z) = false) after
  end.

(** ** [find_next_transit.js]: [main] *)

Module NextTransitMain.



(** [{ ...bestTransferOption, requiresWalk: true, walkFrom, walkTo,
    walkDistance, walkTime }], and the plain trip when no walk is needed. *)
Record WalkTo := {
  walkFrom : string;
  walkTo : string;
  walkDistance : Q;
  walkTime : Z
}.

Record Found := {
  found_trip : NextTransit.Match;
  found_walk : option WalkTo
}.

Definition BATCH_SIZE : nat := 10.

(** The loop over [batchResults], left at the first stop with a trip. *)
Fixpoint firstFound (batchResults : list (StopWithDistance * option NextTransit.Match))
  : option (NextTransit.Match * StopWithDistance) :=
  match batchResults with
  | [] => None
  | (nearbyStop, transferResult) :: rest =>
      match transferResult with
      | Some m => Some (m, nearbyStop)
      | None => firstFound rest
      end
  end.

(** [{ nearbyStop, transferResult }] for one stop of a batch. *)
Definition tryStop (nearestStops : list StopWithDistance) (userTime : string)
    (pd : PreloadedData) (nearbyStop : StopWithDistance)
  : StopWithDistance * option NextTransit.Match :=
  (nearbyStop,
   NextTransit.findBestDirectTrip (stop_id nearbyStop) nearestStops userTime pd).

(** The loop [for (let i = 0; i < n; i += BATCH_SIZE)], which ends once a
    batch has given a trip; [fuel] bounds the number of batches. *)
Fixpoint checkBatches (fuel : nat) (nearestStops : list StopWithDistance)
    (userTime : string) (pd : PreloadedData) (nearbySourceStops : list StopWithDistance)
  : option (NextTransit.Match * StopWithDistance) :=
  match fuel with
  | O => None
  | S fuel' =>
      match nearbySourceStops with
      | [] => None
      | _ =>
          let batch := take BATCH_SIZE nearbySourceStops in
          let batchResults := tryStop nearestStops userTime pd <$> batch in
          match firstFound batchResults with
          | Some r => Some r
          | None => checkBatches fuel' nearestStops userTime pd
                      (drop BATCH_SIZE nearbySourceStops)
          end
      end
  end.

(** The mode [--to-place], after geocoding and [preloadTransitData]. *)
Definition toPlace `{JsMath} (fs : filesystem) (stopA : string)
    (placeLat placeLng : Q) (userTime : string) (pd : PreloadedData)
  : option Found :=
  let nearestStops := findNearestStops fs placeLat placeLng 100 in
  match NextTransit.findBestDirectTrip stopA nearestStops userTime pd with
  | Some result => Some {| found_trip := result; found_walk := None |}
  | None =>
      let allStops := value (loadFile fs "stops.txt") in
      match find (λ s, str_eqb (prop s "stop_id") stopA) allStops with
      | Some sourceStop =>
          if truthy (prop sourceStop "stop_lat") && truthy (prop sourceStop "stop_lon")
          then
            let nearbySourceStops :=
              List.filter
                (λ s, negb (str_eqb (stop_id s) stopA) && Qle_bool (distance s) 2)
                (findNearestStops fs (parseFloat (prop sourceStop "stop_lat"))
                   (parseFloat (prop sourceStop "stop_lon")) 100) in
            match checkBatches (length nearbySourceStops) nearestStops userTime pd
                    nearbySourceStops with
            | Some (bestTransferOption, bestTransferStop) =>
                Some {| found_trip := bestTransferOption;
                        found_walk :=
                          Some {| walkFrom := stopA;
                                  walkTo := stop_id bestTransferStop;
                                  walkDistance := distance bestTransferStop;
                                  walkTime :=
                                    Qceiling (distance bestTransferStop * 1000 / 80) |} |}
            | None => None
            end
          else None
      | None => None
      end
  end.

End NextTransitMain.



(** The stops [main] of [find_next_transit.js] tries to walk to: those of the
    hundred nearest to the source stop that lie within two kilometres of it. *)
Definition walkableSourceStops `{JsMath} (fs : filesystem) (stopA : string)
  : list StopWithDistance :=
  match find (λ s, str_eqb (prop s "stop_id") stopA) (value (loadFile fs "stops.txt")) with
  | Some sourceStop =>
      if truthy (prop sourceStop "stop_lat") && truthy (prop sourceStop "stop_lon")
      then List.filter
             (λ s, negb (str_eqb (stop_id s) stopA) && Qle_bool (distance s) 2)
             (findNearestStops fs (parseFloat (prop sourceStop "stop_lat"))
                (parseFloat (prop sourceStop "stop_lon")) 100)
      else []
  | None => []
  end.

(** ** [find_transit_bfs.js]: the arguments of [main] *)

(** [Math.min(a, b)] for a number [b]; [NaN] stays [NaN]. *)
Definition jmin (a : jsnum) (b : Z) : jsnum := (λ x, Z.min x b) <$> a.

Module BfsMain.

(** What [main] reads off [process.argv.slice(2)].  [userTime] is [None]
    when the current time is to be taken. *)
Record Args := {
  stopA : string;
  placeName : string;
  userTime : option string;
  routeType : option string;
  maxTransfers : jsnum
}.

Section ReadArgs.
(** [parseInt(s, 10)], for whatever it returns on the words of the command
    line. *)
Context (parseInt10 : string → jsnum).

(** [args[i]] as a condition or before [|| null]: an absent or empty
    argument counts as not given. *)
Definition given (args : list string) (i : nat) : option string :=
  match args !! i with
  | Some s => if truthy s then Some s else None
  | None => None
  end.

(** [None] stands for the usage message and [process.exit(1)]. *)
Definition arguments (args : list string) : option Args :=
  match args with
  | stopA :: placeName :: _ =>
      let userTime := given args 2 in
      let routeType := given args 3 in
      let routeType :=
        match routeType with
        | Some r => if str_eqb r "null" || str_eqb r "undefined" then None else Some r
        | None => None
        end in
      let '(maxTransfers, routeType) :=
        match given args 4 with
        | Some a4 => (jmin (parseInt10 a4) 2, routeType)
        | None =>
            match given args 3 with
            | Some a3 =>
                if jlt (parseInt10 a3) (Some 10)
                then (jmin (parseInt10 a3) 2, None)
                else (Some Bfs.DEFAULT_MAX_TRANSFERS, routeType)
            | None => (Some Bfs.DEFAULT_MAX_TRANSFERS, routeType)
            end
        end in
      Some {| stopA := stopA; placeName := placeName; userTime := userTime;
              routeType := routeType; maxTransfers := jmin maxTransfers 2 |}
  | _ => None
  end.

End ReadArgs.

End BfsMain.

(** Stops for the examples of the walk fallback: Q has no departure, W has
    the direct trip T3 of [walkFeed]. *)
Definition walkCandidates : list StopWithDistance :=
  [targetStop "Q" (1 # 10); targetStop "W" (2 # 10)].

(** * Properties *)

Local Open Scope list_scope.

(** ** The embedding at work on the scenarios of the specification *)

Example scenario_direct :
  Bfs.bfsSearch "S1" {[ "S3" ]} [targetStop "S3" (11 # 100)] "07:30:00" 2
    (loadFeed scenarioDirectFeed)
  = Some {| path := [ {| from := "S1"; to := "S3"; departure := "08:00:00";
                         arrival := "08:20:00"; leg_trip_id := "T1";
                         leg_route_id := "R"; leg_headsign := "Downtown" |} ];
            finalStop := "S3"; finalTime := "08:20:00"; numTransfers := 0;
            distanceToDestination := Fin (11 # 100) |}.
Proof. vm_compute. reflexivity. Qed.

Example scenario_transfer :
  (λ r, (leg_trip_id <$> path r, numTransfers r)) <$>
    Bfs.bfsSearch "S1" {[ "S3" ]} [targetStop "S3" (11 # 100)] "07:30:00" 2
      (loadFeed scenarioTransferFeed)
  = Some (["T1"; "T2"], 1)
  ∧ timeDifferenceMinutes "08:10:00" "08:20:00" = Some 10.
Proof. vm_compute. split; reflexivity. Qed.

Example scenario_late :
  Bfs.bfsSearch "S1" {[ "S3" ]} [targetStop "S3" (11 # 100)] "08:15:00" 2
    (loadFeed scenarioDirectFeed) = None.
Proof. vm_compute. reflexivity. Qed.

Example scenario_source_is_target :
  Bfs.bfsSearch "S3" {[ "S3" ]} [targetStop "S3" (11 # 100)] "07:30:00" 2
    (loadFeed scenarioDirectFeed)
  = Some {| path := []; finalStop := "S3"; finalTime := "07:30:00";
            numTransfers := 0; distanceToDestination := Fin (11 # 100) |}.
Proof. vm_compute. reflexivity. Qed.

Example property_order_of_objects :
  keys (objSet (objSet (objSet (objSet [] "b" 1) "10" 2) "a" 3) "9" 4)
  = ["9"; "10"; "b"; "a"].
Proof. reflexivity. Qed.

(** ** Time helpers *)

Section TimeFacts.

Lemma below_100 (P : Z → Prop) `{!∀ n, Decision (P n)} :
  bool_decide (Forall P (seqZ 0 100)) = true → ∀ n, 0 <= n < 100 → P n.
Proof.
  intros Hall n Hn. apply bool_decide_eq_true_1 in Hall.
  rewrite Forall_forall in Hall. apply Hall, elem_of_seqZ. lia.
Qed.

Lemma Number_twoDigits n : 0 <= n < 100 → Number (twoDigits n) = Some n.
Proof.
  revert n. apply (below_100 (λ n, Number (twoDigits n) = Some n)).
  vm_compute. reflexivity.
Qed.

Lemma padStart2_twoDigits n :
  0 <= n < 100 → padStart2 (toString (Some n)) = twoDigits n.
Proof.
  revert n. apply (below_100 (λ n, padStart2 (toString (Some n)) = twoDigits n)).
  vm_compute. reflexivity.
Qed.

Lemma split_twoDigits_end n :
  0 <= n < 100 → split ":" (twoDigits n) = [twoDigits n].
Proof.
  revert n. apply (below_100 (λ n, split ":" (twoDigits n) = [twoDigits n])).
  vm_compute. reflexivity.
Qed.

Lemma split_twoDigits_colon n rest :
  0 <= n < 100 →
  split ":" (twoDigits n +:+ ":" +:+ rest) = twoDigits n :: split ":" rest.
Proof.
  intros Hn.
  assert (Hd : ∀ d, Ascii.eqb (digitChar d) ":" = false).
  { intros d. unfold digitChar. repeat case_match; reflexivity. }
  unfold twoDigits.
  change (split ":" (String (digitChar (n / 10))
            (String (digitChar (n mod 10)) (String ":" rest)))
          = [String (digitChar (n / 10)) (String (digitChar (n mod 10)) "")]
            ++ split ":" rest)%list.
  cbn [split]. rewrite !Hd, Ascii.eqb_refl.
  destruct (split ":" rest); reflexivity.
Qed.

Lemma split_timeString hh mm ss :
  0 <= hh < 100 → 0 <= mm < 100 → 0 <= ss < 100 →
  split ":" (timeString hh mm ss) = [twoDigits hh; twoDigits mm; twoDigits ss].
Proof.
  intros Hh Hm Hs. unfold timeString.
  rewrite !split_twoDigits_colon, split_twoDigits_end by done. reflexivity.
Qed.

Lemma secondsOfDay_timeString hh mm ss :
  0 <= hh < 100 → 0 <= mm < 100 → 0 <= ss < 100 →
  secondsOfDay (timeString hh mm ss) = Some (hh * 3600 + mm * 60 + ss).
Proof.
  intros Hh Hm Hs. unfold secondsOfDay, field.
  rewrite split_timeString by done. cbn [lookup list_lookup].
  rewrite !Number_twoDigits by done. reflexivity.
Qed.

Lemma minutesOfDay_timeString hh mm ss :
  0 <= hh < 100 → 0 <= mm < 100 → 0 <= ss < 100 →
  minutesOfDay (timeString hh mm ss) = Some (hh * 60 + mm).
Proof.
  intros Hh Hm Hs. unfold minutesOfDay, field.
  rewrite split_timeString by done. cbn [lookup list_lookup].
  rewrite !Number_twoDigits by done. reflexivity.
Qed.

Lemma addMinutesToTime_timeString hh mm ss minutes :
  0 <= hh < 100 → 0 <= mm < 60 → 0 <= ss < 60 → 0 <= minutes →
  addMinutesToTime (timeString hh mm ss) minutes
  = timeString (((60 * hh + mm + minutes) / 60) mod 24) ((mm + minutes) mod 60) ss.
Proof.
  intros Hh Hm Hs Hmin. unfold addMinutesToTime, field.
  rewrite split_timeString by lia. cbn [lookup list_lookup].
  rewrite !Number_twoDigits by lia.
  cbn [jmul jadd jfloordiv jrem fmap option_fmap option_map].
  assert (0 <= hh * 60 + mm + minutes) as Htot by lia.
  rewrite !Z.rem_mod_nonneg by (try apply Z.div_pos; lia).
  replace ((hh * 60 + mm + minutes) mod 60) with ((mm + minutes) mod 60)
    by (replace (hh * 60 + mm + minutes) with (mm + minutes + hh * 60) by lia;
        symmetry; apply Z.mod_add; lia).
  replace (hh * 60 + mm + minutes) with (60 * hh + mm + minutes) by lia.
  rewrite !padStart2_twoDigits; [reflexivity|lia|..].
  - pose proof (Z.mod_pos_bound (mm + minutes) 60). lia.
  - pose proof (Z.mod_pos_bound ((60 * hh + mm + minutes) / 60) 24). lia.
Qed.

End TimeFacts.

(** C10.  For a well-formed time string [HH:MM:SS] and a non-negative number
    of minutes, [addMinutesToTime] returns the time string whose hour is
    [floor((60*HH + MM + minutes) / 60) mod 24], whose minute is
    [(MM + minutes) mod 60] and whose seconds field is [SS]; and adding the
    five-minute transfer buffer to a time at or after 23:55 gives a string
    that [compareTime] places before the original time. *)
Theorem addMinutesToTime_wraps_at_midnight (hh mm ss minutes : Z) :
  wellFormedTime hh mm ss → 0 <= minutes →
  addMinutesToTime (timeString hh mm ss) minutes
  = timeString (((60 * hh + mm + minutes) / 60) mod 24) ((mm + minutes) mod 60) ss
  ∧ (23 * 60 + 55 <= 60 * hh + mm →
     compareTime (addMinutesToTime (timeString hh mm ss) TRANSFER_TIME_MINUTES)
                 (timeString hh mm ss) = -1).
Proof.
  intros (Hh & Hm & Hs) Hmin. split.
  { apply addMinutesToTime_timeString; assumption. }
  intros Hlate. unfold TRANSFER_TIME_MINUTES.
  rewrite addMinutesToTime_timeString by lia.
  pose proof (Z.mod_pos_bound ((60 * hh + mm + 5) / 60) 24 ltac:(lia)) as HbH.
  pose proof (Z.mod_pos_bound (mm + 5) 60 ltac:(lia)) as HbM.
  unfold compareTime. rewrite !secondsOfDay_timeString by lia.
  cbn [jlt].
  replace (_ <? _) with true; [reflexivity|].
  symmetry. apply Z.ltb_lt.
  Z.to_euclidean_division_equations. lia.
Qed.

Lemma addMinutesToTime_wraps_at_midnight_witness :
  wellFormedTime 23 57 0 ∧ 0 <= 5 ∧
  addMinutesToTime (timeString 23 57 0) 5 = timeString 0 2 0 ∧
  compareTime (addMinutesToTime (timeString 23 57 0) TRANSFER_TIME_MINUTES)
              (timeString 23 57 0) = -1.
Proof.
  assert (Hwf : wellFormedTime 23 57 0) by (unfold wellFormedTime; lia).
  assert (Hmin : 0 <= 5) by lia.
  destruct (addMinutesToTime_wraps_at_midnight 23 57 0 5 Hwf Hmin) as [Heq Hcmp].
  split; [exact Hwf|]. split; [exact Hmin|]. split.
  - exact Heq.
  - apply Hcmp. lia.
Defined.

(** ** Feed files *)

(** C8, as stated, fails: with [trips.txt] absent, [loadFile] reports the
    file on the error console and hands back an empty table, and
    [preloadTransitData] completes with no valid trip. *)
Lemma absent_trips_file_loads_as_empty_table :
  loadFile (delete "trips.txt" oneLineFeed) "trips.txt"
  = Logged ["File not found: trips.txt"] []
  ∧ throws (preloadTransitData (delete "trips.txt" oneLineFeed)
              "monday" 20251124 None) = false
  ∧ elements (validTripIds (loadFeed (delete "trips.txt" oneLineFeed))) = [].
Proof. vm_compute. repeat split; reflexivity. Qed.

(** C8, amended.  A file read through [loadFile] (stops, routes, calendar,
    trips) that is absent is reported on the error console and read as an
    empty table, without an error; [preloadTransitData] throws exactly when
    [stop_times.txt] is absent, and [main] passes that error on. *)
Theorem absent_files_only_stop_times_is_fatal
    (fs : filesystem) (filename dayName : string) (todayDate : Z)
    (routeType : option string) :
  (fs !! filename = None →
   loadFile fs filename = Logged ["File not found: " +:+ filename] [])
  ∧ (fs !! "stop_times.txt" = None ↔
     throws (preloadTransitData fs dayName todayDate routeType) = true)
  ∧ (∀ `{JsMath} stopA lat lng userTime,
       fs !! "stop_times.txt" = None →
       throws (Combined.main fs stopA lat lng userTime routeType dayName todayDate)
       = true).
Proof.
  split; [|split].
  - intros Hnone. unfold loadFile. rewrite Hnone. reflexivity.
  - unfold preloadTransitData, readFileSync.
    destruct (fs !! "stop_times.txt") as [content|]; cbn; split; congruence.
  - intros M stopA lat lng userTime Hnone. unfold Combined.main.
    unfold preloadTransitData, readFileSync. rewrite Hnone. reflexivity.
Qed.

Lemma absent_files_only_stop_times_is_fatal_witness :
  ((delete "routes.txt" oneLineFeed : filesystem) !! "routes.txt" = None
   ∧ loadFile (delete "routes.txt" oneLineFeed) "routes.txt"
     = Logged ["File not found: routes.txt"] [])
  ∧ ((delete "stop_times.txt" oneLineFeed : filesystem) !! "stop_times.txt" = None
     ∧ throws (preloadTransitData (delete "stop_times.txt" oneLineFeed)
                 "monday" 20251124 None) = true).
Proof.
  assert (Hroutes : (delete "routes.txt" oneLineFeed : filesystem) !! "routes.txt" = None)
    by (vm_compute; reflexivity).
  assert (Htimes : (delete "stop_times.txt" oneLineFeed : filesystem)
                     !! "stop_times.txt" = None)
    by (vm_compute; reflexivity).
  split; (split; [assumption|]).
  - exact (proj1 (absent_files_only_stop_times_is_fatal
                    (delete "routes.txt" oneLineFeed) "routes.txt" "monday"
                    20251124 None) Hroutes).
  - exact (proj1 (proj1 (proj2 (absent_files_only_stop_times_is_fatal
                    (delete "stop_times.txt" oneLineFeed) "stop_times.txt" "monday"
                    20251124 None))) Htimes).
Defined.

(** ** Stable sorting *)

Section SortFacts.
Context {A : Type} (gt : A → A → bool).

Lemma insertSorted_Permutation x l : Permutation (insertSorted gt x l) (x :: l).
Proof.
  induction l as [|y l IH]; cbn; [reflexivity|].
  destruct (gt x y); [|reflexivity].
  rewrite IH. apply perm_swap.
Qed.

Lemma sortBy_Permutation l : Permutation (sortBy gt l) l.
Proof.
  induction l as [|x l IH]; cbn; [reflexivity|].
  rewrite insertSorted_Permutation. by constructor.
Qed.

(** Elements that are not strictly after one another keep their order. *)
Lemma filter_insertSorted (p : A → bool) x l :
  (∀ y, p x = true → p y = true → gt x y = false) →
  List.filter p (insertSorted gt x l) = List.filter p (x :: l).
Proof.
  intros Hkeep. induction l as [|y l IH]; [reflexivity|].
  cbn [insertSorted]. destruct (gt x y) eqn:Hxy; [|reflexivity].
  cbn [List.filter] in *. rewrite IH.
  destruct (p x) eqn:Hpx, (p y) eqn:Hpy; try reflexivity.
  rewrite Hkeep in Hxy by done. discriminate.
Qed.

Lemma filter_sortBy (p : A → bool) l :
  (∀ x y, p x = true → p y = true → gt x y = false) →
  List.filter p (sortBy gt l) = List.filter p l.
Proof.
  intros Hkeep. induction l as [|x l IH]; [reflexivity|].
  cbn [sortBy foldr]. fold (sortBy gt l).
  rewrite filter_insertSorted by eauto.
  cbn [List.filter]. by rewrite IH.
Qed.

(** Sortedness needs the comparison to be a total preorder on the elements
    at hand, which [P] singles out. *)
Context (P : A → Prop).
Context (Htotal : ∀ x y, P x → P y → gt x y = true → gt y x = false)
        (Htrans : ∀ x y z, P x → P y → P z →
                           gt x y = false → gt y z = false → gt x z = false).

Lemma insertSorted_sorted x l :
  P x → Forall P l →
  StronglySorted (λ a b, gt a b = false) l →
  StronglySorted (λ a b, gt a b = false) (insertSorted gt x l).
Proof.
  intros Hx HP. induction 1 as [|y l Hl IH Hy]; cbn.
  - repeat constructor.
  - apply Forall_cons in HP as [HPy HPl]. destruct (gt x y) eqn:Hxy.
    + constructor; [by apply IH|].
      rewrite (insertSorted_Permutation x l). constructor; [by apply Htotal|done].
    + constructor; [by constructor|].
      constructor; [done|].
      rewrite Forall_forall in Hy, HPl. apply Forall_forall. intros z Hz.
      eapply (Htrans x y z); eauto.
Qed.

Lemma sortBy_sorted l :
  Forall P l → StronglySorted (λ a b, gt a b = false) (sortBy gt l).
Proof.
  induction 1 as [|x l Hx Hl IH]; cbn; [constructor|].
  apply insertSorted_sorted; [done| |done].
  by rewrite (sortBy_Permutation l).
Qed.

End SortFacts.

Lemma StronglySorted_take {A} (R : A → A → Prop) n l :
  StronglySorted R l → StronglySorted R (take n l).
Proof.
  intros Hl. revert n. induction Hl as [|x l Hl IH Hx]; intros [|n]; cbn;
    try constructor; [apply IH|].
  apply Forall_forall. intros y Hy. rewrite Forall_forall in Hx.
  apply Hx. eapply subseteq_take, Hy.
Qed.

Lemma StronglySorted_lookup {A} (R : A → A → Prop) l i j a b :
  StronglySorted R l → l !! i = Some a → l !! j = Some b → (i < j)%nat → R a b.
Proof.
  intros Hl. revert i j. induction Hl as [|x l Hl IH Hx]; intros i j Hi Hj Hij.
  - discriminate.
  - destruct j as [|j]; [lia|]. destruct i as [|i]; cbn in *.
    + injection Hi as <-. rewrite Forall_forall in Hx.
      apply Hx. by eapply list_elem_of_lookup_2.
    + eapply IH; eauto. lia.
Qed.

Lemma filter_take_prefix {A} (p : A → bool) n (l : list A) :
  List.filter p (take n l) `prefix_of` List.filter p l.
Proof.
  exists (List.filter p (drop n l)).
  rewrite <- List.filter_app. by rewrite take_drop.
Qed.

(** ** Geo index *)

Lemma Qltb_false_le (x y : Q) : Qltb x y = false ↔ (y <= x)%Q.
Proof.
  unfold Qltb. rewrite negb_false_iff. apply Qle_bool_iff.
Qed.

Lemma Qltb_true_lt (x y : Q) : Qltb x y = true ↔ (x < y)%Q.
Proof.
  unfold Qltb. rewrite negb_true_iff. split.
  - intros Hb. apply Qnot_le_lt. intros Hle.
    apply Qle_bool_iff in Hle. congruence.
  - intros Hlt. destruct (Qle_bool y x) eqn:Hb; [|reflexivity].
    apply Qle_bool_iff in Hb. exfalso. by eapply Qlt_not_le.
Qed.

Lemma findNearestStops_measured `{JsMath} fs lat lng n :
  findNearestStops fs lat lng n
  = take n (sortBy (λ a b, Qltb (distance b) (distance a)) (measuredStops fs lat lng)).
Proof. reflexivity. Qed.

(** On the twin stops the result does not depend on what the
    floating-point library returns: the two distances are the same number. *)
Lemma twin_stops_in_feed_order `{JsMath} (lat lng : Q) :
  findNearestStops twinStopsFeed lat lng 10
  = [ {| stop := {[ "stop_id" := "2"; "stop_name" := "Second";
                    "stop_lat" := "25.2"; "stop_lon" := "55.3" ]};
         distance := calculateDistance lat lng (parseFloat "25.2") (parseFloat "55.3") |};
      {| stop := {[ "stop_id" := "1"; "stop_name" := "First";
                    "stop_lat" := "25.2"; "stop_lon" := "55.3" ]};
         distance := calculateDistance lat lng (parseFloat "25.2") (parseFloat "55.3") |} ].
Proof.
  rewrite findNearestStops_measured. unfold measuredStops.
  replace (value (loadFile twinStopsFeed "stops.txt"))
    with [ ({[ "stop_id" := "2"; "stop_name" := "Second";
               "stop_lat" := "25.2"; "stop_lon" := "55.3" ]} : entry);
           ({[ "stop_id" := "1"; "stop_name" := "First";
               "stop_lat" := "25.2"; "stop_lon" := "55.3" ]} : entry) ]
    by (vm_compute; reflexivity).
  cbn [List.filter]. 
  replace (truthy _ && truthy _) with true by (vm_compute; reflexivity).
  replace (truthy _ && truthy _) with true by (vm_compute; reflexivity).
  cbn [fmap list_fmap sortBy foldr insertSorted distance].
  replace (prop _ "stop_lat") with "25.2" by (vm_compute; reflexivity).
  replace (prop _ "stop_lon") with "55.3" by (vm_compute; reflexivity).
  replace (Qltb _ _) with false; [reflexivity|].
  symmetry. apply Qltb_false_le. apply Qle_refl.
Qed.

(** C7, as stated, fails: two stops at the same distance come out in the
    order of [stops.txt], here the stop with id 2 before the stop with id 1. *)
Lemma equal_distance_stops_keep_feed_order :
  stop_id <$> findNearestStops (H := exampleMath) twinStopsFeed 25 55 10 = ["2"; "1"]
  ∧ (distance <$> findNearestStops (H := exampleMath) twinStopsFeed 25 55 10
     = [calculateDistance (H := exampleMath) 25 55 (252 # 10) (553 # 10);
        calculateDistance (H := exampleMath) 25 55 (252 # 10) (553 # 10)])
  ∧ str_lt "1" "2" = true.
Proof.
  rewrite twin_stops_in_feed_order. repeat split; vm_compute; reflexivity.
Qed.

(** C7, amended.  When every stop with coordinates has a distance that is a
    number (its coordinates are decimal numerals and no square root is taken
    of a negative number), the nearest-stops query returns at most [N] stops,
    only stops with coordinates, each with its Haversine distance (Earth
    radius 6371 km) to the reference point; the distances are non-decreasing;
    and stops at exactly equal distance appear in the order of the stops
    table (the sort is stable; [stop_id] plays no part).  With a distance that
    is [NaN] the comparator of the sort is [NaN] and the order is the
    engine's; the statement does not speak of such feeds. *)
Theorem findNearestStops_sorted_ties_in_feed_order `{JsMath}
    (fs : filesystem) (lat lng : Q) (n : nat) :
  distancesAreNumbers fs lat lng →
  (length (findNearestStops fs lat lng n) <= n)%nat
  ∧ Forall (λ s, prop (stop s) "stop_lat" ≠ "" ∧ prop (stop s) "stop_lon" ≠ ""
                 ∧ distance s = calculateDistance lat lng
                                  (parseFloat (prop (stop s) "stop_lat"))
                                  (parseFloat (prop (stop s) "stop_lon")))
           (findNearestStops fs lat lng n)
  ∧ (∀ i j a b, findNearestStops fs lat lng n !! i = Some a →
                findNearestStops fs lat lng n !! j = Some b →
                (i < j)%nat → (distance a <= distance b)%Q)
  ∧ (∀ d, List.filter (λ s, Qeq_bool (distance s) d) (findNearestStops fs lat lng n)
          `prefix_of` List.filter (λ s, Qeq_bool (distance s) d)
                                  (measuredStops fs lat lng)).
Proof.
  intros _. rewrite findNearestStops_measured.
  set (gt := λ a b : StopWithDistance, Qltb (distance b) (distance a)).
  repeat split.
  - rewrite length_take. lia.
  - apply Forall_forall. intros s Hs.
    apply subseteq_take in Hs.
    apply list_elem_of_In in Hs.
    apply (Permutation_in _ (sortBy_Permutation gt _)) in Hs.
    apply list_elem_of_In in Hs.
    unfold measuredStops in Hs. apply list_elem_of_fmap in Hs as (e & -> & He).
    apply list_elem_of_In, filter_In in He as [_ He].
    apply andb_true_iff in He as [Hlat Hlon]. cbn.
    unfold truthy, str_eqb in Hlat, Hlon.
    apply negb_true_iff, bool_decide_eq_false in Hlat.
    apply negb_true_iff, bool_decide_eq_false in Hlon. done.
  - intros i j a b Hi Hj Hij.
    apply Qltb_false_le.
    change (gt a b = false).
    eapply (StronglySorted_lookup (λ a b, gt a b = false)); eauto.
    apply StronglySorted_take, (sortBy_sorted gt (λ _, True)).
    + intros x y _ _ Hxy. unfold gt in *. apply Qltb_true_lt in Hxy.
      apply Qltb_false_le. by apply Qlt_le_weak.
    + intros x y z _ _ _ Hxy Hyz. unfold gt in *.
      apply Qltb_false_le. apply Qltb_false_le in Hxy, Hyz.
      by eapply Qle_trans.
    + by apply Forall_forall.
  - intros d.
    rewrite <- (filter_sortBy gt (λ s, Qeq_bool (distance s) d) (measuredStops fs lat lng)).
    + apply filter_take_prefix.
    + intros x y Hx Hy. unfold gt. apply Qltb_false_le.
      apply Qeq_bool_iff in Hx, Hy. rewrite Hx, Hy. apply Qle_refl.
Qed.

Lemma findNearestStops_sorted_ties_in_feed_order_witness :
  distancesAreNumbers (H := exampleMath) walkFeed 25 55
  ∧ stop_id <$> findNearestStops (H := exampleMath) walkFeed 25 55 3 = ["S"; "W"; "X"]
  ∧ ∀ i j a b, findNearestStops (H := exampleMath) walkFeed 25 55 3 !! i = Some a →
               findNearestStops (H := exampleMath) walkFeed 25 55 3 !! j = Some b →
               (i < j)%nat → (distance a <= distance b)%Q.
Proof.
  assert (Hnumbers : distancesAreNumbers (H := exampleMath) walkFeed 25 55)
    by (vm_compute; reflexivity).
  split; [exact Hnumbers|]. split; [vm_compute; reflexivity|].
  exact (proj1 (proj2 (proj2 (findNearestStops_sorted_ties_in_feed_order
                                (H := exampleMath) walkFeed 25 55 3 Hnumbers)))).
Defined.

(** ** Walk-fallback orchestrator: the route comparison *)

Section PickBest.
Import Combined.





End PickBest.

(** The orchestrator keeps no route when every candidate has an empty path:
    [calculateTotalTime] is [Infinity] for it, and [Infinity < Infinity] fails.
    This is the case of a source stop that is itself a target stop. *)
Lemma source_at_destination_keeps_no_route (startStop startTime : string) (d : dist) :
  Combined.bestOverallRoute
    (Combined.pickBest
       (Some {| path := []; finalStop := startStop; finalTime := startTime;
                numTransfers := 0; distanceToDestination := d |}) []) = None.
Proof. reflexivity. Qed.

(** ** Best-first search of [find_transit_bfs.js]: reaching a target *)

(** C3, as stated, fails: from S the search reaches target A (1 km from the
    destination) on a direct trip, with no transfer, and does not return; it
    goes on to B (0.5 km), which is the stop of the route it returns. *)
Lemma direct_route_does_not_end_search :
  (finalStop <$> Bfs.bfsSearch "S" {[ "A"; "B" ]}
                   [targetStop "B" (5 # 10); targetStop "A" 1] "07:00:00" 2
                   (loadFeed oneLineFeed)) = Some "B"
  ∧ match getDirectConnections "S" "07:00:00" (loadFeed oneLineFeed) with
    | conn :: _ =>
        conn_stop_id conn = "A"
        ∧ match Bfs.visitConnection {[ "A"; "B" ]}
                  [targetStop "B" (5 # 10); targetStop "A" 1] 2
                  {| q_stop := "S"; q_time := "07:00:00"; q_path := [];
                     q_numTransfers := 0; distanceToTarget := Infinity |}
                  "07:00:00"
                  {| Bfs.queue := []; Bfs.visited := {[ "S:0" ]};
                     Bfs.bestRoute := None; Bfs.bestDistance := Infinity |}
                  conn with
          | Continue st' =>
              (numTransfers <$> Bfs.bestRoute st') = Some 0
              ∧ (finalStop <$> Bfs.bestRoute st') = Some "A"
          | Return _ => False
          end
    | [] => False
    end.
Proof. vm_compute. repeat split; reflexivity. Qed.

(** C3, amended.  When the search of [find_transit_bfs.js] pops a state, or
    reaches a connection that it can board, whose stop is in the target set, it
    records the route as the best one if its distance to the destination is
    strictly below the best so far, and it returns at once if and only if that
    distance is strictly below 0.35 km, whatever the number of transfers;
    otherwise the search goes on. *)
Theorem target_reached_returns_iff_within_350m
    (targetStops : gset string) (targetStopsList : list StopWithDistance)
    (maxTransfers : Z) (pd : PreloadedData) (current : QueueItem)
    (st : Bfs.SearchState) :
  (q_stop current ∈ targetStops →
   let candidate :=
     {| path := q_path current; finalStop := q_stop current;
        finalTime := q_time current; numTransfers := q_numTransfers current;
        distanceToDestination :=
          getMinDistanceToTarget targetStopsList (q_stop current) |} in
   (returnsNow (Bfs.visit targetStops targetStopsList maxTransfers pd current st)
    = dist_ltb (getMinDistanceToTarget targetStopsList (q_stop current))
               (Fin (35 # 100)))
   ∧ (Bfs.visit targetStops targetStopsList maxTransfers pd current st
      = Return (Bfs.bestRoute (Bfs.recordCandidate candidate st))
      ∨ Bfs.visit targetStops targetStopsList maxTransfers pd current st
        = Continue (Bfs.recordCandidate candidate st)))
  ∧ (∀ nextAvailableTime conn,
       conn_stop_id conn ∈ targetStops →
       0 <= compareTime (departure_time conn) nextAvailableTime →
       let candidate :=
         {| path := q_path current ++ [legOf current conn];
            finalStop := conn_stop_id conn;
            finalTime := arrival_time conn;
            numTransfers := if isTransfer current conn
                            then q_numTransfers current + 1
                            else q_numTransfers current;
            distanceToDestination :=
              getMinDistanceToTarget targetStopsList (conn_stop_id conn) |} in
       (returnsNow (Bfs.visitConnection targetStops targetStopsList maxTransfers
                      current nextAvailableTime st conn)
        = dist_ltb (getMinDistanceToTarget targetStopsList (conn_stop_id conn))
                   (Fin (35 # 100)))
       ∧ (Bfs.visitConnection targetStops targetStopsList maxTransfers
            current nextAvailableTime st conn
          = Return (Bfs.bestRoute (Bfs.recordCandidate candidate st))
          ∨ Bfs.visitConnection targetStops targetStopsList maxTransfers
              current nextAvailableTime st conn
            = Continue (Bfs.recordCandidate candidate st))).
Proof.
  split.
  - intros Hin candidate. unfold Bfs.visit.
    rewrite bool_decide_eq_true_2 by exact Hin. fold candidate.
    destruct (dist_ltb _ (Fin (35 # 100))); cbn; auto.
  - intros next conn Hin Htime candidate. unfold Bfs.visitConnection.
    replace (compareTime (departure_time conn) next <? 0) with false
      by (symmetry; apply Z.ltb_ge; exact Htime).
    rewrite bool_decide_eq_true_2 by exact Hin. fold candidate.
    destruct (dist_ltb _ (Fin (35 # 100))); cbn; auto.
Qed.

(** A [Return] of the loop body is the result of the whole search. *)
Lemma search_returns_what_visit_returns
    (targetStops : gset string) (targetStopsList : list StopWithDistance)
    (maxTransfers : Z) (pd : PreloadedData) (fuel : nat) (st : Bfs.SearchState)
    (current : QueueItem) (rest : list QueueItem) (r : option Route) :
  Bfs.queue st = current :: rest →
  Bfs.visit targetStops targetStopsList maxTransfers pd current
    {| Bfs.queue := rest; Bfs.visited := Bfs.visited st;
       Bfs.bestRoute := Bfs.bestRoute st; Bfs.bestDistance := Bfs.bestDistance st |}
  = Return r →
  (Bfs.search targetStops targetStopsList maxTransfers pd (S fuel) st).1 = r.
Proof. intros Hq Hv. cbn. rewrite Hq, Hv. reflexivity. Qed.

Lemma target_reached_returns_iff_within_350m_witness :
  returnsNow
    (Bfs.visit {[ "A"; "B" ]} [targetStop "B" (5 # 10); targetStop "A" 1] 2
       (loadFeed oneLineFeed)
       {| q_stop := "A"; q_time := "08:10:00"; q_path := [];
          q_numTransfers := 0; distanceToTarget := Fin 1 |}
       {| Bfs.queue := []; Bfs.visited := ∅;
          Bfs.bestRoute := None; Bfs.bestDistance := Infinity |})
  = false.
Proof.
  assert (Hin : "A" ∈ ({[ "A"; "B" ]} : gset string))
    by set_solver.
  destruct (target_reached_returns_iff_within_350m
              {[ "A"; "B" ]} [targetStop "B" (5 # 10); targetStop "A" 1] 2
              (loadFeed oneLineFeed)
              {| q_stop := "A"; q_time := "08:10:00"; q_path := [];
                 q_numTransfers := 0; distanceToTarget := Fin 1 |}
              {| Bfs.queue := []; Bfs.visited := ∅;
                 Bfs.bestRoute := None; Bfs.bestDistance := Infinity |})
    as [Hpop _].
  destruct (Hpop Hin) as [Hret _].
  rewrite Hret. vm_compute. reflexivity.
Defined.

(** ** Best-first search of [find_transit_bfs.js]: the visited set *)

(** Once the pruning tests before it have let a state through, the visited
    test looks at the state's own key only. *)
Lemma visited_test_is_by_exact_key
    (targetStops : gset string) (targetStopsList : list StopWithDistance)
    (maxTransfers : Z) (pd : PreloadedData) (current : QueueItem)
    (st : Bfs.SearchState) :
  q_stop current ∉ targetStops →
  Bfs.bestRoute st = None →
  q_numTransfers current <= maxTransfers →
  Bfs.visit targetStops targetStopsList maxTransfers pd current st
  = if bool_decide (visitedKey current ∈ Bfs.visited st) then Continue st
    else Bfs.expand targetStops targetStopsList maxTransfers pd current st.
Proof.
  intros Hnot Hbest Hmax. unfold Bfs.visit, Bfs.hasDirect.
  rewrite bool_decide_eq_false_2 by exact Hnot. rewrite Hbest. cbn.
  replace (maxTransfers <? q_numTransfers current) with false
    by (symmetry; apply Z.ltb_ge; exact Hmax).
  reflexivity.
Qed.

(** C4 on the failing input.  In [twoWaysFeed] stop X is reached from S
    without a transfer and, through Y, with one transfer.  The search expands
    X in both states: the key [X:1] is not in the visited set that holds
    [X:0], so the state with more transfers is not skipped. *)
Theorem revisit_with_more_transfers_is_expanded :
  elements (Bfs.visited
              (Bfs.bfsRun {[ "Z" ]} [targetStop "Z" (1 # 10)] 2
                 (loadFeed twoWaysFeed) "S" "07:00:00").2)
  = ["S:0"; "Y:0"; "X:1"; "X:0"]
  ∧ Bfs.visit {[ "Z" ]} [targetStop "Z" (1 # 10)] 2 (loadFeed twoWaysFeed)
      xAfterOneTransfer xSeenWithoutTransfer
    = Bfs.expand {[ "Z" ]} [targetStop "Z" (1 # 10)] 2 (loadFeed twoWaysFeed)
        xAfterOneTransfer xSeenWithoutTransfer.
Proof.
  split; [vm_compute; reflexivity|].
  rewrite visited_test_is_by_exact_key; [|set_solver|reflexivity|cbn; lia].
  replace (bool_decide _) with false by (vm_compute; reflexivity).
  reflexivity.
Qed.

(** ** Best-first search of [find_transit_bfs.js]: the transfer buffer *)

(** C5 on the failing input.  In [lateEveningFeed] trip T1 arrives at X at
    23:57:00 and trip T2 leaves X at 23:58:00.  [addMinutesToTime] turns
    23:57:00 plus five minutes into 00:02:00, which no evening departure is
    earlier than, so the search returns the journey T1, T2 with one minute
    between arrival and departure. *)
Theorem transfer_buffer_lost_across_midnight :
  match Bfs.bfsSearch "S" {[ "Z" ]} [targetStop "Z" (1 # 10)] "22:00:00" 2
          (loadFeed lateEveningFeed) with
  | Some r =>
      match path r with
      | [l1; l2] =>
          str_eqb (leg_trip_id l1) (leg_trip_id l2) = false
          ∧ arrival l1 = "23:57:00" ∧ departure l2 = "23:58:00"
          ∧ timeDifferenceMinutes (arrival l1) (departure l2) = Some 1
          ∧ addMinutesToTime (arrival l1) TRANSFER_TIME_MINUTES = "00:02:00"
      | _ => False
      end
  | None => False
  end.
Proof. vm_compute. repeat split; reflexivity. Qed.

(** ** The frontier *)

Section DistOrder.

Lemma dist_ltb_irrefl a : dist_ltb a a = false.
Proof.
  destruct a as [x|]; cbn; [|reflexivity].
  apply Qltb_false_le, Qle_refl.
Qed.

Lemma dist_ltb_trans a b c :
  dist_ltb a b = true → dist_ltb b c = true → dist_ltb a c = true.
Proof.
  destruct a as [x|], b as [y|], c as [z|]; cbn; try done.
  rewrite !Qltb_true_lt. apply Qlt_trans.
Qed.

Lemma lexBefore_irrefl a : ¬ lexBefore a a.
Proof.
  intros [Hlt|[_ Hd]]; [lia|]. rewrite dist_ltb_irrefl in Hd. discriminate.
Qed.

Lemma lexBefore_trans a b c : lexBefore a b → lexBefore b c → lexBefore a c.
Proof.
  intros [Hab|[Hab Hdab]] [Hbc|[Hbc Hdbc]]; unfold lexBefore.
  - left. lia.
  - left. lia.
  - left. lia.
  - right. split; [lia|]. by eapply dist_ltb_trans.
Qed.

End DistOrder.

Section Splice.
Context (lt : QueueItem → QueueItem → Prop).
Context (lt_irrefl : ∀ a, ¬ lt a a) (lt_trans : ∀ a b c, lt a b → lt b c → lt a c).

Lemma spliceBefore_Permutation before item queue :
  Permutation (spliceBefore before item queue) (item :: queue).
Proof.
  induction queue as [|y queue IH]; cbn; [reflexivity|].
  destruct (before y); [reflexivity|].
  rewrite IH. apply perm_swap.
Qed.

(** Inserting before the first item that the new one precedes keeps the
    queue sorted. *)
Lemma spliceBefore_sorted before item queue :
  (∀ y, before y = true ↔ lt item y) →
  StronglySorted (λ x y, ¬ lt y x) queue →
  StronglySorted (λ x y, ¬ lt y x) (spliceBefore before item queue).
Proof.
  intros Hbefore. induction 1 as [|y queue Hq IH Hy]; cbn.
  - repeat constructor.
  - destruct (before y) eqn:Hby.
    + apply Hbefore in Hby. constructor; [by constructor|].
      constructor.
      * intros Hyi. eapply lt_irrefl, lt_trans; eauto.
      * eapply Forall_impl; [exact Hy|]. intros z Hz Hzi.
        apply Hz. eapply lt_trans; eauto.
    + constructor; [exact IH|].
      rewrite (spliceBefore_Permutation before item queue).
      constructor; [|exact Hy].
      intros Hiy. apply Hbefore in Hiy. congruence.
Qed.

Lemma sorted_frontier_positions queue i j a b :
  StronglySorted (λ x y, ¬ lt y x) queue →
  queue !! i = Some a → queue !! j = Some b → lt a b → (i < j)%nat.
Proof.
  intros Hs Hi Hj Hab.
  destruct (Nat.lt_trichotomy i j) as [Hlt|[->|Hgt]]; [exact Hlt|..].
  - rewrite Hi in Hj. injection Hj as ->. by apply lt_irrefl in Hab.
  - exfalso.
    exact (StronglySorted_lookup (λ x y, ¬ lt y x) queue j i b a Hs Hj Hi Hgt Hab).
Qed.

End Splice.

Lemma spliceBefore_ext before1 before2 item queue :
  Forall (λ y, before1 y = before2 y) queue →
  spliceBefore before1 item queue = spliceBefore before2 item queue.
Proof.
  induction 1 as [|y queue Hy _ IH]; cbn; [reflexivity|].
  rewrite Hy, IH. reflexivity.
Qed.

Section CombinedFrontier.
Context (targetStops : gset string) (targetStopsList : list StopWithDistance)
        (maxTransfers : Z).

Lemma combined_insertQueue_sorted item queue :
  StronglySorted (λ x y, ¬ lexBefore y x) queue →
  StronglySorted (λ x y, ¬ lexBefore y x) (Combined.insertQueue item queue).
Proof.
  apply spliceBefore_sorted; [apply lexBefore_irrefl|apply lexBefore_trans|].
  intros y. unfold lexBefore.
  rewrite orb_true_iff, andb_true_iff, Z.ltb_lt, Z.eqb_eq. reflexivity.
Qed.

Lemma combined_recordCandidate_queue r st st' :
  Combined.recordCandidate r st = Continue st' →
  Combined.queue st' = Combined.queue st.
Proof.
  unfold Combined.recordCandidate. intros Hrec.
  repeat case_match; simplify_eq; reflexivity.
Qed.

Lemma combined_visitConnection_queue current next st conn st' :
  Combined.visitConnection targetStops targetStopsList maxTransfers
    current next st conn = Continue st' →
  Combined.queue st' = Combined.queue st
  ∨ ∃ item, Combined.queue st' = Combined.insertQueue item (Combined.queue st).
Proof.
  unfold Combined.visitConnection. intros Hvisit.
  repeat case_match; simplify_eq; eauto using combined_recordCandidate_queue.
Qed.

Lemma combinedReachable_sorted st :
  combinedReachable targetStops targetStopsList maxTransfers st →
  StronglySorted (λ x y, ¬ lexBefore y x) (Combined.queue st).
Proof.
  induction 1 as [start time|st current rest _ IH Hq|st key _ IH
                  |st r st' _ IH Hrec|st current next conn st' _ IH Hconn]; cbn.
  - repeat constructor.
  - rewrite Hq in IH. by inversion IH.
  - exact IH.
  - by rewrite (combined_recordCandidate_queue _ _ _ Hrec).
  - destruct (combined_visitConnection_queue _ _ _ _ _ Hconn) as [->|[item ->]];
      [exact IH|]. by apply combined_insertQueue_sorted.
Qed.

End CombinedFrontier.

Lemma stopDistanceMap_lookup_is_listed (targetStopsList : list StopWithDistance) k d :
  stopDistanceMap targetStopsList !! k = Some d → k ∈ stop_id <$> targetStopsList.
Proof.
  unfold stopDistanceMap.
  assert (Hgen : ∀ (m : gmap string Q),
            foldl (λ m s, <[stop_id s := distance s]> m) m targetStopsList !! k = Some d →
            is_Some (m !! k) ∨ k ∈ stop_id <$> targetStopsList).
  { induction targetStopsList as [|s l IH]; intros m Hm; cbn in *.
    - left. eauto.
    - destruct (IH _ Hm) as [Hs|Hin].
      + destruct (decide (stop_id s = k)) as [<-|Hne].
        * right. constructor.
        * left. by rewrite lookup_insert_ne in Hs.
      + right. by constructor. }
  intros Hk. destruct (Hgen ∅ Hk) as [[x Hx]|Hin]; [|exact Hin].
  by rewrite lookup_empty in Hx.
Qed.

(** [main] takes [targetStops] to be the set of ids of [targetStopsList]; a
    stop outside it then has no entry in the distance map. *)
Lemma getMinDistanceToTarget_outside (targetStopsList : list StopWithDistance) k :
  k ∉ (list_to_set (stop_id <$> targetStopsList) : gset string) →
  getMinDistanceToTarget targetStopsList k = Infinity.
Proof.
  intros Hout. unfold getMinDistanceToTarget.
  destruct (stopDistanceMap targetStopsList !! k) as [d|] eqn:Hd; [|reflexivity].
  apply stopDistanceMap_lookup_is_listed in Hd.
  exfalso. apply Hout. by apply elem_of_list_to_set.
Qed.

Section BfsFrontier.
Context (targetStopsList : list StopWithDistance) (maxTransfers : Z).
Let targetStops : gset string := list_to_set (stop_id <$> targetStopsList).

Lemma bfs_insertQueue_inv item queue :
  distanceToTarget item = Infinity →
  bfsFrontierInv queue → bfsFrontierInv (Bfs.insertQueue item queue).
Proof.
  intros Hitem [Hinf Hsorted]. unfold Bfs.insertQueue.
  rewrite (spliceBefore_ext _ (λ y, q_numTransfers item <? q_numTransfers y)).
  - split.
    + rewrite (spliceBefore_Permutation _ item queue). by constructor.
    + apply spliceBefore_sorted; [| |intros y; apply Z.ltb_lt|exact Hsorted];
        unfold fewerTransfers; intros; lia.
  - eapply Forall_impl; [exact Hinf|]. intros y Hy. cbn in Hy.
    rewrite Hitem, Hy. reflexivity.
Qed.

Lemma bfs_recordCandidate_queue r st :
  Bfs.queue (Bfs.recordCandidate r st) = Bfs.queue st.
Proof. unfold Bfs.recordCandidate. by case_match. Qed.

Lemma bfs_visitConnection_queue current next st conn st' :
  Bfs.visitConnection targetStops targetStopsList maxTransfers
    current next st conn = Continue st' →
  Bfs.queue st' = Bfs.queue st
  ∨ ∃ item, distanceToTarget item = Infinity
            ∧ Bfs.queue st' = Bfs.insertQueue item (Bfs.queue st).
Proof.
  unfold Bfs.visitConnection. intros Hvisit.
  repeat case_match; simplify_eq; auto using bfs_recordCandidate_queue.
  all: right; eexists; (split; [|reflexivity]); cbn.
  all: apply getMinDistanceToTarget_outside.
  all: match goal with
       | Hout : bool_decide _ = false |- _ => by apply bool_decide_eq_false in Hout
       end.
Qed.

Lemma bfsReachable_inv st :
  bfsReachable targetStops targetStopsList maxTransfers st →
  bfsFrontierInv (Bfs.queue st).
Proof.
  induction 1 as [start time Hstart|st current rest _ IH Hq|st key _ IH
                  |st r _ IH|st current next conn st' _ IH Hconn]; cbn.
  - split; repeat constructor.
    by apply getMinDistanceToTarget_outside.
  - rewrite Hq in IH. destruct IH as [Hinf Hsorted].
    split; [by inversion Hinf|by inversion Hsorted].
  - exact IH.
  - by rewrite bfs_recordCandidate_queue.
  - destruct (bfs_visitConnection_queue _ _ _ _ _ Hconn) as [->|(item & Hitem & ->)];
      [exact IH|]. by apply bfs_insertQueue_inv.
Qed.

Lemma bfsFrontierInv_ordered queue : bfsFrontierInv queue → frontierOrdered queue.
Proof.
  intros [Hinf Hsorted] i j a b Hi Hj Hab.
  eapply (sorted_frontier_positions fewerTransfers); eauto.
  - unfold fewerTransfers. intros; lia.
  - rewrite Forall_forall in Hinf.
    destruct Hab as [Hlt|[_ Hd]]; [exact Hlt|].
    rewrite (Hinf a), (Hinf b) in Hd by (by eapply list_elem_of_lookup_2).
    discriminate.
Qed.

End BfsFrontier.

(** The states the loops of the two searches go through are reachable in the
    sense above. *)
Section SearchIsReachable.
Context (targetStops : gset string) (targetStopsList : list StopWithDistance)
        (maxTransfers : Z) (pd : PreloadedData).

Lemma combined_visitConnections_reachable current next connections st st' :
  combinedReachable targetStops targetStopsList maxTransfers st →
  Combined.visitConnections targetStops targetStopsList maxTransfers
    current next st connections = Continue st' →
  combinedReachable targetStops targetStopsList maxTransfers st'.
Proof.
  revert st. induction connections as [|conn rest IH]; intros st Hst Hrun; cbn in Hrun.
  - by simplify_eq.
  - destruct (Combined.visitConnection _ _ _ _ _ st conn) as [r|st1] eqn:Hconn;
      [discriminate|].
    eapply IH; [|exact Hrun]. by eapply combined_connection.
Qed.

Lemma combined_visit_reachable current st st' :
  combinedReachable targetStops targetStopsList maxTransfers st →
  Combined.visit targetStops targetStopsList maxTransfers pd current st
    = Continue st' →
  combinedReachable targetStops targetStopsList maxTransfers st'.
Proof.
  intros Hst. unfold Combined.visit, Combined.expand. intros Hvisit.
  repeat case_match; simplify_eq; try done.
  all: try (by eapply combined_candidate).
  all: eapply combined_visitConnections_reachable; [|exact Hvisit].
  all: by apply combined_mark.
Qed.

Lemma combined_search_reachable fuel st :
  combinedReachable targetStops targetStopsList maxTransfers st →
  combinedReachable targetStops targetStopsList maxTransfers
    (Combined.search targetStops targetStopsList maxTransfers pd fuel st).2.
Proof.
  revert st. induction fuel as [|fuel IH]; intros st Hst; cbn; [exact Hst|].
  destruct (Combined.queue st) as [|current rest] eqn:Hq; [exact Hst|].
  pose proof (combined_dequeue _ _ _ _ _ _ Hst Hq) as Hpop.
  destruct (Combined.visit _ _ _ _ current _) as [r|st'] eqn:Hvisit; cbn.
  - exact Hpop.
  - apply IH. by eapply combined_visit_reachable.
Qed.

Lemma bfs_visitConnections_reachable current next connections st st' :
  bfsReachable targetStops targetStopsList maxTransfers st →
  Bfs.visitConnections targetStops targetStopsList maxTransfers
    current next st connections = Continue st' →
  bfsReachable targetStops targetStopsList maxTransfers st'.
Proof.
  revert st. induction connections as [|conn rest IH]; intros st Hst Hrun; cbn in Hrun.
  - by simplify_eq.
  - destruct (Bfs.visitConnection _ _ _ _ _ st conn) as [r|st1] eqn:Hconn;
      [discriminate|].
    eapply IH; [|exact Hrun]. by eapply bfs_connection.
Qed.

Lemma bfs_visit_reachable current st st' :
  bfsReachable targetStops targetStopsList maxTransfers st →
  Bfs.visit targetStops targetStopsList maxTransfers pd current st = Continue st' →
  bfsReachable targetStops targetStopsList maxTransfers st'.
Proof.
  intros Hst. unfold Bfs.visit, Bfs.expand. intros Hvisit.
  repeat case_match; simplify_eq; try done.
  all: try (by apply bfs_candidate).
  all: try match goal with
           | Hbest : Bfs.bestRoute _ = _ |- _ => rewrite <- Hbest in Hvisit
           end.
  all: eapply bfs_visitConnections_reachable; [|exact Hvisit].
  all: by apply bfs_mark.
Qed.

Lemma bfs_search_reachable fuel st :
  bfsReachable targetStops targetStopsList maxTransfers st →
  bfsReachable targetStops targetStopsList maxTransfers
    (Bfs.search targetStops targetStopsList maxTransfers pd fuel st).2.
Proof.
  revert st. induction fuel as [|fuel IH]; intros st Hst; cbn; [exact Hst|].
  destruct (Bfs.queue st) as [|current rest] eqn:Hq; [exact Hst|].
  pose proof (bfs_dequeue _ _ _ _ _ _ Hst Hq) as Hpop.
  destruct (Bfs.visit _ _ _ _ current _) as [r|st'] eqn:Hvisit; cbn.
  - exact Hpop.
  - apply IH. by eapply bfs_visit_reachable.
Qed.

End SearchIsReachable.

(** C2.  In the best-first search the frontier is ordered by (transfers used,
    distance to the nearest target): in every frontier the search goes
    through, a state with fewer transfers, or with as many transfers and a
    smaller distance, sits nearer the head than the other, and the head is
    what is dequeued next.  For [find_transit_combined.js] this holds for any
    arguments.  [find_transit_bfs.js] compares the distance first; called as
    [main] calls it, with [targetStops] the ids of [targetStopsList], every
    state of its frontier has distance [Infinity], and the order is the same. *)
Theorem frontier_ordered_by_transfers_then_distance
    (targetStopsList : list StopWithDistance) (maxTransfers : Z) :
  (∀ targetStops st,
     combinedReachable targetStops targetStopsList maxTransfers st →
     frontierOrdered (Combined.queue st))
  ∧ (∀ st,
       bfsReachable (list_to_set (stop_id <$> targetStopsList))
         targetStopsList maxTransfers st →
       frontierOrdered (Bfs.queue st)).
Proof.
  split.
  - intros targetStops st Hst i j a b Hi Hj Hab.
    eapply (sorted_frontier_positions lexBefore); eauto using lexBefore_irrefl.
    by eapply combinedReachable_sorted.
  - intros st Hst. by eapply bfsFrontierInv_ordered, bfsReachable_inv.
Qed.

Lemma frontier_ordered_by_transfers_then_distance_witness :
  frontierOrdered
    (Combined.queue
       (Combined.search {[ "Z" ]} [targetStop "Z" (1 # 10)] 2 (loadFeed twoWaysFeed) 2
          (Combined.initialState [targetStop "Z" (1 # 10)] "S" "07:00:00")).2)
  ∧ frontierOrdered
      (Bfs.queue
         (Bfs.search (list_to_set (stop_id <$> [targetStop "Z" (1 # 10)]))
            [targetStop "Z" (1 # 10)] 2 (loadFeed twoWaysFeed) 2
            (Bfs.initialState [targetStop "Z" (1 # 10)] "S" "07:00:00")).2).
Proof.
  destruct (frontier_ordered_by_transfers_then_distance [targetStop "Z" (1 # 10)] 2)
    as [Hcombined Hbfs].
  split.
  - apply (Hcombined {[ "Z" ]}). apply combined_search_reachable. apply combined_start.
  - apply Hbfs. apply bfs_search_reachable. apply bfs_start.
    intros Hin. apply elem_of_list_to_set in Hin.
    apply list_elem_of_In in Hin. cbn in Hin. destruct Hin as [Heq|[]].
    vm_compute in Heq. discriminate.
Defined.

(** ** Objects in property order *)

Section ObjFacts.
Context {V : Type}.
Implicit Types (o : jsobj V) (k : string) (v : V).

Lemma str_eqb_eq a b : str_eqb a b = true ↔ a = b.
Proof. unfold str_eqb. apply bool_decide_eq_true. Qed.

Lemma str_eqb_refl a : str_eqb a a = true.
Proof. by apply str_eqb_eq. Qed.

Lemma str_eqb_ne a b : a ≠ b → str_eqb a b = false.
Proof. intros Hne. unfold str_eqb. by apply bool_decide_eq_false_2. Qed.

Lemma objGet_None_keys o k : objGet o k = None ↔ k ∉ o.*1.
Proof.
  induction o as [|[k' v'] o IH]; cbn.
  - split; [intros _; apply not_elem_of_nil|done].
  - rewrite not_elem_of_cons. destruct (str_eqb k' k) eqn:Hk.
    + apply str_eqb_eq in Hk as ->. split; [done|]. by intros [? _].
    + rewrite IH. split; [|by intros [_ ?]]. intros Hin. split; [|done].
      intros ->. by rewrite str_eqb_refl in Hk.
Qed.

Lemma objGet_elem_of o k v : objGet o k = Some v → (k, v) ∈ o.
Proof.
  induction o as [|[k' v'] o IH]; cbn; [done|].
  destruct (str_eqb k' k) eqn:Hk.
  - apply str_eqb_eq in Hk as ->. intros [= ->]. constructor.
  - intros Hget. right. by apply IH.
Qed.

Lemma elem_of_objGet o k v : NoDup o.*1 → (k, v) ∈ o → objGet o k = Some v.
Proof.
  induction o as [|[k' v'] o IH]; cbn; intros Hnd Hin.
  - by apply elem_of_nil in Hin.
  - apply NoDup_cons in Hnd as [Hfresh Hnd].
    apply elem_of_cons in Hin as [[= -> ->]|Hin].
    + by rewrite str_eqb_refl.
    + rewrite str_eqb_ne; [by apply IH|].
      intros ->. apply Hfresh. apply list_elem_of_fmap. by exists (k, v).
Qed.

Lemma objReplace_keys o k v : (objReplace o k v).*1 = o.*1 ∨ k ∉ o.*1.
Proof.
  destruct (decide (k ∈ o.*1)) as [Hin|Hout]; [left|by right].
  induction o as [|[k' v'] o IH]; cbn in *; [done|].
  destruct (str_eqb k' k) eqn:Hk.
  - apply str_eqb_eq in Hk as ->. reflexivity.
  - cbn. f_equal. apply IH. apply elem_of_cons in Hin as [->|Hin]; [|done].
    by rewrite str_eqb_refl in Hk.
Qed.

Lemma objGet_objReplace o k v k' :
  is_Some (objGet o k) →
  objGet (objReplace o k v) k' = if decide (k = k') then Some v else objGet o k'.
Proof.
  induction o as [|[k0 v0] o IH]; cbn; intros Hsome.
  - by destruct Hsome.
  - destruct (str_eqb k0 k) eqn:Hk.
    + apply str_eqb_eq in Hk as ->. cbn.
      destruct (decide (k = k')) as [->|Hne].
      * by rewrite str_eqb_refl.
      * by rewrite str_eqb_ne.
    + cbn. destruct (str_eqb k0 k') eqn:Hk'.
      * apply str_eqb_eq in Hk' as ->.
        destruct (decide (k = k')) as [->|Hne]; [|done].
        by rewrite str_eqb_refl in Hk.
      * by apply IH.
Qed.

Lemma objAddIndex_Permutation o n k v : Permutation (objAddIndex o n k v) ((k, v) :: o).
Proof.
  induction o as [|[k' v'] o IH]; cbn; [reflexivity|].
  repeat case_match; try reflexivity.
  rewrite IH. apply perm_swap.
Qed.

(** A fresh key lands somewhere in the object; the entries are otherwise
    the same. *)
Lemma objSet_fresh_Permutation o k v :
  objGet o k = None → Permutation (objSet o k v) ((k, v) :: o).
Proof.
  intros Hnone. unfold objSet. rewrite Hnone.
  destruct (arrayIndex k).
  - apply objAddIndex_Permutation.
  - symmetry. apply Permutation_cons_append.
Qed.

Lemma objGet_Permutation o o' k :
  NoDup o.*1 → Permutation o o' → objGet o k = objGet o' k.
Proof.
  intros Hnd Hperm.
  assert (Hnd' : NoDup o'.*1) by (by rewrite <- Hperm).
  destruct (objGet o k) as [v|] eqn:Hget.
  - symmetry. apply elem_of_objGet; [done|].
    rewrite <- Hperm. by apply objGet_elem_of.
  - symmetry. apply objGet_None_keys. rewrite <- Hperm.
    by apply objGet_None_keys.
Qed.

Lemma objSet_NoDup o k v : NoDup o.*1 → NoDup (objSet o k v).*1.
Proof.
  intros Hnd. destruct (objGet o k) as [v0|] eqn:Hget.
  - unfold objSet. rewrite Hget.
    destruct (objReplace_keys o k v) as [->|Hout]; [done|].
    apply objGet_None_keys in Hout. congruence.
  - rewrite (objSet_fresh_Permutation o k v Hget). cbn.
    apply NoDup_cons. split; [|done]. by apply objGet_None_keys.
Qed.

Lemma objGet_objSet o k v k' :
  NoDup o.*1 →
  objGet (objSet o k v) k' = if decide (k = k') then Some v else objGet o k'.
Proof.
  intros Hnd. destruct (objGet o k) as [v0|] eqn:Hget.
  - unfold objSet. rewrite Hget. apply objGet_objReplace. by rewrite Hget.
  - rewrite (objGet_Permutation (objSet o k v) ((k, v) :: o)).
    + cbn. destruct (decide (k = k')) as [->|Hne].
      * by rewrite str_eqb_refl.
      * by rewrite str_eqb_ne.
    + by apply objSet_NoDup.
    + by apply objSet_fresh_Permutation.
Qed.

Lemma objSet_keys o k v :
  NoDup o.*1 → ∀ k', k' ∈ (objSet o k v).*1 ↔ k' = k ∨ k' ∈ o.*1.
Proof.
  intros Hnd k'.
  pose proof (objGet_objSet o k v k' Hnd) as Hget.
  pose proof (objGet_None_keys (objSet o k v) k') as Hnone.
  pose proof (objGet_None_keys o k') as Hnone'.
  destruct (decide (k = k')) as [->|Hne].
  - split; [by left|]. intros _.
    destruct (decide (k' ∈ (objSet o k' v).*1)) as [|Hout]; [done|].
    apply Hnone in Hout. congruence.
  - rewrite Hget in Hnone. split.
    + intros Hin. right.
      destruct (decide (k' ∈ o.*1)) as [|Hout]; [done|].
      apply Hnone', Hnone in Hout. done.
    + intros [->|Hin]; [done|].
      destruct (decide (k' ∈ (objSet o k v).*1)) as [|Hout]; [done|].
      apply Hnone, Hnone' in Hout. done.
Qed.

End ObjFacts.

(** ** Connection expander *)

Section ListFacts.
Context {A B : Type}.

Lemma filter_Permutation (p : A → bool) (l l' : list A) :
  Permutation l l' → Permutation (List.filter p l) (List.filter p l').
Proof.
  induction 1 as [|x l l' _ IH|x y l|l l' l'' _ IH1 _ IH2]; cbn.
  - reflexivity.
  - destruct (p x); [by constructor|done].
  - destruct (p x), (p y); try reflexivity. apply perm_swap.
  - by etrans.
Qed.

Lemma filter_filter_and (p q : A → bool) (l : list A) :
  List.filter p (List.filter q l) = List.filter (λ x, q x && p x) l.
Proof.
  induction l as [|x l IH]; cbn; [reflexivity|].
  destruct (q x); cbn; [|exact IH]. destruct (p x); by rewrite IH.
Qed.

Lemma filter_ext_elem_of (p q : A → bool) (l : list A) :
  (∀ x, x ∈ l → p x = q x) → List.filter p l = List.filter q l.
Proof.
  intros Hpq. apply List.filter_ext_in. intros x Hx. apply Hpq.
  by apply list_elem_of_In.
Qed.

Lemma filter_all (p : A → bool) (l : list A) :
  Forall (λ x, p x = true) l → List.filter p l = l.
Proof. induction 1 as [|x l Hx _ IH]; cbn; [done|]. by rewrite Hx, IH. Qed.

Lemma filter_none (p : A → bool) (l : list A) :
  Forall (λ x, p x = false) l → List.filter p l = [].
Proof. induction 1 as [|x l Hx _ IH]; cbn; [done|]. by rewrite Hx. Qed.

Lemma flat_map_none (f : A → list B) (l : list A) :
  Forall (λ x, f x = []) l → flat_map f l = [].
Proof. induction 1 as [|x l Hx _ IH]; cbn; [done|]. by rewrite Hx, IH. Qed.

Lemma flat_map_ext_elem_of (f g : A → list B) (l : list A) :
  (∀ x, x ∈ l → f x = g x) → flat_map f l = flat_map g l.
Proof.
  induction l as [|x l IH]; intros Hfg; cbn; [done|].
  rewrite Hfg by constructor. f_equal. apply IH.
  intros y Hy. apply Hfg. by constructor.
Qed.

Lemma flat_map_filter (f : A → list B) (p : A → bool) (l : list A) :
  flat_map f (List.filter p l) = flat_map (λ x, if p x then f x else []) l.
Proof.
  induction l as [|x l IH]; cbn; [done|].
  destruct (p x); cbn; by rewrite IH.
Qed.

Lemma flat_map_app_Permutation (f g : A → list B) (l : list A) :
  Permutation (flat_map (λ x, f x ++ g x) l) (flat_map f l ++ flat_map g l).
Proof.
  induction l as [|x l IH]; cbn; [reflexivity|].
  rewrite IH, <- !app_assoc. apply Permutation_app_head.
  rewrite !app_assoc. apply Permutation_app_tail, Permutation_app_comm.
Qed.

Lemma findIndex_Some (p : A → bool) (l : list A) i :
  findIndex p l = Some i →
  ∃ pre x post, l = pre ++ x :: post ∧ length pre = i ∧ p x = true
                ∧ Forall (λ y, p y = false) pre.
Proof.
  revert i. induction l as [|y l IH]; intros i; cbn; [done|].
  destruct (p y) eqn:Hy.
  - intros [= <-]. exists [], y, l. by repeat split.
  - destruct (findIndex p l) as [j|]; [|done]. cbn. intros [= <-].
    destruct (IH j eq_refl) as (pre & x & post & -> & Hlen & Hx & Hpre).
    exists (y :: pre), x, post. repeat split; cbn; [by f_equal|done|by constructor].
Qed.

Lemma findIndex_None (p : A → bool) (l : list A) :
  findIndex p l = None → Forall (λ y, p y = false) l.
Proof.
  induction l as [|y l IH]; cbn; [by constructor|].
  destruct (p y) eqn:Hy; [done|].
  destruct (findIndex p l); [done|]. intros _. constructor; auto.
Qed.

Lemma findIndex_fmap (f : A → B) (p : B → bool) (l : list A) :
  findIndex p (f <$> l) = findIndex (λ x, p (f x)) l.
Proof.
  induction l as [|y l IH]; cbn; [done|]. by rewrite IH.
Qed.

Lemma insertSorted_fmap (f : A → B) (gtA : A → A → bool) (gtB : B → B → bool) x l :
  (∀ a b, gtB (f a) (f b) = gtA a b) →
  insertSorted gtB (f x) (f <$> l) = f <$> insertSorted gtA x l.
Proof.
  intros Hgt. induction l as [|y l IH]; cbn; [done|].
  rewrite Hgt. destruct (gtA x y); cbn; [|done]. by rewrite IH.
Qed.

Lemma sortBy_fmap (f : A → B) (gtA : A → A → bool) (gtB : B → B → bool) l :
  (∀ a b, gtB (f a) (f b) = gtA a b) →
  sortBy gtB (f <$> l) = f <$> sortBy gtA l.
Proof.
  intros Hgt. induction l as [|y l IH]; cbn; [done|].
  fold (sortBy gtB (f <$> l)). fold (sortBy gtA l).
  rewrite IH. by apply insertSorted_fmap.
Qed.

End ListFacts.

Lemma flat_map_swap_Permutation {A B C} (f : A → B → list C) (la : list A) (lb : list B) :
  Permutation (flat_map (λ a, flat_map (f a) lb) la)
              (flat_map (λ b, flat_map (λ a, f a b) la) lb).
Proof.
  induction la as [|a la IH]; cbn.
  - by rewrite flat_map_none by (by apply Forall_forall).
  - rewrite IH. symmetry. apply flat_map_app_Permutation.
Qed.

(** Selecting by a key that occurs at most once in [keys]. *)
Lemma flat_map_select {B} (keys : list string) (k : string) (l : list B) :
  NoDup keys →
  flat_map (λ k', if str_eqb k k' then l else []) keys
  = if bool_decide (k ∈ keys) then l else [].
Proof.
  induction 1 as [|k0 keys Hfresh Hnd IH]; cbn; [done|].
  rewrite IH. destruct (decide (k = k0)) as [->|Hne].
  - rewrite str_eqb_refl.
    rewrite (bool_decide_eq_false_2 (k0 ∈ keys)) by done.
    rewrite bool_decide_eq_true_2 by constructor. apply app_nil_r.
  - rewrite str_eqb_ne by done. cbn.
    destruct (decide (k ∈ keys)) as [Hin|Hout].
    + rewrite !bool_decide_eq_true_2; [done|by constructor|done].
    + rewrite !bool_decide_eq_false_2; [done| |done].
      rewrite not_elem_of_cons. done.
Qed.

Section TripStopMap.
Context (pd : PreloadedData).

Lemma objPush_NoDup {V} (o : jsobj (list V)) k x : NoDup o.*1 → NoDup (objPush o k x).*1.
Proof. intros Hnd. unfold objPush. destruct (objGet o k); by apply objSet_NoDup. Qed.

Lemma objGet_objPush {V} (o : jsobj (list V)) k x k' :
  NoDup o.*1 →
  objGet (objPush o k x) k'
  = if decide (k = k') then Some (default [] (objGet o k) ++ [x]) else objGet o k'.
Proof.
  intros Hnd. unfold objPush.
  destruct (objGet o k) as [l|] eqn:Hget; rewrite objGet_objSet by done;
    destruct (decide (k = k')); done.
Qed.

Lemma tripStopMap_fold (l : list StopTimeRow) :
  let obj := foldl (λ m row, if validRow pd row
                             then objPush m (st_trip_id row) (infoOf row) else m)
                   [] l in
  NoDup obj.*1
  ∧ ∀ tripId,
      objGet obj tripId
      = match List.filter (λ r, validRow pd r && str_eqb (st_trip_id r) tripId) l with
        | [] => None
        | rows => Some (infoOf <$> rows)
        end.
Proof.
  induction l as [|row l IH] using rev_ind; cbn.
  - split; [constructor|done].
  - destruct IH as [Hnd Hget]. rewrite foldl_snoc.
    destruct (validRow pd row) eqn:Hvalid.
    + split; [by apply objPush_NoDup|]. intros tripId.
      rewrite objGet_objPush by done. rewrite List.filter_app. cbn.
      rewrite Hvalid. cbn.
      destruct (decide (st_trip_id row = tripId)) as [->|Hne].
      * rewrite str_eqb_refl, Hget.
        destruct (List.filter _ l) as [|r0 rs]; cbn; [done|].
        by rewrite fmap_app.
      * rewrite str_eqb_ne by done. rewrite app_nil_r. apply Hget.
    + split; [done|]. intros tripId. rewrite List.filter_app. cbn.
      rewrite Hvalid. cbn. rewrite app_nil_r. apply Hget.
Qed.

Lemma tripStopMap_NoDup : NoDup (tripStopMap pd).*1.
Proof. apply tripStopMap_fold. Qed.

Lemma tripStopMap_lookup tripId :
  objGet (tripStopMap pd) tripId
  = match validRowsOfTrip pd tripId with
    | [] => None
    | rows => Some (infoOf <$> rows)
    end.
Proof. apply tripStopMap_fold. Qed.

Lemma tripStopMap_entry tripId stops :
  (tripId, stops) ∈ tripStopMap pd →
  stops = infoOf <$> validRowsOfTrip pd tripId ∧ tripId ∈ validTripIds pd.
Proof.
  intros Hin. apply elem_of_objGet in Hin; [|apply tripStopMap_NoDup].
  rewrite tripStopMap_lookup in Hin.
  destruct (validRowsOfTrip pd tripId) as [|r rs] eqn:Hrows; [done|].
  injection Hin as <-. split; [done|].
  assert (Hr : r ∈ validRowsOfTrip pd tripId) by (rewrite Hrows; constructor).
  apply list_elem_of_In, filter_In in Hr as [_ Hr].
  apply andb_true_iff in Hr as [Hvalid Htrip].
  apply str_eqb_eq in Htrip as <-. by apply bool_decide_eq_true in Hvalid.
Qed.

Lemma tripStopMap_key (row : StopTimeRow) :
  row ∈ stopTimeRows pd → validRow pd row = true →
  st_trip_id row ∈ (tripStopMap pd).*1.
Proof.
  intros Hin Hvalid.
  destruct (decide (st_trip_id row ∈ (tripStopMap pd).*1)) as [|Hout]; [done|].
  apply objGet_None_keys in Hout. rewrite tripStopMap_lookup in Hout.
  assert (Hr : row ∈ validRowsOfTrip pd (st_trip_id row)).
  { apply list_elem_of_In, filter_In. split; [by apply list_elem_of_In|].
    by rewrite Hvalid, str_eqb_refl. }
  destruct (validRowsOfTrip pd (st_trip_id row)); [|done].
  by apply elem_of_nil in Hr.
Qed.

End TripStopMap.

Section SortedSplit.
Context {A : Type}.

Lemma StronglySorted_app_inv (R : A → A → Prop) pre x post :
  StronglySorted R (pre ++ x :: post) →
  Forall (λ y, R y x) pre ∧ Forall (R x) post.
Proof.
  induction pre as [|y pre IH]; cbn; intros Hs.
  - apply StronglySorted_inv in Hs as [_ Hx]. by split.
  - apply StronglySorted_inv in Hs as [Hs Hy].
    destruct (IH Hs) as [Hpre Hpost]. split; [|done].
    constructor; [|done]. rewrite Forall_forall in Hy. apply Hy.
    apply elem_of_app. right. constructor.
Qed.

End SortedSplit.

Section Expander.
Context (pd : PreloadedData) (stopId afterTime : string).
Context (Hwf : sequencesWellFormed pd).

Lemma valid_rows_of_valid_trip tripId :
  tripId ∈ validTripIds pd → validRowsOfTrip pd tripId = rowsOfTrip pd tripId.
Proof.
  intros Hvalid. apply filter_ext_elem_of. intros r _. unfold validRow.
  destruct (str_eqb (st_trip_id r) tripId) eqn:Htrip; [|by rewrite andb_false_r].
  apply str_eqb_eq in Htrip as ->. by rewrite bool_decide_eq_true_2.
Qed.

Lemma rowAfter_numbers a b x y :
  st_seq a = Some x → st_seq b = Some y → rowAfter a b = (0 <? x - y).
Proof. intros Ha Hb. unfold rowAfter. by rewrite Ha, Hb. Qed.

(** The rows of a valid trip, sorted as [stops.sort] sorts them, have
    strictly increasing sequence numbers. *)
Lemma sorted_rows_strict tripId pre src post :
  tripId ∈ validTripIds pd →
  sortBy rowAfter (rowsOfTrip pd tripId) = pre ++ src :: post →
  Forall (λ r, jlt (st_seq r) (st_seq src) = true) pre
  ∧ Forall (λ r, jlt (st_seq src) (st_seq r) = true) post.
Proof.
  intros Hvalid Hsplit.
  unfold sequencesWellFormed in Hwf. rewrite Forall_forall in Hwf.
  destruct (Hwf tripId) as [Hnum Hdistinct]; [by apply elem_of_elements|].
  assert (Hperm : Permutation (pre ++ src :: post) (rowsOfTrip pd tripId))
    by (rewrite <- Hsplit; apply sortBy_Permutation).
  assert (Hnum' : Forall (λ r, is_Some (st_seq r)) (pre ++ src :: post))
    by (by rewrite Hperm).
  assert (Hsorted : StronglySorted (λ a b, rowAfter a b = false) (pre ++ src :: post)).
  { rewrite <- Hsplit.
    apply (sortBy_sorted rowAfter (λ r, is_Some (st_seq r))); [| |done].
    - intros a b [x Ha] [y Hb].
      rewrite (rowAfter_numbers a b x y), (rowAfter_numbers b a y x) by done.
      rewrite Z.ltb_lt, Z.ltb_ge. lia.
    - intros a b c [x Ha] [y Hb] [z Hc].
      rewrite (rowAfter_numbers a b x y), (rowAfter_numbers b c y z),
        (rowAfter_numbers a c x z) by done.
      rewrite !Z.ltb_ge. lia. }
  assert (Hnd : NoDup (st_seq <$> (pre ++ src :: post))) by (by rewrite Hperm).
  rewrite fmap_app, fmap_cons in Hnd.
  apply NoDup_app in Hnd as (_ & Hpre & Hnd).
  apply NoDup_cons in Hnd as [Hpost _].
  apply StronglySorted_app_inv in Hsorted as [Hbefore Hafter].
  apply Forall_app in Hnum' as [Hnpre Hnrest].
  apply Forall_cons in Hnrest as [[s Hs] Hnpost].
  rewrite Forall_forall in Hbefore, Hafter, Hnpre, Hnpost.
  split; apply Forall_forall; intros r Hr.
  - destruct (Hnpre r Hr) as [x Hx]. specialize (Hbefore r Hr).
    rewrite (rowAfter_numbers r src x s) in Hbefore by done.
    rewrite Hx, Hs. cbn. apply Z.ltb_lt. apply Z.ltb_ge in Hbefore.
    assert (x ≠ s); [|lia]. intros ->. apply (Hpre (Some s)).
    + apply list_elem_of_fmap. exists r. split; [congruence|done].
    + apply elem_of_cons. by left.
  - destruct (Hnpost r Hr) as [x Hx]. specialize (Hafter r Hr).
    rewrite (rowAfter_numbers src r s x) in Hafter by done.
    rewrite Hx, Hs. cbn. apply Z.ltb_lt. apply Z.ltb_ge in Hafter.
    assert (x ≠ s); [|lia]. intros ->. apply Hpost.
    apply list_elem_of_fmap. exists r. split; [congruence|done].
Qed.

Lemma jlt_asym a b : jlt a b = true → jlt b a = false.
Proof.
  destruct a as [x|], b as [y|]; cbn; try done.
  rewrite Z.ltb_lt, Z.ltb_ge. lia.
Qed.

Lemma jlt_irrefl a : jlt a a = false.
Proof. destruct a as [x|]; cbn; [apply Z.ltb_irrefl|done]. Qed.

Lemma rowsOfTrip_elem tripId r :
  r ∈ rowsOfTrip pd tripId ↔ r ∈ stopTimeRows pd ∧ st_trip_id r = tripId.
Proof.
  unfold rowsOfTrip. rewrite list_elem_of_In, filter_In, <- list_elem_of_In.
  by rewrite str_eqb_eq.
Qed.

Lemma not_first_call_other_stop r :
  str_eqb (st_stop_id r) stopId = false → expectedFrom pd stopId afterTime r = [].
Proof.
  intros Hstop. unfold expectedFrom, boards, isFirstCall. rewrite Hstop.
  by rewrite andb_false_r.
Qed.

Lemma not_first_call_after src r :
  src ∈ stopTimeRows pd → st_trip_id src = st_trip_id r →
  str_eqb (st_stop_id src) stopId = true →
  jlt (st_seq src) (st_seq r) = true →
  expectedFrom pd stopId afterTime r = [].
Proof.
  intros Hin Htrip Hstop Hlt. unfold expectedFrom, boards, isFirstCall.
  destruct (forallb _ (stopTimeRows pd)) eqn:Hall.
  - rewrite forallb_forall in Hall.
    specialize (Hall src (proj1 (list_elem_of_In _ _) Hin)).
    rewrite Htrip, str_eqb_refl, Hstop, Hlt in Hall. discriminate.
  - by rewrite !andb_false_r.
Qed.

Lemma connectionsOfTrip_expected tripId :
  tripId ∈ validTripIds pd →
  Permutation
    (connectionsOfTrip stopId afterTime pd (tripId, infoOf <$> validRowsOfTrip pd tripId))
    (flat_map (expectedFrom pd stopId afterTime) (validRowsOfTrip pd tripId)).
Proof.
  intros Hvalid. rewrite valid_rows_of_valid_trip by done.
  unfold connectionsOfTrip.
  rewrite (sortBy_fmap infoOf rowAfter seqAfter) by reflexivity.
  rewrite findIndex_fmap.
  etrans; [|apply Permutation_flat_map, (sortBy_Permutation rowAfter)].
  pose proof (sortBy_Permutation rowAfter (rowsOfTrip pd tripId)) as Hperm.
  destruct (findIndex _ (sortBy rowAfter (rowsOfTrip pd tripId))) as [n|] eqn:Hfind.
  - apply findIndex_Some in Hfind as (pre & src & post & HL & Hlen & Hsrc & Hpre).
    cbn in Hsrc.
    destruct (sorted_rows_strict tripId pre src post Hvalid HL) as [Hbefore Hafter].
    rewrite HL in Hperm |- *.
    assert (Hrows : ∀ r, r ∈ pre ++ src :: post →
                         r ∈ stopTimeRows pd ∧ st_trip_id r = tripId).
    { intros r Hr. apply rowsOfTrip_elem. by rewrite <- Hperm. }
    destruct (Hrows src) as [Hsrc_in Hsrc_trip];
      [apply elem_of_app; right; constructor|].
    rewrite fmap_app, fmap_cons.
    rewrite (list_lookup_middle _ _ _ n) by (by rewrite length_fmap).
    replace (drop (S n) _) with (infoOf <$> post).
    2:{ rewrite cons_middle, app_assoc.
        rewrite drop_app_length'; [done|]. rewrite length_app, length_fmap. cbn. lia. }
    rewrite flat_map_app. cbn [flat_map].
    rewrite (flat_map_none _ pre), (flat_map_none _ post), app_nil_r; cbn [app].
    2:{ rewrite Forall_forall in Hafter. apply Forall_forall. intros r Hr.
        apply (not_first_call_after src r); [done| |done|by apply Hafter].
        rewrite Hsrc_trip. symmetry. apply Hrows.
        apply elem_of_app. right. by right. }
    2:{ eapply Forall_impl; [exact Hpre|]. intros r Hr.
        by apply not_first_call_other_stop. }
    unfold expectedFrom, boards.
    assert (Hvalid_src : validRow pd src = true).
    { unfold validRow. rewrite Hsrc_trip. by apply bool_decide_eq_true_2. }
    assert (Hfirst : isFirstCall pd stopId src = true).
    { unfold isFirstCall. rewrite Hsrc. cbn. apply forallb_forall. intros r Hr.
      apply list_elem_of_In in Hr. apply negb_true_iff.
      destruct (str_eqb (st_trip_id r) (st_trip_id src)) eqn:Htrip; [|done].
      destruct (str_eqb (st_stop_id r) stopId) eqn:Hstop; [|done]. cbn.
      apply str_eqb_eq in Htrip.
      assert (Hr' : r ∈ pre ++ src :: post).
      { rewrite Hperm. apply rowsOfTrip_elem. split; [done|congruence]. }
      rewrite Forall_forall in Hpre, Hafter.
      apply elem_of_app in Hr' as [Hr'|Hr'].
      - pose proof (Hpre r Hr') as Hother. cbn in Hother. congruence.
      - apply elem_of_cons in Hr' as [->|Hr']; [apply jlt_irrefl|].
        apply jlt_asym. by apply Hafter. }
    rewrite Hvalid_src, Hfirst. cbn.
    destruct (0 <? compareTime (st_dep src) afterTime) eqn:Hdep.
    + replace (compareTime (st_dep src) afterTime <=? 0) with false
        by (symmetry; apply Z.leb_gt; by apply Z.ltb_lt).
      rewrite <- list_fmap_compose.
      assert (Hlater : Permutation (List.filter (laterOnTrip src) (stopTimeRows pd)) post).
      { transitivity (List.filter (laterOnTrip src) (rowsOfTrip pd tripId)).
        { unfold rowsOfTrip. rewrite filter_filter_and.
          apply Permutation_refl'. apply filter_ext_elem_of. intros r _.
          unfold laterOnTrip. rewrite Hsrc_trip.
          destruct (str_eqb (st_trip_id r) tripId); done. }
        transitivity (List.filter (laterOnTrip src) (pre ++ src :: post));
          [apply filter_Permutation; by symmetry|].
        rewrite List.filter_app. cbn [List.filter].
        rewrite (filter_none _ pre), (filter_all _ post); cbn.
        - unfold laterOnTrip. by rewrite jlt_irrefl, andb_false_r.
        - rewrite Forall_forall in Hafter. apply Forall_forall. intros r Hr.
          unfold laterOnTrip. rewrite (Hafter r Hr), andb_true_r.
          apply str_eqb_eq. rewrite Hsrc_trip. apply Hrows.
          apply elem_of_app. right. by right.
        - rewrite Forall_forall in Hbefore. apply Forall_forall. intros r Hr.
          unfold laterOnTrip. rewrite (jlt_asym _ _ (Hbefore r Hr)).
          by rewrite andb_false_r. }
      rewrite Hlater. apply Permutation_refl'.
      apply list_fmap_ext. intros i r _. cbn. unfold connectionOf.
      by rewrite Hsrc_trip.
    + replace (compareTime (st_dep src) afterTime <=? 0) with true
        by (symmetry; apply Z.leb_le; apply Z.ltb_ge in Hdep; lia).
      reflexivity.
  - apply findIndex_None in Hfind.
    rewrite flat_map_none; [done|].
    eapply Forall_impl; [exact Hfind|]. intros r Hr.
    by apply not_first_call_other_stop.
Qed.

Lemma flat_map_Permutation_pointwise {A B} (f g : A → list B) (l : list A) :
  (∀ x, x ∈ l → Permutation (f x) (g x)) →
  Permutation (flat_map f l) (flat_map g l).
Proof.
  induction l as [|x l IH]; intros Hfg; cbn; [done|].
  apply Permutation_app; [apply Hfg; constructor|].
  apply IH. intros y Hy. apply Hfg. by constructor.
Qed.

Lemma flat_map_fmap {A B C} (f : B → list C) (g : A → B) (l : list A) :
  flat_map f (g <$> l) = flat_map (λ x, f (g x)) l.
Proof. induction l as [|x l IH]; cbn; [done|]. by rewrite IH. Qed.

Lemma getDirectConnections_expected :
  Permutation (getDirectConnections stopId afterTime pd)
              (expectedConnections stopId afterTime pd).
Proof.
  unfold getDirectConnections, expectedConnections, entries.
  transitivity (flat_map (λ tripId, flat_map (expectedFrom pd stopId afterTime)
                                      (validRowsOfTrip pd tripId))
                         (tripStopMap pd).*1).
  { rewrite flat_map_fmap. apply flat_map_Permutation_pointwise.
    intros [tripId stops] Hentry. cbn [fst].
    apply tripStopMap_entry in Hentry as [-> Hvalid].
    by apply connectionsOfTrip_expected. }
  transitivity (flat_map (λ tripId,
                  flat_map (λ r, if validRow pd r && str_eqb (st_trip_id r) tripId
                                 then expectedFrom pd stopId afterTime r else [])
                           (stopTimeRows pd))
                  (tripStopMap pd).*1).
  { apply Permutation_refl'. apply flat_map_ext_elem_of. intros tripId _.
    unfold validRowsOfTrip. apply flat_map_filter. }
  rewrite flat_map_swap_Permutation.
  apply Permutation_refl'. apply flat_map_ext_elem_of. intros r Hr.
  destruct (validRow pd r) eqn:Hvalid; cbn.
  - rewrite (flat_map_select _ (st_trip_id r)) by apply tripStopMap_NoDup.
    rewrite bool_decide_eq_true_2; [done|]. by apply tripStopMap_key.
  - rewrite flat_map_none by (by apply Forall_forall).
    unfold expectedFrom, boards. by rewrite Hvalid.
Qed.

End Expander.

(** C9.  The expander misses connections of a trip that calls at a stop
    twice: in [loopFeed] trip T1 calls at S at 08:00 and at 09:00.  At 08:30
    its second call (sequence 3) is still ahead, with stop Y after it, but the
    expander looks at the first call only ([findIndex], departure 08:00) and
    returns nothing, where "all direct connections from a stop after a given
    time" has the connection to Y. *)
Lemma second_call_is_not_expanded :
  getDirectConnections "S" "08:30:00" (loadFeed loopFeed) = []
  ∧ specifiedConnections "S" "08:30:00" (loadFeed loopFeed)
    = [ {| conn_stop_id := "Y"; arrival_time := "09:30:00";
           departure_time := "09:00:00"; trip_id := "T1";
           route_id := "R"; headsign := "Downtown" |} ].
Proof. vm_compute. split; reflexivity. Qed.

(** X26.  On a feed whose [stop_times.txt] is plain (every line has its
    cells, stop sequences are digits, departure times are written [HH:MM:SS],
    no id is a property name of [Object.prototype]) and whose stop sequences
    are distinct within each trip, the connection expander returns, for every
    stop and every time written [HH:MM:SS], exactly one connection per pair
    of a valid trip whose first call at the stop (the row with the lowest
    sequence) departs strictly later than the time, and a row of that trip
    with a strictly greater sequence; the connection carries that row's stop
    and arrival time and the departure time of the first call. *)
Theorem expander_lists_connections_of_first_call
    (pd : PreloadedData) (stopId afterTime : string) :
  plainRows pd →
  isClockTime afterTime = true →
  sequencesWellFormed pd →
  Permutation (getDirectConnections stopId afterTime pd)
              (expectedConnections stopId afterTime pd).
Proof. intros _ _ Hwf. by apply getDirectConnections_expected. Qed.

Lemma expander_lists_connections_of_first_call_witness :
  plainRows (loadFeed loopFeed)
  ∧ sequencesWellFormed (loadFeed loopFeed)
  ∧ Permutation (getDirectConnections "S" "07:30:00" (loadFeed loopFeed))
                (expectedConnections "S" "07:30:00" (loadFeed loopFeed))
  ∧ length (expectedConnections "S" "07:30:00" (loadFeed loopFeed)) = 3%nat.
Proof.
  assert (Hplain : plainRows (loadFeed loopFeed)) by (vm_compute; reflexivity).
  assert (Hwf : sequencesWellFormed (loadFeed loopFeed)).
  { apply (bool_decide_eq_true_1 (sequencesWellFormed (loadFeed loopFeed))).
    vm_compute. reflexivity. }
  split; [exact Hplain|]. split; [exact Hwf|]. split.
  - exact (expander_lists_connections_of_first_call
             (loadFeed loopFeed) "S" "07:30:00" Hplain eq_refl Hwf).
  - vm_compute. reflexivity.
Defined.

(** ** Direct-trip finder *)

Section StringOrder.

Lemma str_gt_false_le a b : str_gt a b = false ↔ String.le a b.
Proof.
  unfold str_gt, String.le, String.ltb, String.leb.
  rewrite (String.compare_antisym a b).
  destruct (String.compare b a); cbn; split; try done.
Qed.

Lemma str_lt_irrefl a : str_lt a a = false.
Proof. apply (str_gt_false_le a a). reflexivity. Qed.

Lemma str_gt_total a b : str_gt a b = true → str_gt b a = false.
Proof.
  intros Hab. apply str_gt_false_le.
  destruct (total String.le a b) as [Hle|Hle]; [|done].
  apply str_gt_false_le in Hle. congruence.
Qed.

Lemma str_gt_trans a b c :
  str_gt a b = false → str_gt b c = false → str_gt a c = false.
Proof. rewrite !str_gt_false_le. intros. by etrans. Qed.

End StringOrder.

(** Grouping by [objPush]. *)
Section PushAll.
Context {V : Type}.

Lemma pushAll_spec (pairs : list (string * V)) :
  NoDup (foldl pushPair [] pairs).*1
  ∧ ∀ k, objGet (foldl pushPair [] pairs) k
         = match List.filter (λ p, str_eqb p.1 k) pairs with
           | [] => None
           | l => Some (l.*2)
           end.
Proof.
  induction pairs as [|[k0 x] pairs IH] using rev_ind; cbn.
  - split; [constructor|done].
  - destruct IH as [Hnd Hget]. rewrite foldl_snoc. unfold pushPair at 1 3. cbn.
    split; [by apply objPush_NoDup|]. intros k.
    rewrite objGet_objPush by done. rewrite List.filter_app. cbn.
    destruct (decide (k0 = k)) as [->|Hne].
    + rewrite str_eqb_refl, Hget.
      destruct (List.filter _ pairs) as [|p ps]; cbn; [done|].
      by rewrite fmap_app.
    + rewrite str_eqb_ne by done. rewrite app_nil_r. apply Hget.
Qed.

Lemma pushAll_entry (pairs : list (string * V)) k l x :
  (k, l) ∈ foldl pushPair [] pairs → x ∈ l → (k, x) ∈ pairs.
Proof.
  destruct (pushAll_spec pairs) as [Hnd Hget]. intros Hentry Hx.
  apply elem_of_objGet in Hentry; [|done]. rewrite Hget in Hentry.
  assert (Hl : l = (List.filter (λ p, str_eqb p.1 k) pairs).*2)
    by (destruct (List.filter _ pairs); by simplify_eq).
  subst l. apply list_elem_of_fmap in Hx as ([k' x'] & -> & Hin).
  apply list_elem_of_In, filter_In in Hin as [Hin Hk]. cbn in *.
  apply str_eqb_eq in Hk as ->. by apply list_elem_of_In.
Qed.

Lemma pushAll_complete (pairs : list (string * V)) k x :
  (k, x) ∈ pairs → ∃ l, (k, l) ∈ foldl pushPair [] pairs ∧ x ∈ l.
Proof.
  destruct (pushAll_spec pairs) as [Hnd Hget]. intros Hin.
  assert (Hf : (k, x) ∈ List.filter (λ p, str_eqb p.1 k) pairs).
  { apply list_elem_of_In, filter_In. split; [by apply list_elem_of_In|].
    apply str_eqb_refl. }
  exists ((List.filter (λ p, str_eqb p.1 k) pairs).*2). split.
  - apply objGet_elem_of. rewrite Hget.
    destruct (List.filter _ pairs); [by apply elem_of_nil in Hf|done].
  - apply list_elem_of_fmap. by exists (k, x).
Qed.

End PushAll.

Lemma last_all_equal {A} (l : list A) (x y : A) :
  y ∈ l → (∀ z, z ∈ l → z = x) → last l = Some x.
Proof.
  intros Hy Hall. destruct (last l) as [z|] eqn:Hlast.
  - f_equal. apply Hall. apply last_Some in Hlast as [l' ->].
    apply elem_of_app. right. constructor.
  - apply last_None in Hlast as ->. by apply elem_of_nil in Hy.
Qed.

Lemma last_elem_of {A} (l : list A) (x : A) : last l = Some x → x ∈ l.
Proof.
  intros Hlast. apply last_Some in Hlast as [l' ->].
  apply elem_of_app. right. constructor.
Qed.

Lemma foldl_flat_map {A B C} (f : A → C → A) (g : B → list C) (a : A) (l : list B) :
  foldl f a (flat_map g l) = foldl (λ a x, foldl f a (g x)) a l.
Proof.
  revert a. induction l as [|x l IH]; intros a; cbn; [done|].
  by rewrite foldl_app, IH.
Qed.

Section TripStops.
Context (pd : PreloadedData) (stopA : string) (candidateStops : list StopWithDistance).
Let candidateStopIds : gset string := list_to_set (stop_id <$> candidateStops).

Lemma tripStops_fold (l : list StopTimeRow) :
  let ts := foldl (λ m row,
                     let tId := st_trip_id row in
                     let sId := st_stop_id row in
                     if bool_decide (tId ∈ validTripIds pd) then
                       if str_eqb sId stopA || bool_decide (sId ∈ candidateStopIds) then
                         objSet m tId (<[sId := cellOf row]> (default ∅ (objGet m tId)))
                       else m
                     else m)
                  [] l in
  NoDup ts.*1
  ∧ ∀ tId sId,
      (objGet ts tId ≫= λ stops : gmap string NextTransit.TripStop, stops !! sId)
      = cellOf <$> last (List.filter
                           (λ r, validRow pd r
                                 && relevantStop stopA candidateStopIds (st_stop_id r)
                                 && (str_eqb (st_trip_id r) tId
                                     && str_eqb (st_stop_id r) sId)) l).
Proof.
  induction l as [|row l IH] using rev_ind; cbn.
  - split; [constructor|done].
  - destruct IH as [Hnd Hget]. rewrite foldl_snoc.
    fold (validRow pd row). fold (relevantStop stopA candidateStopIds (st_stop_id row)).
    destruct (validRow pd row) eqn:Hvalid; cbn.
    2:{ split; [done|]. intros tId sId. rewrite List.filter_app. cbn.
        rewrite Hvalid. cbn. rewrite app_nil_r. apply Hget. }
    destruct (relevantStop _ _ (st_stop_id row)) eqn:Hrel; cbn.
    2:{ split; [done|]. intros tId sId. rewrite List.filter_app. cbn.
        rewrite Hvalid, Hrel. cbn. rewrite app_nil_r. apply Hget. }
    split; [by apply objSet_NoDup|]. intros tId sId.
    rewrite objGet_objSet by done. rewrite List.filter_app. cbn.
    rewrite Hvalid, Hrel. cbn.
    destruct (decide (st_trip_id row = tId)) as [<-|Hne].
    + rewrite str_eqb_refl. cbn.
      destruct (decide (st_stop_id row = sId)) as [<-|Hne].
      * rewrite str_eqb_refl, lookup_insert_eq, last_snoc. done.
      * rewrite str_eqb_ne by done. rewrite lookup_insert_ne by done.
        rewrite app_nil_r, <- Hget.
        destruct (objGet _ (st_trip_id row)); cbn; [done|].
        apply lookup_empty.
    + rewrite str_eqb_ne by done. cbn. rewrite app_nil_r. apply Hget.
Qed.

Lemma tripStops_NoDup :
  NoDup (NextTransit.tripStops stopA candidateStopIds pd).*1.
Proof. apply tripStops_fold. Qed.

Lemma tripStops_lookup tId sId :
  (objGet (NextTransit.tripStops stopA candidateStopIds pd) tId
     ≫= λ stops : gmap string NextTransit.TripStop, stops !! sId)
  = cellOf <$> last (List.filter
                       (λ r, validRow pd r
                             && relevantStop stopA candidateStopIds (st_stop_id r)
                             && (str_eqb (st_trip_id r) tId
                                 && str_eqb (st_stop_id r) sId))
                       (stopTimeRows pd)).
Proof. exact (proj2 (tripStops_fold (stopTimeRows pd)) tId sId). Qed.

Lemma tripStops_cell tId stops sId cell :
  (tId, stops) ∈ NextTransit.tripStops stopA candidateStopIds pd →
  stops !! sId = Some cell →
  ∃ r, r ∈ stopTimeRows pd ∧ validRow pd r = true ∧ st_trip_id r = tId
       ∧ st_stop_id r = sId ∧ relevantStop stopA candidateStopIds sId = true
       ∧ cell = cellOf r.
Proof.
  intros Hentry Hcell.
  apply elem_of_objGet in Hentry; [|apply tripStops_NoDup].
  pose proof (tripStops_lookup tId sId) as Hget.
  rewrite Hentry in Hget. cbn in Hget. rewrite Hcell in Hget.
  destruct (last _) as [r|] eqn:Hlast; [|done]. injection Hget as ->.
  apply last_elem_of, list_elem_of_In, filter_In in Hlast as [Hin Hr].
  apply list_elem_of_In in Hin.
  apply andb_true_iff in Hr as [Hr1 Hr2].
  apply andb_true_iff in Hr1 as [Hvalid Hrel].
  apply andb_true_iff in Hr2 as [Htrip Hstop].
  apply str_eqb_eq in Htrip, Hstop. subst tId sId.
  exists r. by repeat split.
Qed.

Lemma tripStops_complete r :
  noRepeatedCalls pd →
  r ∈ stopTimeRows pd → validRow pd r = true →
  relevantStop stopA candidateStopIds (st_stop_id r) = true →
  ∃ stops, (st_trip_id r, stops) ∈ NextTransit.tripStops stopA candidateStopIds pd
           ∧ stops !! st_stop_id r = Some (cellOf r).
Proof.
  intros Honce Hin Hvalid Hrel.
  pose proof (tripStops_lookup (st_trip_id r) (st_stop_id r)) as Hget.
  rewrite (last_all_equal _ r r) in Hget.
  - destruct (objGet _ (st_trip_id r)) as [stops|] eqn:Hstops; [|done].
    exists stops. split; [by apply objGet_elem_of|done].
  - apply list_elem_of_In, filter_In. split; [by apply list_elem_of_In|].
    by rewrite Hvalid, Hrel, !str_eqb_refl.
  - intros r' Hr'. apply list_elem_of_In, filter_In in Hr' as [Hin' Hr'].
    apply list_elem_of_In in Hin'.
    apply andb_true_iff in Hr' as [Hr1 Hr2].
    apply andb_true_iff in Hr1 as [Hvalid' _].
    apply andb_true_iff in Hr2 as [Htrip Hstop].
    apply str_eqb_eq in Htrip, Hstop.
    unfold noRepeatedCalls in Honce. rewrite Forall_forall in Honce.
    specialize (Honce r' Hin'). rewrite Forall_forall in Honce.
    by apply (Honce r Hin Hvalid').
Qed.

End TripStops.

Section Matches.
Context (pd : PreloadedData) (stopA : string) (candidateStops : list StopWithDistance).

Lemma elem_of_flat_map {A B} (f : A → list B) (l : list A) (y : B) :
  y ∈ flat_map f l ↔ ∃ x, x ∈ l ∧ y ∈ f x.
Proof.
  rewrite list_elem_of_In, in_flat_map. setoid_rewrite list_elem_of_In. done.
Qed.

Lemma matchesOfTrip_pairs tId stops a byDest :
  NextTransit.matchesOfTrip stopA candidateStops pd tId stops a byDest
  = foldl pushPair byDest (pairsOfTrip candidateStops pd tId stops a).
Proof.
  unfold NextTransit.matchesOfTrip, pairsOfTrip. revert byDest.
  induction candidateStops as [|c cs IH]; intros byDest; cbn; [done|].
  rewrite foldl_app, <- IH.
  destruct (stops !! stop_id c) as [b|]; [|done].
  destruct (jlt _ _); done.
Qed.

Lemma matchesByDest_pairs :
  NextTransit.matchesByDest stopA candidateStops pd
  = foldl pushPair [] (matchPairs stopA candidateStops pd).
Proof.
  unfold NextTransit.matchesByDest, matchPairs. rewrite foldl_flat_map.
  generalize (@nil (string * list NextTransit.Match)).
  induction (entries _) as [|[tId stops] es IH]; intros byDest; cbn; [done|].
  rewrite IH. f_equal.
  destruct (stops !! stopA); [apply matchesOfTrip_pairs|done].
Qed.

Lemma matchPairs_sound key m :
  (key, m) ∈ matchPairs stopA candidateStops pd →
  eligibleLeg pd stopA candidateStops m ∧ NextTransit.stopB m = key.
Proof.
  unfold matchPairs. intros Hin.
  apply elem_of_flat_map in Hin as ([tId stops] & Hentry & Hin). cbn in Hin.
  destruct (stops !! stopA) as [a|] eqn:Ha; [|by apply elem_of_nil in Hin].
  unfold pairsOfTrip in Hin.
  apply elem_of_flat_map in Hin as (c & Hc & Hin).
  destruct (stops !! stop_id c) as [b|] eqn:Hb; [|by apply elem_of_nil in Hin].
  destruct (jlt _ _) eqn:Hseq; [|by apply elem_of_nil in Hin].
  apply list_elem_of_singleton in Hin. injection Hin as -> ->.
  destruct (tripStops_cell _ _ _ _ _ _ _ Hentry Ha)
    as (ra & Hra & Hvalid & Htrip_a & Hstop_a & _ & ->).
  destruct (tripStops_cell _ _ _ _ _ _ _ Hentry Hb)
    as (rb & Hrb & _ & Htrip_b & Hstop_b & _ & ->).
  split; [|done]. exists ra, rb. repeat split; try done.
  - congruence.
  - rewrite Hstop_b. apply list_elem_of_fmap. by exists c.
  - unfold matchOf. cbn. by rewrite Htrip_a, Hstop_b.
Qed.

Lemma matchPairs_complete m :
  noRepeatedCalls pd →
  eligibleLeg pd stopA candidateStops m →
  (NextTransit.stopB m, m) ∈ matchPairs stopA candidateStops pd.
Proof.
  intros Honce (ra & rb & Hra & Hrb & Hvalid & Htrip & Hstop_a & Hcand & Hseq & ->).
  assert (Hvalid_b : validRow pd rb = true) by (unfold validRow in *; by rewrite Htrip).
  destruct (tripStops_complete pd stopA candidateStops ra Honce Hra Hvalid)
    as (stops & Hentry & Ha).
  { unfold relevantStop. by rewrite Hstop_a, str_eqb_refl. }
  destruct (tripStops_complete pd stopA candidateStops rb Honce Hrb Hvalid_b)
    as (stops' & Hentry' & Hb).
  { unfold relevantStop. apply orb_true_iff. right.
    apply bool_decide_eq_true_2. by apply elem_of_list_to_set. }
  rewrite Htrip in Hentry'.
  assert (stops' = stops) as ->.
  { apply elem_of_objGet in Hentry, Hentry'; try apply tripStops_NoDup. congruence. }
  apply list_elem_of_fmap in Hcand as (c & Hc & Hcand).
  unfold matchPairs. apply elem_of_flat_map.
  exists (st_trip_id ra, stops). split; [done|]. cbn.
  rewrite <- Hstop_a, Ha. unfold pairsOfTrip. apply elem_of_flat_map.
  exists c. split; [done|]. rewrite <- Hc, Hb. cbn. rewrite Hseq.
  apply list_elem_of_singleton. reflexivity.
Qed.

End Matches.

Section Selection.
Import NextTransit.
Context (candidateStops : list StopWithDistance) (userTime : string).

Lemma find_first {A} (p : A → bool) (l : list A) (x : A) :
  List.find p l = Some x →
  ∃ pre post, l = pre ++ x :: post ∧ p x = true ∧ Forall (λ y, p y = false) pre.
Proof.
  induction l as [|y l IH]; cbn; [done|]. destruct (p y) eqn:Hy.
  - intros [= ->]. by exists [], l.
  - intros Hfind. destruct (IH Hfind) as (pre & post & -> & Hx & Hpre).
    exists (y :: pre), post. repeat split; [done|by constructor].
Qed.

Lemma nextTripOf_earliest (matches : list Match) (m : Match) :
  nextTripOf userTime matches = Some m →
  m ∈ matches
  ∧ str_gt (m_departure_time m) userTime = true
  ∧ ∀ m', m' ∈ matches → str_gt (m_departure_time m') userTime = true →
          str_lt (m_departure_time m') (m_departure_time m) = false.
Proof.
  unfold nextTripOf, find. intros Hfind.
  set (gt := λ a b : Match, str_gt (m_departure_time a) (m_departure_time b)) in *.
  apply find_first in Hfind as (pre & post & Hsplit & Hm & Hpre).
  pose proof (sortBy_Permutation gt matches) as Hperm. rewrite Hsplit in Hperm.
  assert (Hsorted : StronglySorted (λ a b, gt a b = false) (pre ++ m :: post)).
  { rewrite <- Hsplit. apply (sortBy_sorted gt (λ _, True)).
    - intros a b _ _. apply str_gt_total.
    - intros a b c _ _ _. apply str_gt_trans.
    - by apply Forall_forall. }
  apply StronglySorted_app_inv in Hsorted as [_ Hafter].
  split; [|split; [done|]].
  - rewrite <- Hperm. apply elem_of_app. right. constructor.
  - intros m' Hm' Hlate. rewrite <- Hperm in Hm'.
    rewrite Forall_forall in Hpre, Hafter.
    apply elem_of_app in Hm' as [Hm'|Hm'].
    + rewrite (Hpre m' Hm') in Hlate. discriminate.
    + apply elem_of_cons in Hm' as [->|Hm']; [apply str_lt_irrefl|].
      exact (Hafter m' Hm').
Qed.


(** What the selection loop has done when it ends: nothing, if no
    destination has a departure after [userTime]; otherwise the trip it holds
    is the next one of some destination, and no destination scanned after
    that one satisfied the replacement test. *)
Lemma selection_loop (scan : list (string * list Match)) best d :
  foldl (selectStep candidateStops userTime) (None, Infinity) scan = (best, d) →
  match best with
  | None => Forall (λ e, nextTripOf userTime e.2 = None) scan
  | Some m =>
      ∃ before key matches after,
        scan = before ++ (key, matches) :: after
        ∧ nextTripOf userTime matches = Some m
        ∧ d = Fin (stopDistanceOf candidateStops key)
        ∧ Forall (λ e, ∀ m', nextTripOf userTime e.2 = Some m' →
                             replaces (stopDistanceOf candidateStops e.1)
                                      (m_departure_time m')
                                      (stopDistanceOf candidateStops key)
                                      (m_departure_time m) = false) after
  end.
Proof.
  revert best d. induction scan as [|[key ms] scan IH] using rev_ind; intros best d.
  - cbn. intros [= <- <-]. constructor.
  - rewrite foldl_snoc.
    destruct (foldl _ _ scan) as [best0 d0] eqn:Hfold.
    specialize (IH best0 d0 eq_refl). unfold selectStep at 1.
    destruct (nextTripOf userTime ms) as [nextTrip|] eqn:Hnext.
    2:{ intros [= <- <-]. destruct best0 as [m|].
        - destruct IH as (before & key0 & ms0 & after & -> & Hm & Hd & Hafter).
          exists before, key0, ms0, (after ++ [(key, ms)]).
          rewrite <- app_assoc. repeat split; try done.
          apply Forall_app. split; [done|]. constructor; [|done].
          intros m' Hm'. cbn [snd] in Hm'. congruence.
        - apply Forall_app. split; [done|]. by constructor. }
    destruct best0 as [bt|].
    2:{ intros [= <- <-]. exists scan, key, ms, []. by repeat split. }
    destruct IH as (before & key0 & ms0 & after & -> & Hm & -> & Hafter).
    change (dist_ltb (Fin (stopDistanceOf candidateStops key))
                     (dist_scale (Fin (stopDistanceOf candidateStops key0)) (8 # 10))
            || dist_ltb (Fin (stopDistanceOf candidateStops key))
                        (dist_scale (Fin (stopDistanceOf candidateStops key0)) (12 # 10))
               && str_lt (m_departure_time nextTrip) (m_departure_time bt))
      with (replaces (stopDistanceOf candidateStops key) (m_departure_time nextTrip)
                     (stopDistanceOf candidateStops key0) (m_departure_time bt)).
    destruct (replaces _ _ _ _) eqn:Hrep; intros [= <- <-].
    + exists (before ++ (key0, ms0) :: after), key, ms, []. by repeat split.
    + exists before, key0, ms0, (after ++ [(key, ms)]).
      rewrite <- app_assoc. repeat split; try done.
      apply Forall_app. split; [done|]. constructor; [|done].
      intros m' Hm'. cbn [fst snd] in *. congruence.
Qed.

(** The trip the loop holds in the end was taken at its destination by the
    rule: the loop held nothing until then, or a trip that the new one
    replaces; and no destination scanned later replaced it. *)
Lemma selection_loop_held (scan : list (string * list Match)) m d :
  foldl (selectStep candidateStops userTime) (None, Infinity) scan = (Some m, d) →
  ∃ before key matches after,
    scan = before ++ (key, matches) :: after
    ∧ nextTripOf userTime matches = Some m
    ∧ d = Fin (stopDistanceOf candidateStops key)
    ∧ match heldAfter candidateStops userTime before with
      | None => Forall (λ e, nextTripOf userTime e.2 = None) before
      | Some held =>
          ∃ keyh msh,
            (keyh, msh) ∈ before
            ∧ nextTripOf userTime msh = Some held
            ∧ replaces (stopDistanceOf candidateStops key) (m_departure_time m)
                       (stopDistanceOf candidateStops keyh) (m_departure_time held)
              = true
      end
    ∧ Forall (λ e, ∀ m', nextTripOf userTime e.2 = Some m' →
                         replaces (stopDistanceOf candidateStops e.1)
                                  (m_departure_time m')
                                  (stopDistanceOf candidateStops key)
                                  (m_departure_time m) = false) after.
Proof.
  revert m d. induction scan as [|[key ms] scan IH] using rev_ind; intros m d.
  - cbn. intros [=].
  - rewrite foldl_snoc.
    destruct (foldl _ _ scan) as [best0 d0] eqn:Hfold. unfold selectStep at 1.
    destruct (nextTripOf userTime ms) as [nextTrip|] eqn:Hnext.
    2:{ intros Hsame.
        destruct (IH m d Hsame)
          as (before & key0 & ms0 & after & -> & Hm & Hd & Hheld & Hafter).
        exists before, key0, ms0, (after ++ [(key, ms)]).
        rewrite <- app_assoc. repeat split; try done.
        apply Forall_app. split; [done|]. constructor; [|done].
        intros m' Hm'. cbn [snd] in Hm'. congruence. }
    destruct best0 as [bt|].
    2:{ intros [= <- <-]. exists scan, key, ms, []. split; [done|]. split; [done|].
        split; [done|]. split; [|done]. unfold heldAfter. rewrite Hfold. cbn [fst].
        exact (selection_loop scan None d0 Hfold). }
    destruct (IH bt d0 eq_refl)
      as (before & key0 & ms0 & after & Hsplit & Hbt & -> & Hheld & Hafter).
    change (dist_ltb (Fin (stopDistanceOf candidateStops key))
                     (dist_scale (Fin (stopDistanceOf candidateStops key0)) (8 # 10))
            || dist_ltb (Fin (stopDistanceOf candidateStops key))
                        (dist_scale (Fin (stopDistanceOf candidateStops key0)) (12 # 10))
               && str_lt (m_departure_time nextTrip) (m_departure_time bt))
      with (replaces (stopDistanceOf candidateStops key) (m_departure_time nextTrip)
                     (stopDistanceOf candidateStops key0) (m_departure_time bt)).
    destruct (replaces _ _ _ _) eqn:Hrep.
    + intros [= <- <-]. exists scan, key, ms, []. split; [done|]. split; [done|].
      split; [done|]. split; [|done]. unfold heldAfter. rewrite Hfold. cbn [fst].
      exists key0, ms0. split; [|done].
      rewrite Hsplit. apply elem_of_app. right. constructor.
    + intros [= <- <-]. exists before, key0, ms0, (after ++ [(key, ms)]).
      rewrite Hsplit, <- app_assoc. repeat split; try done.
      apply Forall_app. split; [done|]. constructor; [|done].
      intros m' Hm'. cbn [fst snd] in *. congruence.
Qed.

End Selection.

(** C1, as stated, fails: from A, target B2 (0.9 km from the destination) is
    reached by the 09:00 trip and target B1 (1 km) by the 08:00 trip.  The
    finder returns the leg to B1, although the leg to B2 is eligible and its
    target is strictly closer: 0.9 is not below 0.8 times 1, and 09:00 is not
    before 08:00. *)
Lemma closer_target_is_passed_over :
  (NextTransit.stopB <$>
     NextTransit.findBestDirectTrip "A" [targetStop "B2" (9 # 10); targetStop "B1" 1]
       "07:00:00" (loadFeed twoTargetsFeed)) = Some "B1"
  ∧ eligibleLeg (loadFeed twoTargetsFeed) "A"
      [targetStop "B2" (9 # 10); targetStop "B1" 1]
      {| NextTransit.m_trip_id := "T2"; NextTransit.m_departure_time := "09:00:00";
         NextTransit.arrival_at_B := "09:30:00"; NextTransit.m_route_id := "R";
         NextTransit.m_headsign := "Downtown"; NextTransit.stopB := "B2" |}
  ∧ str_gt "09:00:00" "07:00:00" = true
  ∧ Qltb (NextTransit.stopDistanceOf [targetStop "B2" (9 # 10); targetStop "B1" 1] "B2")
         (NextTransit.stopDistanceOf [targetStop "B2" (9 # 10); targetStop "B1" 1] "B1")
    = true.
Proof.
  split; [vm_compute; reflexivity|]. split; [|split; vm_compute; reflexivity].
  exists {| st_trip_id := "T2"; st_stop_id := "A"; st_seq := Some 1;
            st_arr := "09:00:00"; st_dep := "09:00:00" |},
         {| st_trip_id := "T2"; st_stop_id := "B2"; st_seq := Some 2;
            st_arr := "09:30:00"; st_dep := "09:30:00" |}.
  repeat split; try (vm_compute; reflexivity).
  - apply (bool_decide_eq_true_1 (_ ∈ stopTimeRows _)). vm_compute. reflexivity.
  - apply (bool_decide_eq_true_1 (_ ∈ stopTimeRows _)). vm_compute. reflexivity.
  - apply (bool_decide_eq_true_1 (_ ∈ (_ : list string))). vm_compute. reflexivity.
Qed.


(** C1, amended.  On a feed whose [stop_times.txt] is plain (every line has
    its cells, stop sequences are digits, departure times are written
    [HH:MM:SS], no id is a property name of [Object.prototype]) and in which
    no trip calls at a stop twice, the leg the direct-trip finder returns is
    eligible (its trip is valid, leaves the source strictly after T0 and
    reaches the target stop at a strictly greater stop sequence), and no
    eligible leg to the same target stop departs earlier after T0.  Between
    target stops the choice is not a strict minimum of (distance, departure):
    the finder scans the reachable target stops in the order of its
    [matchesByDest] object, each with its next departure.  The returned leg is
    the next departure of its stop; when the scan reached that stop the finder
    held nothing, no stop before having a departure after T0, or it held a leg
    that the returned one replaces by the rule (distance below 0.8 times the
    held stop's, or below 1.2 times with a strictly earlier departure); and no
    stop scanned later passes that rule against the returned leg. *)
Theorem direct_trip_is_eligible_earliest_within_tolerance
    (pd : PreloadedData) (stopA : string) (candidateStops : list StopWithDistance)
    (userTime : string) (m : NextTransit.Match) :
  plainRows pd →
  noRepeatedCalls pd →
  NextTransit.findBestDirectTrip stopA candidateStops userTime pd = Some m →
  eligibleLeg pd stopA candidateStops m
  ∧ str_gt (NextTransit.m_departure_time m) userTime = true
  ∧ (∀ m', eligibleLeg pd stopA candidateStops m' →
           NextTransit.stopB m' = NextTransit.stopB m →
           str_gt (NextTransit.m_departure_time m') userTime = true →
           str_lt (NextTransit.m_departure_time m') (NextTransit.m_departure_time m)
           = false)
  ∧ ∃ before matches after,
      entries (NextTransit.matchesByDest stopA candidateStops pd)
      = before ++ (NextTransit.stopB m, matches) :: after
      ∧ NextTransit.nextTripOf userTime matches = Some m
      ∧ match heldAfter candidateStops userTime before with
        | None => Forall (λ e, NextTransit.nextTripOf userTime e.2 = None) before
        | Some held =>
            replaces (NextTransit.stopDistanceOf candidateStops (NextTransit.stopB m))
                     (NextTransit.m_departure_time m)
                     (NextTransit.stopDistanceOf candidateStops
                        (NextTransit.stopB held))
                     (NextTransit.m_departure_time held) = true
        end
      ∧ Forall (λ e, ∀ m', NextTransit.nextTripOf userTime e.2 = Some m' →
                           replaces (NextTransit.stopDistanceOf candidateStops e.1)
                                    (NextTransit.m_departure_time m')
                                    (NextTransit.stopDistanceOf candidateStops
                                       (NextTransit.stopB m))
                                    (NextTransit.m_departure_time m) = false)
               after.
Proof.
  intros _ Honce Hbest. unfold NextTransit.findBestDirectTrip in Hbest.
  destruct (bool_decide _); [done|].
  destruct (foldl _ _ _) as [best d] eqn:Hfold. cbn in Hbest. subst best.
  apply selection_loop_held in Hfold
    as (before & key & ms & after & Hscan & Hnext & _ & Hheld & Hafter).
  destruct (nextTripOf_earliest userTime ms m Hnext) as (Hin & Hlate & Hearliest).
  assert (Hsound : ∀ k msk mk,
            (k, msk) ∈ NextTransit.matchesByDest stopA candidateStops pd →
            NextTransit.nextTripOf userTime msk = Some mk →
            NextTransit.stopB mk = k).
  { intros k msk mk Hentry Hmk.
    destruct (nextTripOf_earliest userTime msk mk Hmk) as (Hink & _ & _).
    assert (Hpair : (k, mk) ∈ matchPairs stopA candidateStops pd).
    { rewrite matchesByDest_pairs in Hentry. by eapply pushAll_entry. }
    by destruct (matchPairs_sound pd stopA candidateStops k mk Hpair). }
  assert (Hentry : (key, ms) ∈ NextTransit.matchesByDest stopA candidateStops pd).
  { unfold entries in Hscan. rewrite Hscan. apply elem_of_app. right. constructor. }
  assert (Hpair : (key, m) ∈ matchPairs stopA candidateStops pd).
  { rewrite matchesByDest_pairs in Hentry. by eapply pushAll_entry. }
  destruct (matchPairs_sound pd stopA candidateStops key m Hpair) as [Heligible Hkey].
  subst key. split; [done|]. split; [done|]. split.
  - intros m' Hm' Hsame Hlate'. apply Hearliest; [|done].
    apply (matchPairs_complete pd stopA candidateStops m' Honce) in Hm'.
    apply pushAll_complete in Hm' as (ms' & Hentry' & Hin').
    rewrite <- matchesByDest_pairs, Hsame in Hentry'.
    assert (ms' = ms) as ->; [|done].
    assert (Hnd : NoDup (NextTransit.matchesByDest stopA candidateStops pd).*1).
    { rewrite matchesByDest_pairs. apply pushAll_spec. }
    apply (elem_of_objGet _ _ _ Hnd) in Hentry, Hentry'. congruence.
  - exists before, ms, after. split; [done|]. split; [done|]. split; [|done].
    destruct (heldAfter candidateStops userTime before) as [held|]; [|done].
    destruct Hheld as (keyh & msh & Hinh & Hnexth & Hrep).
    assert (Hkeyh : NextTransit.stopB held = keyh).
    { apply (Hsound keyh msh); [|done].
      unfold entries in Hscan. rewrite Hscan. apply elem_of_app. by left. }
    by rewrite Hkeyh.
Qed.

Lemma direct_trip_is_eligible_earliest_within_tolerance_witness :
  plainRows (loadFeed twoTargetsFeed)
  ∧ noRepeatedCalls (loadFeed twoTargetsFeed)
  ∧ ∃ m, NextTransit.findBestDirectTrip "A"
           [targetStop "B2" (9 # 10); targetStop "B1" 1] "07:00:00"
           (loadFeed twoTargetsFeed) = Some m
         ∧ NextTransit.stopB m = "B1"
         ∧ eligibleLeg (loadFeed twoTargetsFeed) "A"
             [targetStop "B2" (9 # 10); targetStop "B1" 1] m
         ∧ str_gt (NextTransit.m_departure_time m) "07:00:00" = true.
Proof.
  assert (Hplain : plainRows (loadFeed twoTargetsFeed)) by (vm_compute; reflexivity).
  assert (Honce : noRepeatedCalls (loadFeed twoTargetsFeed)).
  { apply (bool_decide_eq_true_1 (noRepeatedCalls (loadFeed twoTargetsFeed))).
    vm_compute. reflexivity. }
  split; [exact Hplain|]. split; [exact Honce|].
  destruct (NextTransit.findBestDirectTrip "A"
              [targetStop "B2" (9 # 10); targetStop "B1" 1] "07:00:00"
              (loadFeed twoTargetsFeed)) as [m|] eqn:Hbest;
    [|vm_compute in Hbest; discriminate].
  exists m. split; [reflexivity|].
  destruct (direct_trip_is_eligible_earliest_within_tolerance
              (loadFeed twoTargetsFeed) "A"
              [targetStop "B2" (9 # 10); targetStop "B1" 1] "07:00:00" m
              Hplain Honce Hbest)
    as (Heligible & Hlate & _).
  split; [|split; assumption].
  vm_compute in Hbest. injection Hbest as <-. reflexivity.
Defined.

(** ** Where the claims that fail do hold *)

(** X23.  The transfer buffer is kept whenever adding it does not pass
    midnight: a departure that the test [compareTime(conn.departure_time,
    nextAvailableTime) < 0] lets through is at least five minutes of the day
    after the arrival. *)
Lemma transfer_buffer_kept_before_2355 (h m s h' m' s' : Z) :
  wellFormedTime h m s → wellFormedTime h' m' s' →
  60 * h + m + TRANSFER_TIME_MINUTES < 24 * 60 →
  0 <= compareTime (timeString h' m' s')
         (addMinutesToTime (timeString h m s) TRANSFER_TIME_MINUTES) →
  ∃ wait, timeDifferenceMinutes (timeString h m s) (timeString h' m' s') = Some wait
          ∧ TRANSFER_TIME_MINUTES <= wait.
Proof.
  unfold TRANSFER_TIME_MINUTES. intros (Hh & Hm & Hs) (Hh' & Hm' & Hs') Hday Hcmp.
  rewrite addMinutesToTime_timeString in Hcmp by lia.
  pose proof (Z.mod_pos_bound ((60 * h + m + 5) / 60) 24 ltac:(lia)) as HbH.
  pose proof (Z.mod_pos_bound (m + 5) 60 ltac:(lia)) as HbM.
  unfold compareTime in Hcmp. rewrite !secondsOfDay_timeString in Hcmp by lia.
  unfold timeDifferenceMinutes. rewrite !minutesOfDay_timeString by lia.
  eexists. split; [reflexivity|]. cbn [jlt jgt] in Hcmp.
  destruct (_ <? _) eqn:Hlt in Hcmp; [lia|]. apply Z.ltb_ge in Hlt. clear Hcmp.
  revert Hlt. Z.to_euclidean_division_equations. lia.
Qed.

(** On a stop that no trip calls at twice, the connections are the ones the
    specification words. *)
Lemma single_calls_match_the_specification
    (pd : PreloadedData) (stopId afterTime : string) :
  (∀ r1 r2, r1 ∈ stopTimeRows pd → r2 ∈ stopTimeRows pd →
            st_trip_id r2 = st_trip_id r1 →
            st_stop_id r1 = stopId → st_stop_id r2 = stopId →
            jlt (st_seq r2) (st_seq r1) = false) →
  expectedConnections stopId afterTime pd = specifiedConnections stopId afterTime pd.
Proof.
  intros Honce. unfold expectedConnections, specifiedConnections.
  apply flat_map_ext_elem_of. intros r Hr. unfold expectedFrom, boards, isFirstCall.
  destruct (str_eqb (st_stop_id r) stopId) eqn:Hstop;
    [|by rewrite !andb_false_r].
  apply str_eqb_eq in Hstop.
  replace (forallb _ (stopTimeRows pd)) with true; [done|].
  symmetry. apply forallb_forall. intros r2 Hr2. apply list_elem_of_In in Hr2.
  apply negb_true_iff.
  destruct (str_eqb (st_trip_id r2) (st_trip_id r)) eqn:Htrip; [|done].
  destruct (str_eqb (st_stop_id r2) stopId) eqn:Hstop2; [|done]. cbn.
  apply str_eqb_eq in Htrip, Hstop2. by apply Honce.
Qed.

(** X24.  The walk fallback of [main] in [find_transit_bfs.js] compares no
    scores: it keeps the first route that a walkable stop gives, in the order
    of [nearbyStops], with a walk of [ceil(m / 80)] minutes to that stop. *)
Lemma bfs_fallback_takes_first_route
    (stopAInfo : option entry) (targetStops : gset string)
    (targetStopsList : list StopWithDistance) (userTime : string)
    (maxTransfers : Z) (pd : PreloadedData) (nearbyStops : list StopWithDistance)
    (journey : Journey) :
  bfsSearchNearby stopAInfo targetStops targetStopsList userTime maxTransfers pd
    nearbyStops = Some journey →
  ∃ skipped nearbyStop rest walk,
    nearbyStops = skipped ++ nearbyStop :: rest
    ∧ Forall (λ s, Bfs.bfsSearch (stop_id s) targetStops targetStopsList userTime
                     maxTransfers pd = None) skipped
    ∧ Bfs.bfsSearch (stop_id nearbyStop) targetStops targetStopsList userTime
        maxTransfers pd = Some (journey_route journey)
    ∧ journey_walk journey = Some walk
    ∧ walk_to walk = nearbyStop
    ∧ walk_time walk = Qceiling (distance nearbyStop * 1000 / 80).
Proof.
  induction nearbyStops as [|s rest IH]; cbn; [done|].
  destruct (Bfs.bfsSearch (stop_id s) _ _ _ _ _) as [r|] eqn:Hsearch.
  - intros [= <-]. exists [], s, rest. eexists. by repeat split.
  - intros Hrest.
    destruct (IH Hrest) as (skipped & s' & rest' & walk & -> & Hskipped & Hrest').
    exists (s :: skipped), s', rest', walk. split; [done|].
    split; [by constructor|done].
Qed.
(** * Further properties of the scripts

    Properties that the code shows beyond the claims of the specification:
    of the helpers the claims rest on, of the orchestrating [main] functions,
    and of [find_next_transit.js]. *)

(** ** Times: the two orders, short strings, differences and sums *)

Lemma compare_digitChar x y :
  0 <= x < 10 → 0 <= y < 10 →
  Ascii.compare (digitChar x) (digitChar y) = (x ?= y).
Proof.
  intros Hx Hy.
  assert (Hall : bool_decide (Forall (λ x, Forall (λ y, Ascii.compare (digitChar x) (digitChar y) = (x ?= y)) (seqZ 0 10)) (seqZ 0 10)) = true)
    by (vm_compute; reflexivity).
  apply bool_decide_eq_true_1 in Hall.
  rewrite Forall_forall in Hall. specialize (Hall x).
  rewrite Forall_forall in Hall. apply Hall; apply elem_of_seqZ; lia.
Qed.

Lemma compare_twoDigits a b r1 r2 :
  0 <= a < 100 → 0 <= b < 100 →
  String.compare (twoDigits a +:+ r1) (twoDigits b +:+ r2)
  = match a ?= b with Eq => String.compare r1 r2 | c => c end.
Proof.
  intros Ha Hb. unfold twoDigits.
  change (String.compare (String (digitChar (a / 10)) (String (digitChar (a mod 10)) r1))
            (String (digitChar (b / 10)) (String (digitChar (b mod 10)) r2)) = 
          match a ?= b with Eq => String.compare r1 r2 | c => c end).
  cbn [String.compare].
  rewrite !compare_digitChar by (Z.to_euclidean_division_equations; lia).
  destruct (Z.compare_spec (a / 10) (b / 10)), (Z.compare_spec (a mod 10) (b mod 10)),
    (Z.compare_spec a b); try reflexivity; exfalso;
    Z.to_euclidean_division_equations; lia.
Qed.

Lemma string_compare_refl s : String.compare s s = Eq.
Proof.
  pose proof (String.compare_antisym s s) as H.
  destruct (String.compare s s); done.
Qed.

Lemma compare_colon r1 r2 :
  String.compare (":" +:+ r1) (":" +:+ r2) = String.compare r1 r2.
Proof. reflexivity. Qed.

Lemma compare_timeString h1 m1 s1 h2 m2 s2 :
  wellFormedTime h1 m1 s1 → wellFormedTime h2 m2 s2 →
  String.compare (timeString h1 m1 s1) (timeString h2 m2 s2)
  = ((h1 * 3600 + m1 * 60 + s1) ?= (h2 * 3600 + m2 * 60 + s2)).
Proof.
  intros (Hh1 & Hm1 & Hs1) (Hh2 & Hm2 & Hs2). unfold timeString.
  rewrite compare_twoDigits, compare_colon, compare_twoDigits, compare_colon by lia.
  replace (twoDigits s1) with (twoDigits s1 +:+ "") by (unfold twoDigits; reflexivity).
  replace (twoDigits s2) with (twoDigits s2 +:+ "") by (unfold twoDigits; reflexivity).
  rewrite compare_twoDigits by lia. cbn [String.compare].
  destruct (Z.compare_spec h1 h2), (Z.compare_spec m1 m2), (Z.compare_spec s1 s2),
    (Z.compare_spec (h1 * 3600 + m1 * 60 + s1) (h2 * 3600 + m2 * 60 + s2));
    try reflexivity; exfalso; lia.
Qed.

Lemma compareTime_timeString h1 m1 s1 h2 m2 s2 :
  wellFormedTime h1 m1 s1 → wellFormedTime h2 m2 s2 →
  compareTime (timeString h1 m1 s1) (timeString h2 m2 s2)
  = match (h1 * 3600 + m1 * 60 + s1) ?= (h2 * 3600 + m2 * 60 + s2) with
    | Lt => -1 | Eq => 0 | Gt => 1
    end.
Proof.
  intros (Hh1 & Hm1 & Hs1) (Hh2 & Hm2 & Hs2). unfold compareTime.
  rewrite !secondsOfDay_timeString by lia. cbn [jlt jgt].
  destruct (Z.compare_spec (h1 * 3600 + m1 * 60 + s1) (h2 * 3600 + m2 * 60 + s2)).
  - rewrite H. rewrite !Z.ltb_irrefl. reflexivity.
  - apply Z.ltb_lt in H as ->. reflexivity.
  - assert ((h1 * 3600 + m1 * 60 + s1 <? h2 * 3600 + m2 * 60 + s2) = false) as -> by lia.
    apply Z.ltb_lt in H as ->. reflexivity.
Qed.

(** X1.  On times written [HH:MM:SS] with two digits each, the order of the
    strings, which [find_next_transit.js] uses, and [compareTime], which the
    searches use, agree: the string is smaller exactly when [compareTime]
    gives -1, larger exactly when it gives 1, and [compareTime] gives 0
    exactly for equal strings. *)
Theorem time_orders_agree h1 m1 s1 h2 m2 s2 :
  wellFormedTime h1 m1 s1 → wellFormedTime h2 m2 s2 →
  (str_lt (timeString h1 m1 s1) (timeString h2 m2 s2) = true
   ↔ compareTime (timeString h1 m1 s1) (timeString h2 m2 s2) = -1)
  ∧ (str_gt (timeString h1 m1 s1) (timeString h2 m2 s2) = true
     ↔ compareTime (timeString h1 m1 s1) (timeString h2 m2 s2) = 1)
  ∧ (compareTime (timeString h1 m1 s1) (timeString h2 m2 s2) = 0
     ↔ timeString h1 m1 s1 = timeString h2 m2 s2).
Proof.
  intros H1 H2. unfold str_lt, str_gt, String.ltb.
  rewrite (compare_timeString h1 m1 s1 h2 m2 s2), (compare_timeString h2 m2 s2 h1 m1 s1),
    compareTime_timeString by assumption.
  rewrite (Z.compare_antisym (h1 * 3600 + m1 * 60 + s1)).
  destruct H1 as (Hh1 & Hm1 & Hs1), H2 as (Hh2 & Hm2 & Hs2).
  destruct (Z.compare_spec (h1 * 3600 + m1 * 60 + s1) (h2 * 3600 + m2 * 60 + s2)) as [Heq|Hlt|Hgt];
    cbn; repeat split; try done; try lia.
  - intros _. assert (h1 = h2 ∧ m1 = m2 ∧ s1 = s2) as (-> & -> & ->) by lia. reflexivity.
  - intros Heq. exfalso.
    pose proof (string_compare_refl (timeString h2 m2 s2)) as H.
    rewrite <- Heq in H at 1.
    rewrite compare_timeString in H by (unfold wellFormedTime; lia).
    apply Z.compare_eq in H. lia.
  - intros Heq. exfalso.
    pose proof (string_compare_refl (timeString h2 m2 s2)) as H.
    rewrite <- Heq in H at 1.
    rewrite compare_timeString in H by (unfold wellFormedTime; lia).
    apply Z.compare_eq in H. lia.
Qed.

Lemma time_orders_agree_witness :
  wellFormedTime 8 5 0 ∧ wellFormedTime 10 0 0
  ∧ (str_lt (timeString 8 5 0) (timeString 10 0 0) = true
     ↔ compareTime (timeString 8 5 0) (timeString 10 0 0) = -1)
  ∧ (str_gt (timeString 8 5 0) (timeString 10 0 0) = true
     ↔ compareTime (timeString 8 5 0) (timeString 10 0 0) = 1)
  ∧ (compareTime (timeString 8 5 0) (timeString 10 0 0) = 0
     ↔ timeString 8 5 0 = timeString 10 0 0).
Proof.
  assert (H1 : wellFormedTime 8 5 0) by (unfold wellFormedTime; lia).
  assert (H2 : wellFormedTime 10 0 0) by (unfold wellFormedTime; lia).
  split; [exact H1|]. split; [exact H2|].
  exact (time_orders_agree 8 5 0 10 0 0 H1 H2).
Defined.

(** X2.  A time with fewer than three fields ([08:00], or an empty cell) has
    no number of seconds: [compareTime] gives 0 for it against every time, on
    either side. *)
Theorem short_time_compares_equal (t u : string) :
  (length (split ":" t) < 3)%nat →
  compareTime t u = 0 ∧ compareTime u t = 0.
Proof.
  intros Hshort.
  assert (Hnan : secondsOfDay t = None).
  { unfold secondsOfDay, field.
    destruct (split ":" t !! 2%nat) eqn:Hl.
    - apply lookup_lt_Some in Hl. lia.
    - destruct (jadd (jmul _ _) _); reflexivity. }
  unfold compareTime, jgt. rewrite Hnan.
  destruct (secondsOfDay u); done.
Qed.

Lemma short_time_compares_equal_witness :
  (length (split ":" "") < 3)%nat
  ∧ compareTime "" "08:00:00" = 0 ∧ compareTime "08:00:00" "" = 0.
Proof.
  assert (H : (length (split ":" "") < 3)%nat) by (vm_compute; lia).
  split; [exact H|]. exact (short_time_compares_equal "" "08:00:00" H).
Defined.

(** X3.  [timeDifferenceMinutes] is the difference of the minutes of the day
    and ignores the seconds; differences add up along a chain of times, and
    swapping the arguments changes the sign. *)
Theorem timeDifferenceMinutes_ignores_seconds h1 m1 s1 h2 m2 s2 h3 m3 s3 :
  wellFormedTime h1 m1 s1 → wellFormedTime h2 m2 s2 → wellFormedTime h3 m3 s3 →
  timeDifferenceMinutes (timeString h1 m1 s1) (timeString h2 m2 s2)
  = Some ((h2 * 60 + m2) - (h1 * 60 + m1))
  ∧ jadd (timeDifferenceMinutes (timeString h1 m1 s1) (timeString h2 m2 s2))
         (timeDifferenceMinutes (timeString h2 m2 s2) (timeString h3 m3 s3))
    = timeDifferenceMinutes (timeString h1 m1 s1) (timeString h3 m3 s3)
  ∧ timeDifferenceMinutes (timeString h2 m2 s2) (timeString h1 m1 s1)
    = jsub (Some 0) (timeDifferenceMinutes (timeString h1 m1 s1) (timeString h2 m2 s2)).
Proof.
  intros (Hh1 & Hm1 & Hs1) (Hh2 & Hm2 & Hs2) (Hh3 & Hm3 & Hs3).
  unfold timeDifferenceMinutes. rewrite !minutesOfDay_timeString by lia.
  cbn [jsub jadd]. repeat split; f_equal; lia.
Qed.

Lemma timeDifferenceMinutes_ignores_seconds_witness :
  wellFormedTime 8 5 30 ∧ wellFormedTime 9 15 10 ∧ wellFormedTime 10 0 0
  ∧ timeDifferenceMinutes (timeString 8 5 30) (timeString 9 15 10) = Some 70.
Proof.
  assert (H1 : wellFormedTime 8 5 30) by (unfold wellFormedTime; lia).
  assert (H2 : wellFormedTime 9 15 10) by (unfold wellFormedTime; lia).
  assert (H3 : wellFormedTime 10 0 0) by (unfold wellFormedTime; lia).
  split; [exact H1|]. split; [exact H2|]. split; [exact H3|].
  exact (proj1 (timeDifferenceMinutes_ignores_seconds 8 5 30 9 15 10 10 0 0 H1 H2 H3)).
Defined.

(** X4.  Adding minutes twice is adding the sum once.  The difference from a
    time to the time [a] minutes later is [a] reduced modulo the day: it is
    [a] itself as long as the sum stays before midnight. *)
Theorem addMinutesToTime_composes hh mm ss a b :
  wellFormedTime hh mm ss → 0 <= a → 0 <= b →
  addMinutesToTime (addMinutesToTime (timeString hh mm ss) a) b
  = addMinutesToTime (timeString hh mm ss) (a + b)
  ∧ timeDifferenceMinutes (timeString hh mm ss) (addMinutesToTime (timeString hh mm ss) a)
    = Some ((60 * hh + mm + a) mod 1440 - (60 * hh + mm))
  ∧ (60 * hh + mm + a < 1440 →
     timeDifferenceMinutes (timeString hh mm ss) (addMinutesToTime (timeString hh mm ss) a)
     = Some a).
Proof.
  intros (Hh & Hm & Hs) Ha Hb.
  pose proof (Z.mod_pos_bound ((60 * hh + mm + a) / 60) 24 ltac:(lia)) as HbH.
  pose proof (Z.mod_pos_bound (mm + a) 60 ltac:(lia)) as HbM.
  assert (Htd : timeDifferenceMinutes (timeString hh mm ss)
                  (addMinutesToTime (timeString hh mm ss) a)
                = Some ((60 * hh + mm + a) mod 1440 - (60 * hh + mm))).
  { rewrite addMinutesToTime_timeString by lia.
    unfold timeDifferenceMinutes. rewrite !minutesOfDay_timeString by lia.
    cbn [jsub]. f_equal. Z.to_euclidean_division_equations. lia. }
  split; [|split].
  - rewrite (addMinutesToTime_timeString hh mm ss a) by lia.
    rewrite !addMinutesToTime_timeString by lia.
    f_equal; Z.to_euclidean_division_equations; lia.
  - exact Htd.
  - intros Hday. rewrite Htd. f_equal. rewrite Z.mod_small by lia. lia.
Qed.

Lemma addMinutesToTime_composes_witness :
  wellFormedTime 23 50 0
  ∧ addMinutesToTime (addMinutesToTime (timeString 23 50 0) 5) 10
    = addMinutesToTime (timeString 23 50 0) (5 + 10)
  ∧ timeDifferenceMinutes (timeString 23 50 0) (addMinutesToTime (timeString 23 50 0) 15)
    = Some ((60 * 23 + 50 + 15) mod 1440 - (60 * 23 + 50)).
Proof.
  assert (H : wellFormedTime 23 50 0) by (unfold wellFormedTime; lia).
  split; [exact H|]. split.
  - exact (proj1 (addMinutesToTime_composes 23 50 0 5 10 H ltac:(lia) ltac:(lia))).
  - exact (proj1 (proj2 (addMinutesToTime_composes 23 50 0 15 0 H ltac:(lia) ltac:(lia)))).
Defined.

(** ** Feed files: rows, quoted lines, unquoted lines *)

Lemma string_app_assoc (a b c : string) : (a +:+ b) +:+ c = a +:+ (b +:+ c).
Proof.
  induction a as [|x a IH]; [done|].
  change (String x ((a +:+ b) +:+ c) = String x (a +:+ (b +:+ c))). by f_equal.
Qed.

Lemma string_app_nil_r (a : string) : a +:+ "" = a.
Proof.
  induction a as [|x a IH]; [done|].
  change (String x (a +:+ "") = String x a). by f_equal.
Qed.

Lemma csvFields_inside_quotes s rest cur :
  hasChar dquote s = false →
  csvFields (s +:+ rest) cur true = csvFields rest (cur +:+ s) true.
Proof.
  revert cur. induction s as [|c s IH]; intros cur Hs.
  - by rewrite string_app_nil_r.
  - cbn [hasChar] in Hs. apply orb_false_iff in Hs as [Hc Hs].
    change (String c s +:+ rest) with (String c (s +:+ rest)).
    cbn [csvFields]. rewrite Hc, andb_false_r, IH by done.
    rewrite string_app_assoc. done.
Qed.

Lemma csvFields_separator rest cur :
  csvFields (quoteCommaQuote +:+ rest) cur true = cur :: csvFields rest "" true.
Proof. reflexivity. Qed.

Lemma csvFields_closing_quote cur :
  csvFields (String dquote "") cur true = [cur].
Proof. reflexivity. Qed.

Lemma csvFields_quoted_cells cells cur :
  cells ≠ [] →
  Forall (λ c, hasChar dquote c = false) cells →
  csvFields (String.concat quoteCommaQuote cells +:+ String dquote "") cur true
  = match cells with
    | c :: rest => (cur +:+ c) :: rest
    | [] => []
    end.
Proof.
  intros Hne Hall. revert cur Hne.
  induction Hall as [|c rest Hc Hrest IH]; intros cur Hne; [done|].
  destruct rest as [|c2 rest].
  - cbn [String.concat]. rewrite csvFields_inside_quotes by done.
    apply csvFields_closing_quote.
  - change (String.concat quoteCommaQuote (c :: c2 :: rest))
      with (c +:+ quoteCommaQuote +:+ String.concat quoteCommaQuote (c2 :: rest)).
    rewrite !string_app_assoc, csvFields_inside_quotes by done.
    rewrite csvFields_separator, IH by done. done.
Qed.

Lemma csvFields_quotedLine cells :
  cells ≠ [] →
  Forall (λ c, hasChar dquote c = false) cells →
  csvFields (quotedLine cells) "" false = cells.
Proof.
  intros Hne Hall. unfold quotedLine.
  change (csvFields (String.concat quoteCommaQuote cells +:+ String dquote "") "" true
          = cells).
  rewrite csvFields_quoted_cells by done. by destruct cells.
Qed.

Lemma splitStr_nonempty sep skip s : splitStr sep skip s ≠ [].
Proof.
  revert skip. induction s as [|c s IH]; intros skip; cbn [splitStr]; [done|].
  destruct skip; [|apply IH].
  destruct (String.prefix sep (String c s)); [done|].
  by destruct (splitStr sep 0 s).
Qed.

Lemma splitStr_inside_cell c rest :
  hasChar dquote c = false →
  splitStr quoteCommaQuote 0 (c +:+ rest)
  = match splitStr quoteCommaQuote 0 rest with
    | x :: xs => (c +:+ x) :: xs
    | [] => [c]
    end.
Proof.
  induction c as [|a c IH]; intros Hc.
  - change ("" +:+ rest) with rest.
    pose proof (splitStr_nonempty quoteCommaQuote 0 rest).
    by destruct (splitStr _ _ rest).
  - cbn [hasChar] in Hc. apply orb_false_iff in Hc as [Ha Hc].
    change (String a c +:+ rest) with (String a (c +:+ rest)).
    cbn [splitStr].
    assert (String.prefix quoteCommaQuote (String a (c +:+ rest)) = false) as ->.
    { unfold quoteCommaQuote. cbn [String.prefix].
      destruct (ascii_dec dquote a) as [<-|_]; [|done].
      by rewrite Ascii.eqb_refl in Ha. }
    rewrite IH by done.
    pose proof (splitStr_nonempty quoteCommaQuote 0 rest).
    by destruct (splitStr _ _ rest).
Qed.

Lemma prefix_app s rest : String.prefix s (s +:+ rest) = true.
Proof.
  induction s as [|a s IH]; [by destruct rest|].
  change (String a s +:+ rest) with (String a (s +:+ rest)).
  cbn [String.prefix]. by destruct (ascii_dec a a).
Qed.

Lemma splitStr_separator rest :
  splitStr quoteCommaQuote 0 (quoteCommaQuote +:+ rest)
  = "" :: splitStr quoteCommaQuote 0 rest.
Proof.
  pose proof (prefix_app quoteCommaQuote rest) as Hprefix.
  unfold quoteCommaQuote in *.
  change (String dquote (String "," (String dquote "")) +:+ rest)
    with (String dquote (String "," (String dquote rest))) in *.
  cbn [splitStr]. rewrite Hprefix. reflexivity.
Qed.

Lemma dropLastQuote_closing c : dropLastQuote (c +:+ String dquote "") = c.
Proof.
  induction c as [|a c IH]; [done|].
  change (String a c +:+ String dquote "") with (String a (c +:+ String dquote "")).
  cbn [dropLastQuote]. rewrite IH. by destruct c.
Qed.

Lemma mapLast_singleton {A} (f : A → A) x : mapLast f [x] = [f x].
Proof. reflexivity. Qed.

Lemma mapLast_cons {A} (f : A → A) x l : l ≠ [] → mapLast f (x :: l) = x :: mapLast f l.
Proof.
  intros Hl. unfold mapLast. rewrite reverse_cons.
  destruct (reverse l) as [|y r] eqn:Hr.
  - apply (f_equal reverse) in Hr. rewrite reverse_involutive in Hr. done.
  - change ((y :: r) ++ [x]) with (y :: (r ++ [x])). cbv beta iota.
    by rewrite !reverse_cons, reverse_snoc.
Qed.

Lemma lineParts_quoted_cells cells :
  cells ≠ [] →
  Forall (λ c, hasChar dquote c = false) cells →
  mapLast dropLastQuote
    (splitStr quoteCommaQuote 0
       (String.concat quoteCommaQuote cells +:+ String dquote ""))
  = cells.
Proof.
  intros Hne Hall. revert Hne.
  induction Hall as [|c rest Hc Hrest IH]; intros Hne; [done|].
  destruct rest as [|c2 rest].
  - cbn [String.concat]. rewrite splitStr_inside_cell by done.
    change (splitStr quoteCommaQuote 0 (String dquote ""))
      with [String dquote ""]. cbv beta iota.
    by rewrite mapLast_singleton, dropLastQuote_closing.
  - change (String.concat quoteCommaQuote (c :: c2 :: rest))
      with (c +:+ quoteCommaQuote +:+ String.concat quoteCommaQuote (c2 :: rest)).
    rewrite !string_app_assoc, splitStr_inside_cell by done.
    rewrite splitStr_separator, string_app_nil_r. cbv beta iota.
    rewrite mapLast_cons by apply splitStr_nonempty.
    by rewrite IH.
Qed.

Lemma first_cell_is_no_separator c1 rest :
  hasChar dquote c1 = false → c1 ≠ "," →
  String.prefix quoteCommaQuote
    (String dquote (String.concat quoteCommaQuote (c1 :: rest) +:+ String dquote ""))
  = false.
Proof.
  intros Hc1 Hfirst.
  assert (∃ R, String.concat quoteCommaQuote (c1 :: rest) +:+ String dquote ""
               = c1 +:+ String dquote R) as [R ->].
  { destruct rest as [|c2 rest].
    - by exists "".
    - eexists. change (String.concat quoteCommaQuote (c1 :: c2 :: rest))
        with (c1 +:+ quoteCommaQuote +:+ String.concat quoteCommaQuote (c2 :: rest)).
      rewrite !string_app_assoc. reflexivity. }
  unfold quoteCommaQuote. cbn [String.prefix].
  destruct (ascii_dec dquote dquote); [|done].
  destruct c1 as [|a c1].
  { change ("" +:+ String dquote R) with (String dquote R). cbn [String.prefix].
    destruct (ascii_dec "," dquote) as [Heq|]; [|done].
    vm_compute in Heq. discriminate. }
  change (String a c1 +:+ String dquote R) with (String a (c1 +:+ String dquote R)).
  cbn [String.prefix].
  destruct (ascii_dec "," a) as [<-|]; [|done].
  destruct c1 as [|b c1]; [done|].
  change (String b c1 +:+ String dquote R) with (String b (c1 +:+ String dquote R)).
  cbn [hasChar] in Hc1. apply orb_false_iff in Hc1 as [_ Hc1].
  apply orb_false_iff in Hc1 as [Hb _].
  cbn [String.prefix].
  destruct (ascii_dec dquote b) as [<-|]; [|done].
  by rewrite Ascii.eqb_refl in Hb.
Qed.

Lemma lineParts_quotedLine cells :
  cells ≠ [] →
  Forall (λ c, hasChar dquote c = false) cells →
  head cells ≠ Some "," →
  lineParts (quotedLine cells) = cells.
Proof.
  intros Hne Hall Hfirst. unfold lineParts, quotedLine.
  set (body := String.concat quoteCommaQuote cells +:+ String dquote "").
  assert (Hprefix : String.prefix quoteCommaQuote (String dquote body) = false).
  { unfold body. destruct cells as [|c1 rest]; [done|].
    apply Forall_cons in Hall as [Hc1 _].
    apply first_cell_is_no_separator; [done|]. intros ->. by apply Hfirst. }
  cbn [splitStr]. rewrite Hprefix.
  pose proof (splitStr_nonempty quoteCommaQuote 0 body) as Hparts.
  pose proof (lineParts_quoted_cells cells Hne Hall) as Hcells. fold body in Hcells.
  destruct (splitStr quoteCommaQuote 0 body) as [|p ps]; [done|].
  cbn [stripLeadingQuote]. rewrite Ascii.eqb_refl. exact Hcells.
Qed.

(** X5.  A line that holds every cell in double quotes, the cells free of
    quotes (commas are allowed), is split into its cells by the reader of
    [parseCSV], and also by the split of [stop_times.txt] lines unless the
    first cell is a lone comma. *)
Theorem quoted_line_is_read_back_by_both_parsers (cells : list string) :
  cells ≠ [] →
  Forall (λ c, hasChar dquote c = false) cells →
  csvFields (quotedLine cells) "" false = cells
  ∧ (head cells ≠ Some "," → lineParts (quotedLine cells) = cells).
Proof.
  intros Hne Hall. split.
  - by apply csvFields_quotedLine.
  - intros Hfirst. by apply lineParts_quotedLine.
Qed.

Lemma quoted_line_is_read_back_by_both_parsers_witness :
  csvFields (quotedLine ["T1"; "08:00:00"; "Main St, north"]) "" false
  = ["T1"; "08:00:00"; "Main St, north"]
  ∧ (head ["T1"; "08:00:00"; "Main St, north"] ≠ Some "," →
     lineParts (quotedLine ["T1"; "08:00:00"; "Main St, north"])
     = ["T1"; "08:00:00"; "Main St, north"]).
Proof.
  apply (quoted_line_is_read_back_by_both_parsers ["T1"; "08:00:00"; "Main St, north"]).
  - discriminate.
  - repeat constructor.
Defined.

Lemma csvEntry_snoc headers h values :
  csvEntry (headers ++ [h]) values
  = <[h := csvValue values (length headers)]> (csvEntry headers values).
Proof.
  unfold csvEntry. rewrite imap_app, foldl_app. cbn.
  by rewrite Nat.add_0_r.
Qed.

Lemma csvEntry_dom headers values :
  dom (csvEntry headers values) = list_to_set headers.
Proof.
  induction headers as [|h headers IH] using rev_ind; [apply dom_empty_L|].
  rewrite csvEntry_snoc, dom_insert_L, IH, list_to_set_app_L. cbn.
  rewrite (right_id_L ∅ (∪)). apply (comm_L (∪)).
Qed.

Lemma csvEntry_lookup headers values idx h :
  headers !! idx = Some h → h ∉ drop (S idx) headers →
  csvEntry headers values !! h = Some (csvValue values idx).
Proof.
  induction headers as [|h' headers IH] using rev_ind; [done|].
  intros Hidx Hlast. rewrite csvEntry_snoc.
  destruct (decide (idx = length headers)) as [->|Hne].
  - rewrite lookup_app_r, Nat.sub_diag in Hidx by lia. injection Hidx as ->.
    by rewrite lookup_insert_eq.
  - assert (idx < length headers)%nat as Hlt.
    { apply lookup_lt_Some in Hidx. rewrite length_app in Hidx. cbn in Hidx. lia. }
    rewrite lookup_app_l in Hidx by done.
    rewrite drop_app_le in Hlast by lia.
    apply not_elem_of_app in Hlast as [Hlast Hh].
    rewrite lookup_insert_ne by (intros ->; apply Hh; constructor).
    by apply IH.
Qed.

Lemma parseCSV_rows content e :
  e ∈ parseCSV content
  ↔ ∃ line, line ∈ tail (split newline (trim content)) ∧ trim line ≠ ""
            ∧ e = csvEntry (csvHeaders content) (csvFields (trim line) "" false).
Proof.
  unfold parseCSV. rewrite list_elem_of_omap. split.
  - intros (line & Hline & He). exists line. split; [done|].
    destruct (str_eqb (trim line) "") eqn:Hblank; [done|].
    injection He as <-. split; [|done]. intros Heq. rewrite Heq in Hblank. done.
  - intros (line & Hline & Hblank & ->). exists line. split; [done|].
    by rewrite str_eqb_ne by done.
Qed.

(** X6.  Every row of [parseCSV] comes from a line after the header that is
    not blank, has exactly the header's names as its columns, and holds under
    a name the cell at the name's position, without its quotes; when a name is
    repeated, its last position counts.  A missing or empty cell reads as the
    empty string. *)
Theorem parseCSV_rows_have_the_header_columns (content : string) (e : entry) :
  e ∈ parseCSV content →
  dom e = list_to_set (csvHeaders content)
  ∧ ∃ line, line ∈ tail (split newline (trim content)) ∧ trim line ≠ ""
      ∧ ∀ idx h, csvHeaders content !! idx = Some h →
                 h ∉ drop (S idx) (csvHeaders content) →
                 e !! h = Some (csvValue (csvFields (trim line) "" false) idx).
Proof.
  intros He. apply parseCSV_rows in He as (line & Hline & Hblank & ->).
  split; [apply csvEntry_dom|]. exists line. split; [done|]. split; [done|].
  intros idx h. apply csvEntry_lookup.
Qed.

Lemma parseCSV_rows_have_the_header_columns_witness :
  ∃ e, e ∈ parseCSV (joinLines ["route_id,route_type"; "R,3"])
       ∧ dom e = list_to_set (csvHeaders (joinLines ["route_id,route_type"; "R,3"])).
Proof.
  pose proof (parseCSV_rows_have_the_header_columns
                (joinLines ["route_id,route_type"; "R,3"])) as Hrow.
  destruct (parseCSV (joinLines ["route_id,route_type"; "R,3"])) as [|e rest] eqn:Hrows;
    [vm_compute in Hrows; discriminate|].
  assert (He : e ∈ e :: rest) by (apply elem_of_cons; by left).
  exists e. split; [exact He|]. exact (proj1 (Hrow e He)).
Defined.

Lemma splitStr_no_quote line :
  hasChar dquote line = false → splitStr quoteCommaQuote 0 line = [line].
Proof.
  intros Hline. rewrite <- (string_app_nil_r line) at 1.
  rewrite splitStr_inside_cell by done. cbn. by rewrite string_app_nil_r.
Qed.

Lemma dropLastQuote_no_quote s : hasChar dquote s = false → dropLastQuote s = s.
Proof.
  induction s as [|a s IH]; [done|]. cbn [hasChar]. intros H.
  apply orb_false_iff in H as [Ha Hs]. cbn [dropLastQuote].
  destruct s as [|b s]; [by rewrite Ha|]. by rewrite IH.
Qed.

Lemma lineParts_no_quote line :
  hasChar dquote line = false → lineParts line = [line].
Proof.
  intros Hline. unfold lineParts. rewrite splitStr_no_quote by done.
  rewrite mapLast_singleton. f_equal.
  destruct line as [|a s]; [done|]. cbn [stripLeadingQuote].
  cbn [hasChar] in Hline. apply orb_false_iff in Hline as [Ha Hs].
  rewrite Ha. apply dropLastQuote_no_quote. cbn [hasChar]. by rewrite Ha.
Qed.

Lemma no_valid_rows_no_trips pd :
  Forall (λ row, validRow pd row = false) (stopTimeRows pd) →
  tripStopMap pd = []
  ∧ ∀ stopA candidateStopIds, NextTransit.tripStops stopA candidateStopIds pd = [].
Proof.
  unfold tripStopMap, NextTransit.tripStops.
  induction (stopTimeRows pd) as [|row rows IH] using rev_ind; intros Hall; [done|].
  apply Forall_app in Hall as [Hrows Hrow]. apply Forall_inv in Hrow.
  cbv beta in Hrow.
  destruct (IH Hrows) as [IH1 IH2]. split; [|intros stopA ids].
  - rewrite foldl_snoc. cbv beta. by rewrite Hrow.
  - rewrite foldl_snoc. cbv beta zeta. unfold validRow in Hrow. by rewrite Hrow.
Qed.

(** X7.  When the lines of [stop_times.txt] after the header hold commas
    but no double quote, and no valid trip has an empty id or one with a
    comma, each line stays in one piece under the split at the quoted comma
    and names no valid trip: no stop has a connection, and the direct-trip
    finder finds nothing, whatever the lines offer. *)
Theorem unquoted_stop_times_give_no_trips
    (pd : PreloadedData) :
  Forall (λ line, hasChar dquote line = false ∧ hasChar "," line = true)
         (tail (stopTimeLines pd)) →
  (∀ k, k ∈ validTripIds pd → hasChar "," k = false ∧ k ≠ "") →
  (∀ stopId afterTime, getDirectConnections stopId afterTime pd = [])
  ∧ (∀ stopA candidateStops userTime,
       NextTransit.findBestDirectTrip stopA candidateStops userTime pd = None).
Proof.
  intros Hlines Hids.
  assert (Hrows : Forall (λ row, validRow pd row = false) (stopTimeRows pd)).
  { unfold stopTimeRows. apply Forall_fmap. eapply Forall_impl; [exact Hlines|].
    intros line [Hq Hc]. cbn. unfold validRow, stopTimeRow. cbn [st_trip_id].
    rewrite lineParts_no_quote by done.
    apply bool_decide_eq_false_2. intros Hk. apply Hids in Hk as [Hk Hne].
    unfold cell in *. destruct (indexOf "trip_id" (stHeaders pd)) as [[|i]|].
    - change (default "" ([line] !! 0%nat)) with line in *. congruence.
    - by change (default "" ([line] !! S i)) with "" in *.
    - done. }
  apply no_valid_rows_no_trips in Hrows as [Hmap Hstops]. split.
  - intros. unfold getDirectConnections. by rewrite Hmap.
  - intros. unfold NextTransit.findBestDirectTrip, NextTransit.matchesByDest.
    rewrite Hstops. by case_bool_decide.
Qed.

Lemma unquoted_stop_times_give_no_trips_witness :
  elements (validTripIds (loadFeed unquotedFeed)) = ["T1"]
  ∧ ∀ stopId afterTime,
      getDirectConnections stopId afterTime (loadFeed unquotedFeed) = [].
Proof.
  assert (Hids : elements (validTripIds (loadFeed unquotedFeed)) = ["T1"])
    by (vm_compute; reflexivity).
  split; [exact Hids|].
  apply (unquoted_stop_times_give_no_trips (loadFeed unquotedFeed)).
  - vm_compute. repeat constructor.
  - intros k Hk. apply elem_of_elements in Hk. rewrite Hids in Hk.
    apply list_elem_of_singleton in Hk as ->. split; [reflexivity|discriminate].
Defined.

(** ** The searches: what a returned route is made of *)

Lemma endOf_cons s l rest : endOf s (l :: rest) = endOf (to l) rest.
Proof. unfold endOf. rewrite last_cons. by destruct (last rest). Qed.
Lemma endTime_cons t l rest : endTime t (l :: rest) = endTime (arrival l) rest.
Proof. unfold endTime. rewrite last_cons. by destruct (last rest). Qed.
Lemma endOf_snoc s p l : endOf s (p ++ [l]) = to l.
Proof. unfold endOf. by rewrite last_snoc. Qed.
Lemma endTime_snoc t p l : endTime t (p ++ [l]) = arrival l.
Proof. unfold endTime. by rewrite last_snoc. Qed.

Lemma validPath_snoc pd s t f p l :
  validPath pd s t f (p ++ [l])
  ↔ validPath pd s t f p
    ∧ from l = endOf s p
    ∧ connOfLeg l ∈ getDirectConnections (endOf s p) (endTime t p) pd
    ∧ 0 <= compareTime (departure l)
             (if nonEmpty p
              then addMinutesToTime (endTime t p) TRANSFER_TIME_MINUTES
              else if f then t else addMinutesToTime t TRANSFER_TIME_MINUTES).
Proof.
  revert s t f. induction p as [|l0 p IH]; intros s t f.
  - cbn. unfold endOf, endTime. cbn. tauto.
  - cbn [app validPath]. rewrite IH. rewrite endOf_cons, endTime_cons.
    cbn [nonEmpty]. destruct p; cbn [nonEmpty]; tauto.
Qed.

Lemma countTransfers_snoc p l :
  countTransfers (p ++ [l])
  = countTransfers p
    + match last p with
      | Some l0 => if changesVehicle l0 l then 1 else 0
      | None => 0
      end.
Proof.
  induction p as [|l0 p IH]; [done|].
  destruct p as [|l1 p].
  - cbn. lia.
  - change ((l0 :: l1 :: p) ++ [l]) with (l0 :: ((l1 :: p) ++ [l])).
    rewrite (last_cons l0). change (last (l1 :: p)) with (last (l1 :: p)) in *.
    destruct (last (l1 :: p)) as [lz|] eqn:Hlast.
    + cbn [countTransfers app] in *. rewrite IH. lia.
    + rewrite last_cons in Hlast. destruct (last p); done.
Qed.

Lemma countTransfers_nonneg p : 0 <= countTransfers p.
Proof.
  induction p as [|l0 p IH]; [done|]. destruct p; [done|].
  cbn [countTransfers] in *. destruct (changesVehicle _ _); lia.
Qed.

Section PathInvariant.
Context (targetStops : gset string) (targetStopsList : list StopWithDistance)
        (maxTransfers : Z) (pd : PreloadedData) (startStop startTime : string).

Local Abbreviation goodItem := (wellBuiltItem targetStops pd startStop startTime).
Local Abbreviation goodRoute :=
  (wellBuiltRoute targetStops targetStopsList pd startStop startTime).
Local Abbreviation goodBest :=
  (wellBuiltBest targetStops targetStopsList pd startStop startTime).
Local Abbreviation bfsGood :=
  (bfsWellBuilt targetStops targetStopsList maxTransfers pd startStop startTime).
Local Abbreviation combinedGood :=
  (combinedWellBuilt targetStops targetStopsList maxTransfers pd startStop startTime).

Lemma isTransfer_changes current conn :
  isTransfer current conn
  = match last (q_path current) with
    | Some l0 => changesVehicle l0 (legOf current conn)
    | None => false
    end.
Proof. unfold isTransfer. by destruct (last (q_path current)). Qed.

Lemma nextTransfers current conn :
  q_numTransfers current = countTransfers (q_path current) →
  (if isTransfer current conn then q_numTransfers current + 1 else q_numTransfers current)
  = countTransfers (q_path current ++ [legOf current conn]).
Proof.
  intros ->. rewrite countTransfers_snoc, isTransfer_changes.
  destruct (last (q_path current)) as [l0|]; [|lia].
  destruct (changesVehicle _ _); lia.
Qed.

Lemma extended_path_valid current conn nextAvailableTime :
  goodItem current →
  conn ∈ getDirectConnections (q_stop current) (q_time current) pd →
  nextAvailableTime
  = (if nonEmpty (q_path current)
     then addMinutesToTime (q_time current) TRANSFER_TIME_MINUTES
     else q_time current) →
  (compareTime (departure_time conn) nextAvailableTime <? 0) = false →
  validPath pd startStop startTime true (q_path current ++ [legOf current conn]).
Proof.
  intros (Hpath & Hstop & Htime & _) Hconn -> Hcmp.
  apply validPath_snoc. split; [done|]. rewrite <- Hstop, <- Htime.
  split; [done|]. split; [destruct conn; exact Hconn|].
  apply Z.ltb_ge in Hcmp. cbn [legOf departure].
  destruct (nonEmpty (q_path current)) eqn:Hne; [done|].
  destruct (q_path current); [|done]. unfold endTime in Htime. cbn in Htime.
  by rewrite <- Htime.
Qed.

(** *** [find_transit_bfs.js] *)

Lemma bfs_recordCandidate_good r st :
  goodRoute (maxTransfers + 1) r → bfsGood st → bfsGood (Bfs.recordCandidate r st).
Proof.
  intros Hr [Hq Hb]. unfold Bfs.recordCandidate. case_match; [|done].
  split; [done|]. intros r' [= <-]. done.
Qed.

Lemma bfs_insertQueue_good item queue :
  goodItem item → Forall goodItem queue → Forall goodItem (Bfs.insertQueue item queue).
Proof.
  intros Hi Hq. unfold Bfs.insertQueue.
  rewrite spliceBefore_Permutation. by constructor.
Qed.

Lemma bfs_visitConnection_good current next st conn :
  goodItem current → q_numTransfers current <= maxTransfers →
  conn ∈ getDirectConnections (q_stop current) (q_time current) pd →
  next = (if nonEmpty (q_path current)
          then addMinutesToTime (q_time current) TRANSFER_TIME_MINUTES
          else q_time current) →
  bfsGood st →
  match Bfs.visitConnection targetStops targetStopsList maxTransfers current next st conn with
  | Return r => goodBest (maxTransfers + 1) r
  | Continue st' => bfsGood st'
  end.
Proof.
  intros Hcur Hmax Hconn Hnext Hst. unfold Bfs.visitConnection.
  destruct (compareTime _ _ <? 0) eqn:Hcmp; [done|].
  pose proof (extended_path_valid current conn next Hcur Hconn Hnext Hcmp) as Hpath.
  destruct Hcur as (Hp & Hs & Ht & Hn & Hnt).
  pose proof (nextTransfers current conn Hn) as Hcount.
  destruct (bool_decide (conn_stop_id conn ∈ targetStops)) eqn:Htarget.
  - apply bool_decide_eq_true in Htarget.
    match goal with |- context [Bfs.recordCandidate ?r st] =>
      assert (Hr : goodRoute (maxTransfers + 1) r) end.
    { repeat split; cbn [path finalStop finalTime numTransfers distanceToDestination].
      - done.
      - by rewrite endOf_snoc.
      - by rewrite endTime_snoc.
      - done.
      - done.
      - intros _. destruct (isTransfer current conn); lia. }
    pose proof (bfs_recordCandidate_good _ st Hr Hst) as Hgood.
    destruct (dist_ltb _ (Fin _)); [apply Hgood|exact Hgood].
  - apply bool_decide_eq_false in Htarget.
    destruct (Bfs.hasDirect st); [done|].
    destruct (maxTransfers <? _) eqn:Hover; [done|].
    destruct Hst as [Hq Hb]. split; [|done]. cbn [Bfs.queue].
    apply bfs_insertQueue_good; [|done].
    repeat split; cbn [q_path q_stop q_time q_numTransfers].
    + done.
    + by rewrite endOf_snoc.
    + by rewrite endTime_snoc.
    + done.
    + done.
Qed.

Lemma bfs_visitConnections_good current next connections st :
  goodItem current → q_numTransfers current <= maxTransfers →
  Forall (λ conn, conn ∈ getDirectConnections (q_stop current) (q_time current) pd)
         connections →
  next = (if nonEmpty (q_path current)
          then addMinutesToTime (q_time current) TRANSFER_TIME_MINUTES
          else q_time current) →
  bfsGood st →
  match Bfs.visitConnections targetStops targetStopsList maxTransfers current next st
          connections with
  | Return r => goodBest (maxTransfers + 1) r
  | Continue st' => bfsGood st'
  end.
Proof.
  intros Hcur Hmax Hall Hnext. revert st.
  induction Hall as [|conn rest Hconn Hrest IH]; intros st Hst; [done|].
  cbn [Bfs.visitConnections].
  pose proof (bfs_visitConnection_good current next st conn Hcur Hmax Hconn Hnext Hst) as H.
  destruct (Bfs.visitConnection _ _ _ _ _ _ _); [done|]. by apply IH.
Qed.

Lemma bfs_visit_good current st :
  goodItem current → bfsGood st →
  match Bfs.visit targetStops targetStopsList maxTransfers pd current st with
  | Return r => goodBest (maxTransfers + 1) r
  | Continue st' => bfsGood st'
  end.
Proof.
  intros Hcur Hst. unfold Bfs.visit.
  destruct (bool_decide (q_stop current ∈ targetStops)) eqn:Htarget.
  { apply bool_decide_eq_true in Htarget. by destruct Hcur as (_ & _ & _ & _ & Hout). }
  destruct (Bfs.hasDirect st && nonEmpty (q_path current)); [done|].
  destruct (maxTransfers <? q_numTransfers current) eqn:Hmax; [done|].
  apply Z.ltb_ge in Hmax.
  destruct (match Bfs.bestRoute st with Some _ => _ | None => false end); [done|].
  destruct (bool_decide (visitedKey current ∈ Bfs.visited st)); [done|].
  unfold Bfs.expand.
  apply bfs_visitConnections_good; try done.
  apply Forall_forall. auto.
Qed.

Lemma bfs_search_good fuel st :
  bfsGood st →
  goodBest (maxTransfers + 1)
    (Bfs.search targetStops targetStopsList maxTransfers pd fuel st).1.
Proof.
  revert st. induction fuel as [|fuel IH]; intros st Hst; cbn [Bfs.search].
  { apply Hst. }
  destruct (Bfs.queue st) as [|current rest] eqn:Hqueue; [apply Hst|].
  destruct Hst as [Hq Hb]. rewrite Hqueue in Hq. apply Forall_cons in Hq as [Hcur Hrest].
  match goal with |- context [Bfs.visit _ _ _ _ _ ?s] =>
    pose proof (bfs_visit_good current s Hcur) as Hvisit end.
  destruct (Bfs.visit _ _ _ _ _ _) as [r|st'].
  - cbn. apply Hvisit. by split.
  - apply IH, Hvisit. by split.
Qed.

(** *** [find_transit_combined.js] *)

Lemma combined_recordCandidate_good r st :
  goodRoute maxTransfers r → combinedGood st →
  match Combined.recordCandidate r st with
  | Return best => goodBest maxTransfers best
  | Continue st' => combinedGood st'
  end.
Proof.
  intros Hr [Hq Hb]. unfold Combined.recordCandidate.
  destruct (dist_ltb _ _); [|done].
  destruct (_ || _); cbn.
  - by intros r' [= <-].
  - split; [done|]. by intros r' [= <-].
Qed.

Lemma combined_insertQueue_good item queue :
  goodItem item → Forall goodItem queue → Forall goodItem (Combined.insertQueue item queue).
Proof.
  intros Hi Hq. unfold Combined.insertQueue.
  rewrite spliceBefore_Permutation. by constructor.
Qed.

Lemma combined_visitConnection_good current next st conn :
  goodItem current →
  conn ∈ getDirectConnections (q_stop current) (q_time current) pd →
  next = (if nonEmpty (q_path current)
          then addMinutesToTime (q_time current) TRANSFER_TIME_MINUTES
          else q_time current) →
  combinedGood st →
  match Combined.visitConnection targetStops targetStopsList maxTransfers current next
          st conn with
  | Return r => goodBest maxTransfers r
  | Continue st' => combinedGood st'
  end.
Proof.
  intros Hcur Hconn Hnext Hst. unfold Combined.visitConnection.
  destruct (compareTime _ _ <? 0) eqn:Hcmp; [done|].
  pose proof (extended_path_valid current conn next Hcur Hconn Hnext Hcmp) as Hpath.
  destruct Hcur as (Hp & Hs & Ht & Hn & Hnt).
  pose proof (nextTransfers current conn Hn) as Hcount.
  destruct (maxTransfers <? _) eqn:Hover; [done|]. apply Z.ltb_ge in Hover.
  destruct (Combined.bestHas st 0 && _); [done|].
  destruct (Combined.bestHas st 1 && _) eqn:Hone; [done|].
  destruct (bool_decide (conn_stop_id conn ∈ targetStops)) eqn:Htarget.
  - apply bool_decide_eq_true in Htarget.
    apply combined_recordCandidate_good; [|done].
    repeat split; cbn [path finalStop finalTime numTransfers distanceToDestination].
    + done.
    + by rewrite endOf_snoc.
    + by rewrite endTime_snoc.
    + done.
    + done.
    + done.
  - apply bool_decide_eq_false in Htarget.
    destruct (Combined.bestHas st 0); [done|].
    destruct Hst as [Hq Hb]. split; [|done]. cbn [Combined.queue].
    apply combined_insertQueue_good; [|done].
    repeat split; cbn [q_path q_stop q_time q_numTransfers].
    + done.
    + by rewrite endOf_snoc.
    + by rewrite endTime_snoc.
    + done.
    + done.
Qed.

Lemma combined_visitConnections_good current next connections st :
  goodItem current →
  Forall (λ conn, conn ∈ getDirectConnections (q_stop current) (q_time current) pd)
         connections →
  next = (if nonEmpty (q_path current)
          then addMinutesToTime (q_time current) TRANSFER_TIME_MINUTES
          else q_time current) →
  combinedGood st →
  match Combined.visitConnections targetStops targetStopsList maxTransfers current next st
          connections with
  | Return r => goodBest maxTransfers r
  | Continue st' => combinedGood st'
  end.
Proof.
  intros Hcur Hall Hnext. revert st.
  induction Hall as [|conn rest Hconn Hrest IH]; intros st Hst; [done|].
  cbn [Combined.visitConnections].
  pose proof (combined_visitConnection_good current next st conn Hcur Hconn Hnext Hst) as H.
  destruct (Combined.visitConnection _ _ _ _ _ _ _); [done|]. by apply IH.
Qed.

Lemma combined_visit_good current st :
  goodItem current → combinedGood st →
  match Combined.visit targetStops targetStopsList maxTransfers pd current st with
  | Return r => goodBest maxTransfers r
  | Continue st' => combinedGood st'
  end.
Proof.
  intros Hcur Hst. unfold Combined.visit.
  destruct (bool_decide (q_stop current ∈ targetStops)) eqn:Htarget.
  { apply bool_decide_eq_true in Htarget. by destruct Hcur as (_ & _ & _ & _ & Hout). }
  destruct (Combined.bestHas st 0 && nonEmpty (q_path current)); [done|].
  destruct (Combined.bestHas st 1 && _); [done|].
  destruct (maxTransfers <? q_numTransfers current) eqn:Hmax; [done|].
  destruct (bool_decide (visitedKey current ∈ Combined.visited st)); [done|].
  unfold Combined.expand.
  apply combined_visitConnections_good; try done.
  apply Forall_forall. auto.
Qed.

Lemma combined_search_good fuel st :
  combinedGood st →
  goodBest maxTransfers
    (Combined.search targetStops targetStopsList maxTransfers pd fuel st).1.
Proof.
  revert st. induction fuel as [|fuel IH]; intros st Hst; cbn [Combined.search].
  { apply Hst. }
  destruct (Combined.queue st) as [|current rest] eqn:Hqueue; [apply Hst|].
  destruct Hst as [Hq Hb]. rewrite Hqueue in Hq. apply Forall_cons in Hq as [Hcur Hrest].
  match goal with |- context [Combined.visit _ _ _ _ _ ?s] =>
    pose proof (combined_visit_good current s Hcur) as Hvisit end.
  destruct (Combined.visit _ _ _ _ _ _) as [r|st'].
  - cbn. apply Hvisit. by split.
  - apply IH, Hvisit. by split.
Qed.

End PathInvariant.

Lemma bfsSearch_good startStop targetStops targetStopsList startTime maxTransfers pd r :
  Bfs.bfsSearch startStop targetStops targetStopsList startTime maxTransfers pd = Some r →
  wellBuiltRoute targetStops targetStopsList pd startStop startTime (maxTransfers + 1) r.
Proof.
  unfold Bfs.bfsSearch. case_bool_decide as Hstart.
  - intros [= <-]. repeat split; cbn; done.
  - unfold Bfs.bfsRun. intros Hrun.
    eapply bfs_search_good; [|exact Hrun].
    split; [|done]. cbn. constructor; [|done].
    repeat split; cbn; done.
Qed.

Lemma combined_bfsSearch_good startStop targetStops targetStopsList startTime maxTransfers pd r :
  Combined.bfsSearch startStop targetStops targetStopsList startTime maxTransfers pd = Some r →
  wellBuiltRoute targetStops targetStopsList pd startStop startTime maxTransfers r.
Proof.
  unfold Combined.bfsSearch. case_bool_decide as Hstart.
  - intros [= <-]. repeat split; cbn; done.
  - unfold Combined.bfsRun. intros Hrun.
    eapply combined_search_good; [|exact Hrun].
    split; [|done]. cbn. constructor; [|done].
    repeat split; cbn; done.
Qed.

Lemma compareTime_values t u :
  compareTime t u = -1 ∨ compareTime t u = 0 ∨ compareTime t u = 1.
Proof. unfold compareTime. repeat case_match; auto. Qed.

Lemma getDirectConnections_from_rows pd stopId afterTime conn :
  conn ∈ getDirectConnections stopId afterTime pd →
  ∃ src dst,
    src ∈ stopTimeRows pd ∧ dst ∈ stopTimeRows pd
    ∧ validRow pd src = true
    ∧ st_trip_id dst = st_trip_id src
    ∧ st_stop_id src = stopId
    ∧ compareTime (st_dep src) afterTime = 1
    ∧ conn = connectionOf pd src dst.
Proof.
  unfold getDirectConnections, entries. intros Hconn.
  apply elem_of_flat_map in Hconn as ([tripId stops] & Hentry & Hconn).
  apply tripStopMap_entry in Hentry as [-> Hvalid].
  unfold connectionsOfTrip in Hconn.
  set (sorted := sortBy seqAfter (infoOf <$> validRowsOfTrip pd tripId)) in *.
  assert (Hrows : ∀ info, info ∈ sorted →
            ∃ row, row ∈ stopTimeRows pd ∧ validRow pd row = true
                   ∧ st_trip_id row = tripId ∧ info = infoOf row).
  { intros info Hin. unfold sorted in Hin. rewrite sortBy_Permutation in Hin.
    apply list_elem_of_fmap in Hin as (row & -> & Hrow).
    apply list_elem_of_In, filter_In in Hrow as [Hrow Hp].
    apply andb_true_iff in Hp as [Hv Ht]. apply str_eqb_eq in Ht.
    apply list_elem_of_In in Hrow. by exists row. }
  destruct (findIndex _ sorted) as [i|] eqn:Hfind; [|by apply elem_of_nil in Hconn].
  destruct (sorted !! i) as [stopInfo|] eqn:Hi; [|by apply elem_of_nil in Hconn].
  destruct (compareTime (si_dep stopInfo) afterTime <=? 0) eqn:Hcmp;
    [by apply elem_of_nil in Hconn|].
  apply Z.leb_gt in Hcmp.
  apply list_elem_of_fmap in Hconn as (destStop & -> & Hdest).
  apply findIndex_Some in Hfind as (pre & x & post & Hsplit & Hlen & Hx & _).
  assert (x = stopInfo) as ->.
  { rewrite Hsplit in Hi. rewrite lookup_app_r in Hi by lia.
    replace (i - length pre)%nat with 0%nat in Hi by lia. by injection Hi. }
  apply str_eqb_eq in Hx.
  destruct (Hrows stopInfo) as (src & Hsrc & Hvsrc & Htsrc & ->).
  { by eapply list_elem_of_lookup_2. }
  destruct (Hrows destStop) as (dst & Hdst & Hvdst & Htdst & ->).
  { apply list_elem_of_lookup_1 in Hdest as [j Hj]. rewrite lookup_drop in Hj.
    by eapply list_elem_of_lookup_2. }
  exists src, dst. repeat split; try done.
  - congruence.
  - cbn in Hcmp. destruct (compareTime_values (st_dep src) afterTime) as [?|[?|?]]; lia.
  - unfold connectionOf. cbn. by rewrite Htsrc.
Qed.

Lemma validPath_head pd s t f l rest :
  validPath pd s t f (l :: rest) →
  from l = s ∧ connOfLeg l ∈ getDirectConnections s t pd.
Proof. cbn. tauto. Qed.

Lemma validPath_pairs pd s t f p i l1 l2 :
  validPath pd s t f p →
  p !! i = Some l1 → p !! S i = Some l2 →
  from l2 = to l1
  ∧ connOfLeg l2 ∈ getDirectConnections (to l1) (arrival l1) pd
  ∧ 0 <= compareTime (departure l2)
           (addMinutesToTime (arrival l1) TRANSFER_TIME_MINUTES).
Proof.
  revert s t f i. induction p as [|l p IH]; intros s t f i Hvalid H1 H2; [done|].
  destruct Hvalid as (_ & _ & _ & Hrest).
  destruct i as [|i].
  - cbn in H1, H2. injection H1 as ->.
    destruct p as [|l' p]; [done|]. cbn in H2. injection H2 as ->.
    cbn in Hrest. tauto.
  - cbn in H1, H2. eapply IH; eauto.
Qed.

Lemma validPath_legs pd s t f p l :
  validPath pd s t f p → l ∈ p →
  ∃ time, connOfLeg l ∈ getDirectConnections (from l) time pd.
Proof.
  revert s t f. induction p as [|l0 p IH]; intros s t f Hvalid Hin.
  - by apply elem_of_nil in Hin.
  - destruct Hvalid as (Hfrom & Hconn & _ & Hrest).
    apply elem_of_cons in Hin as [->|Hin].
    + exists t. by rewrite Hfrom.
    + by eapply IH.
Qed.

Lemma searches_good startStop targetStops targetStopsList startTime maxTransfers pd r :
  Bfs.bfsSearch startStop targetStops targetStopsList startTime maxTransfers pd = Some r
  ∨ Combined.bfsSearch startStop targetStops targetStopsList startTime maxTransfers pd
    = Some r →
  ∃ bound, wellBuiltRoute targetStops targetStopsList pd startStop startTime bound r.
Proof.
  intros [H|H].
  - eexists. by eapply bfsSearch_good.
  - eexists. by eapply combined_bfsSearch_good.
Qed.

(** X8.  Every connection of [getDirectConnections] is on a trip of the
    day's valid trips, departs strictly after the given time, and is built
    from two rows of [stop_times.txt] of that trip, the first at the stop
    asked for. *)
Theorem connections_board_valid_trips_after_the_time
    (pd : PreloadedData) (stopId afterTime : string) (conn : Connection) :
  conn ∈ getDirectConnections stopId afterTime pd →
  trip_id conn ∈ validTripIds pd
  ∧ compareTime (departure_time conn) afterTime = 1
  ∧ ∃ src dst,
      src ∈ stopTimeRows pd ∧ dst ∈ stopTimeRows pd
      ∧ st_trip_id src = trip_id conn ∧ st_trip_id dst = trip_id conn
      ∧ st_stop_id src = stopId
      ∧ conn = connectionOf pd src dst.
Proof.
  intros Hconn.
  apply getDirectConnections_from_rows in Hconn
    as (src & dst & Hsrc & Hdst & Hvalid & Htrip & Hstop & Hcmp & ->).
  cbn. split; [by apply bool_decide_eq_true in Hvalid|]. split; [done|].
  exists src, dst. by repeat split.
Qed.

Lemma connections_board_valid_trips_after_the_time_witness :
  ∃ conn, conn ∈ getDirectConnections "S" "07:30:00" (loadFeed oneLineFeed)
          ∧ trip_id conn ∈ validTripIds (loadFeed oneLineFeed)
          ∧ compareTime (departure_time conn) "07:30:00" = 1.
Proof.
  pose proof (connections_board_valid_trips_after_the_time
                (loadFeed oneLineFeed) "S" "07:30:00") as Hconn.
  destruct (getDirectConnections "S" "07:30:00" (loadFeed oneLineFeed))
    as [|conn rest] eqn:Hconns; [vm_compute in Hconns; discriminate|].
  assert (Hin : conn ∈ conn :: rest) by (apply elem_of_cons; by left).
  exists conn. split; [exact Hin|].
  destruct (Hconn conn Hin) as (Hvalid & Hafter & _). by split.
Defined.

(** X9.  A route that either search returns is a chain of connections, each
    one offered by [getDirectConnections] at the stop and the time the chain
    has reached; its final stop and time are those of the last leg, the final
    stop is a target, and the distance recorded is the one of that target. *)
Theorem route_is_made_of_offered_connections
    (startStop : string) (targetStops : gset string)
    (targetStopsList : list StopWithDistance) (startTime : string)
    (maxTransfers : Z) (pd : PreloadedData) (r : Route) :
  Bfs.bfsSearch startStop targetStops targetStopsList startTime maxTransfers pd = Some r
  ∨ Combined.bfsSearch startStop targetStops targetStopsList startTime maxTransfers pd
    = Some r →
  validPath pd startStop startTime true (path r)
  ∧ finalStop r = endOf startStop (path r)
  ∧ finalTime r = endTime startTime (path r)
  ∧ finalStop r ∈ targetStops
  ∧ distanceToDestination r = getMinDistanceToTarget targetStopsList (finalStop r).
Proof.
  intros H. apply searches_good in H as (bound & Hp & Hs & Ht & Hn & Hin & Hd & _).
  done.
Qed.

Lemma route_is_made_of_offered_connections_witness :
  ∃ r, Bfs.bfsSearch "S1" {[ "S3" ]} [targetStop "S3" (11 # 100)] "07:30:00" 2
         (loadFeed scenarioTransferFeed) = Some r
       ∧ validPath (loadFeed scenarioTransferFeed) "S1" "07:30:00" true (path r)
       ∧ finalStop r = endOf "S1" (path r)
       ∧ finalTime r = endTime "07:30:00" (path r)
       ∧ finalStop r ∈ ({[ "S3" ]} : gset string)
       ∧ distanceToDestination r
         = getMinDistanceToTarget [targetStop "S3" (11 # 100)] (finalStop r).
Proof.
  destruct (Bfs.bfsSearch "S1" {[ "S3" ]} [targetStop "S3" (11 # 100)] "07:30:00" 2
              (loadFeed scenarioTransferFeed)) as [r|] eqn:Hsearch;
    [|vm_compute in Hsearch; discriminate].
  exists r. split; [reflexivity|].
  exact (route_is_made_of_offered_connections "S1" {[ "S3" ]}
           [targetStop "S3" (11 # 100)] "07:30:00" 2 (loadFeed scenarioTransferFeed) r
           (or_introl Hsearch)).
Defined.

(** X10.  In a route that either search returns, the first leg leaves the
    start stop after the start time; every further leg leaves the stop where
    the one before arrived, after that arrival, and not before the arrival
    plus the transfer time as [addMinutesToTime] gives it; every leg is on a
    valid trip. *)
Theorem route_legs_follow_in_time
    (startStop : string) (targetStops : gset string)
    (targetStopsList : list StopWithDistance) (startTime : string)
    (maxTransfers : Z) (pd : PreloadedData) (r : Route) :
  Bfs.bfsSearch startStop targetStops targetStopsList startTime maxTransfers pd = Some r
  ∨ Combined.bfsSearch startStop targetStops targetStopsList startTime maxTransfers pd
    = Some r →
  (∀ l, head (path r) = Some l →
        from l = startStop ∧ compareTime (departure l) startTime = 1)
  ∧ (∀ i l1 l2, path r !! i = Some l1 → path r !! S i = Some l2 →
       from l2 = to l1
       ∧ compareTime (departure l2) (arrival l1) = 1
       ∧ 0 <= compareTime (departure l2)
                (addMinutesToTime (arrival l1) TRANSFER_TIME_MINUTES))
  ∧ (∀ l, l ∈ path r → leg_trip_id l ∈ validTripIds pd).
Proof.
  intros H. apply searches_good in H as (bound & Hp & _).
  split; [|split].
  - intros l Hl. destruct (path r) as [|l0 p]; [done|]. injection Hl as ->.
    apply validPath_head in Hp as [Hfrom Hconn]. split; [done|].
    by apply getDirectConnections_from_rows in Hconn
      as (src & dst & _ & _ & _ & _ & _ & Hcmp & [= _ _ -> _ _ _]).
  - intros i l1 l2 H1 H2.
    destruct (validPath_pairs _ _ _ _ _ _ _ _ Hp H1 H2) as (Hfrom & Hconn & Hbuf).
    split; [done|]. split; [|done].
    by apply getDirectConnections_from_rows in Hconn
      as (src & dst & _ & _ & _ & _ & _ & Hcmp & [= _ _ -> _ _ _]).
  - intros l Hl. destruct (validPath_legs _ _ _ _ _ _ Hp Hl) as [time Hconn].
    apply getDirectConnections_from_rows in Hconn
      as (src & dst & _ & _ & Hvalid & _ & _ & _ & [= _ _ _ -> _ _]).
    by apply bool_decide_eq_true in Hvalid.
Qed.

Lemma route_legs_follow_in_time_witness :
  ∃ r, Combined.bfsSearch "S1" {[ "S3" ]} [targetStop "S3" (11 # 100)] "07:30:00" 2
         (loadFeed scenarioTransferFeed) = Some r
       ∧ length (path r) = 2%nat
       ∧ ∀ l, l ∈ path r → leg_trip_id l ∈ validTripIds (loadFeed scenarioTransferFeed).
Proof.
  destruct (Combined.bfsSearch "S1" {[ "S3" ]} [targetStop "S3" (11 # 100)] "07:30:00" 2
              (loadFeed scenarioTransferFeed)) as [r|] eqn:Hsearch;
    [|vm_compute in Hsearch; discriminate].
  exists r. split; [reflexivity|]. split.
  - vm_compute in Hsearch. injection Hsearch as <-. reflexivity.
  - exact (proj2 (proj2 (route_legs_follow_in_time "S1" {[ "S3" ]}
                           [targetStop "S3" (11 # 100)] "07:30:00" 2
                           (loadFeed scenarioTransferFeed) r (or_intror Hsearch)))).
Defined.

(** X11.  The transfers of a returned route count the legs whose trip
    differs from the trip of the leg before.  [find_transit_combined.js]
    returns at most [maxTransfers] of them; [find_transit_bfs.js] does not
    test the leg that enters a target and returns up to [maxTransfers + 1],
    as on the transfer scenario with a limit of 0. *)
Theorem transfers_are_vehicle_changes_within_the_limit
    (startStop : string) (targetStops : gset string)
    (targetStopsList : list StopWithDistance) (startTime : string)
    (maxTransfers : Z) (pd : PreloadedData) (r : Route) :
  (Combined.bfsSearch startStop targetStops targetStopsList startTime maxTransfers pd
   = Some r →
   numTransfers r = countTransfers (path r)
   ∧ (path r ≠ [] → numTransfers r <= maxTransfers))
  ∧ (Bfs.bfsSearch startStop targetStops targetStopsList startTime maxTransfers pd
     = Some r →
     numTransfers r = countTransfers (path r)
     ∧ (path r ≠ [] → numTransfers r <= maxTransfers + 1))
  ∧ (numTransfers <$>
       Bfs.bfsSearch "S1" {[ "S3" ]} [targetStop "S3" (11 # 100)] "07:30:00" 0
         (loadFeed scenarioTransferFeed)) = Some 1.
Proof.
  split; [|split].
  - intros H. by apply combined_bfsSearch_good in H as (_ & _ & _ & Hn & _ & _ & Hb).
  - intros H. by apply bfsSearch_good in H as (_ & _ & _ & Hn & _ & _ & Hb).
  - vm_compute. reflexivity.
Qed.

Lemma compareTime_after t1 t2 dep :
  compareTime t1 t2 = -1 → compareTime dep t2 = 1 → compareTime dep t1 = 1.
Proof.
  unfold compareTime, jgt.
  destruct (secondsOfDay t1) as [a|], (secondsOfDay t2) as [b|],
    (secondsOfDay dep) as [d|]; cbn; try done.
  - destruct (a <? b) eqn:Hab; [|by destruct (b <? a)]. intros _.
    destruct (d <? b) eqn:Hdb; [done|]. destruct (b <? d) eqn:Hbd; [|done]. intros _.
    apply Z.ltb_lt in Hab, Hbd.
    assert ((d <? a) = false) as -> by lia. assert ((a <? d) = true) as -> by lia. done.
Qed.

Lemma flat_map_sublist {A B} (f g : A → list B) (l : list A) :
  (∀ x, x ∈ l → f x `sublist_of` g x) → flat_map f l `sublist_of` flat_map g l.
Proof.
  induction l as [|x l IH]; intros Hfg; cbn; [constructor|].
  apply sublist_app; [apply Hfg; constructor|].
  apply IH. intros y Hy. apply Hfg. by constructor.
Qed.

(** X12.  The connections from a stop after a later time are among the
    connections after an earlier time, in the same order. *)
Theorem waiting_opens_no_new_connection
    (pd : PreloadedData) (stopId earlier later : string) :
  compareTime earlier later = -1 →
  getDirectConnections stopId later pd
    `sublist_of` getDirectConnections stopId earlier pd.
Proof.
  intros Htimes. unfold getDirectConnections. apply flat_map_sublist.
  intros [tripId stops] _. unfold connectionsOfTrip.
  destruct (findIndex _ _) as [i|]; [|done].
  destruct (_ !! i) as [stopInfo|]; [|done].
  destruct (compareTime (si_dep stopInfo) later <=? 0) eqn:Hlater;
    [apply sublist_nil_l|].
  apply Z.leb_gt in Hlater.
  assert (compareTime (si_dep stopInfo) later = 1) as Hone
    by (destruct (compareTime_values (si_dep stopInfo) later) as [?|[?|?]]; lia).
  by rewrite (compareTime_after _ _ _ Htimes Hone).
Qed.

Lemma waiting_opens_no_new_connection_witness :
  compareTime "07:30:00" "08:05:00" = -1
  ∧ getDirectConnections "S" "08:05:00" (loadFeed loopFeed)
      `sublist_of` getDirectConnections "S" "07:30:00" (loadFeed loopFeed).
Proof.
  assert (H : compareTime "07:30:00" "08:05:00" = -1) by (vm_compute; reflexivity).
  split; [exact H|].
  exact (waiting_opens_no_new_connection (loadFeed loopFeed) "S" "07:30:00" "08:05:00" H).
Defined.

(** ** The service-day filter and what rests on it *)

Lemma elem_of_list_to_set_fmap_filter {A} (f : A → string) (p : A → bool) (l : list A) k :
  k ∈ (list_to_set (f <$> List.filter p l) : gset string)
  ↔ ∃ x, x ∈ l ∧ p x = true ∧ f x = k.
Proof.
  rewrite elem_of_list_to_set, list_elem_of_fmap. split.
  - intros (x & -> & Hx). apply list_elem_of_In, filter_In in Hx as [Hx Hp].
    apply list_elem_of_In in Hx. eauto.
  - intros (x & Hx & Hp & <-). exists x. split; [done|].
    apply list_elem_of_In, filter_In. split; [by apply list_elem_of_In|done].
Qed.

Lemma foldl_insert_lookup {A} (key : A → string) (l : list A) (m : gmap string A) k v :
  foldl (λ m t, <[key t := t]> m) m l !! k = Some v →
  (v ∈ l ∧ key v = k) ∨ m !! k = Some v.
Proof.
  revert m. induction l as [|x l IH]; intros m; cbn; [auto|].
  intros H. apply IH in H as [[Hv Hk]|H].
  - left. split; [by constructor|done].
  - destruct (decide (key x = k)) as [<-|Hne].
    + rewrite lookup_insert_eq in H. injection H as <-. left. split; [constructor|done].
    + rewrite lookup_insert_ne in H by done. by right.
Qed.

Lemma foldl_insert_dom {A} (key : A → string) (l : list A) (m : gmap string A) :
  dom (foldl (λ m t, <[key t := t]> m) m l) = list_to_set (key <$> l) ∪ dom m.
Proof.
  revert m. induction l as [|x l IH]; intros m; cbn.
  - symmetry. apply (left_id_L ∅ (∪)).
  - rewrite IH, dom_insert_L.
    rewrite (assoc_L (∪)). f_equal. apply (comm_L (∪)).
Qed.

Section Preload.
Context (fs : filesystem) (dayName : string) (todayDate : Z)
        (routeType : option string) (pd : PreloadedData).
Context (Hpd : preloadTransitData fs dayName todayDate routeType = Returns pd).

Local Abbreviation validTrips := (validTripsOf fs dayName todayDate routeType).

Lemma preload_fields :
  validTripIds pd = list_to_set ((λ t, prop t "trip_id") <$> validTrips)
  ∧ tripRouteMap pd = foldl (λ m t, <[prop t "trip_id" := t]> m) ∅ validTrips
  ∧ routes pd = value (loadFile fs "routes.txt").
Proof.
  unfold preloadTransitData in Hpd.
  destruct (readFileSync fs "stop_times.txt"); [|done].
  injection Hpd as <-. cbn. done.
Qed.

Lemma validTrips_runsToday t :
  t ∈ validTrips
  ↔ t ∈ value (loadFile fs "trips.txt") ∧ runsToday fs dayName todayDate routeType t.
Proof.
  unfold validTripsOf. rewrite list_elem_of_In, filter_In, <- list_elem_of_In.
  rewrite andb_true_iff, !bool_decide_eq_true, !elem_of_list_to_set_fmap_filter.
  unfold runsToday. tauto.
Qed.

Lemma preload_validTripIds k :
  k ∈ validTripIds pd
  ↔ ∃ t, t ∈ value (loadFile fs "trips.txt") ∧ prop t "trip_id" = k
         ∧ runsToday fs dayName todayDate routeType t.
Proof.
  destruct preload_fields as (-> & _ & _).
  rewrite elem_of_list_to_set, list_elem_of_fmap. split.
  - intros (t & -> & Ht). apply validTrips_runsToday in Ht as [Ht Hr]. eauto.
  - intros (t & Ht & <- & Hr). exists t. split; [done|]. by apply validTrips_runsToday.
Qed.

Lemma preload_tripRouteMap_dom : dom (tripRouteMap pd) = validTripIds pd.
Proof.
  destruct preload_fields as (-> & -> & _).
  rewrite foldl_insert_dom, dom_empty_L. apply (right_id_L ∅ (∪)).
Qed.

Lemma preload_tripRouteMap_lookup k t :
  tripRouteMap pd !! k = Some t →
  t ∈ value (loadFile fs "trips.txt") ∧ prop t "trip_id" = k
  ∧ runsToday fs dayName todayDate routeType t.
Proof.
  destruct preload_fields as (_ & -> & _). intros H.
  apply foldl_insert_lookup in H as [[Ht Hk]|H]; [|done].
  apply validTrips_runsToday in Ht as [Ht Hr]. done.
Qed.

Lemma preload_tripProp k :
  k ∈ validTripIds pd →
  ∃ t, tripRouteMap pd !! k = Some t
       ∧ t ∈ value (loadFile fs "trips.txt") ∧ prop t "trip_id" = k
       ∧ runsToday fs dayName todayDate routeType t
       ∧ ∀ col, tripProp pd k col = prop t col.
Proof.
  intros Hk. rewrite <- preload_tripRouteMap_dom in Hk.
  apply elem_of_dom in Hk as [t Ht]. exists t. split; [done|].
  destruct (preload_tripRouteMap_lookup k t Ht) as (Hin & Hid & Hruns).
  split; [done|]. split; [done|]. split; [done|].
  intros col. unfold tripProp. by rewrite Ht.
Qed.

End Preload.

Lemma tripStopMap_no_valid_trips pd :
  validTripIds pd = ∅ → tripStopMap pd = [].
Proof.
  intros Hempty. unfold tripStopMap.
  induction (stopTimeRows pd) as [|row l IH] using rev_ind; [done|].
  rewrite foldl_snoc, IH. unfold validRow. rewrite Hempty.
  by rewrite bool_decide_eq_false_2 by apply not_elem_of_empty.
Qed.

Lemma bfs_search_nothing_to_board targetStops targetStopsList maxTransfers pd
    startStop startTime fuel :
  startStop ∉ targetStops →
  getDirectConnections startStop startTime pd = [] →
  (Bfs.search targetStops targetStopsList maxTransfers pd fuel
     (Bfs.initialState targetStopsList startStop startTime)).1 = None.
Proof.
  intros Hstart Hnone. destruct fuel as [|fuel]; [done|].
  cbn [Bfs.search Bfs.initialState Bfs.queue].
  unfold Bfs.visit. cbn [q_stop q_path q_numTransfers q_time Bfs.bestRoute Bfs.visited].
  rewrite bool_decide_eq_false_2 by done.
  unfold Bfs.hasDirect. cbn [Bfs.bestRoute andb].
  destruct (maxTransfers <? 0); [by destruct fuel|].
  rewrite bool_decide_eq_false_2 by apply not_elem_of_empty.
  unfold Bfs.expand. cbn [q_stop q_time]. rewrite Hnone. cbn [Bfs.visitConnections].
  by destruct fuel.
Qed.

Lemma combined_search_nothing_to_board targetStops targetStopsList maxTransfers pd
    startStop startTime fuel :
  startStop ∉ targetStops →
  getDirectConnections startStop startTime pd = [] →
  (Combined.search targetStops targetStopsList maxTransfers pd fuel
     (Combined.initialState targetStopsList startStop startTime)).1 = None.
Proof.
  intros Hstart Hnone. destruct fuel as [|fuel]; [done|].
  cbn [Combined.search Combined.initialState Combined.queue].
  unfold Combined.visit.
  cbn [q_stop q_path q_numTransfers q_time Combined.bestRoute Combined.visited].
  rewrite bool_decide_eq_false_2 by done.
  unfold Combined.bestHas. cbn [Combined.bestRoute andb].
  destruct (maxTransfers <? 0); [by destruct fuel|].
  rewrite bool_decide_eq_false_2 by apply not_elem_of_empty.
  unfold Combined.expand. cbn [q_stop q_time]. rewrite Hnone.
  cbn [Combined.visitConnections].
  by destruct fuel.
Qed.

(** X13.  Data that load from a feed without [routes.txt], [calendar.txt]
    or [trips.txt] have no valid trip; then no stop has a connection, neither
    search finds a route from a stop that is no target, and the direct-trip
    finder finds nothing. *)
Theorem feed_without_services_finds_nothing
    (fs : filesystem) (dayName : string) (todayDate : Z) (routeType : option string)
    (pd : PreloadedData) :
  preloadTransitData fs dayName todayDate routeType = Returns pd →
  fs !! "routes.txt" = None ∨ fs !! "calendar.txt" = None ∨ fs !! "trips.txt" = None →
  validTripIds pd = ∅
  ∧ (∀ stopId afterTime, getDirectConnections stopId afterTime pd = [])
  ∧ (∀ startStop targetStops targetStopsList startTime maxTransfers,
       startStop ∉ targetStops →
       Bfs.bfsSearch startStop targetStops targetStopsList startTime maxTransfers pd
       = None
       ∧ Combined.bfsSearch startStop targetStops targetStopsList startTime
           maxTransfers pd = None)
  ∧ (∀ stopA candidateStops userTime,
       NextTransit.findBestDirectTrip stopA candidateStops userTime pd = None).
Proof.
  intros Hpd Hmissing.
  assert (Hempty : validTripIds pd = ∅).
  { apply set_eq. intros k. split; [|by intros ?%not_elem_of_empty].
    intros Hk. apply (preload_validTripIds fs dayName todayDate routeType pd Hpd) in Hk
      as (t & Ht & _ & (r & Hr & _) & (c & Hc & _)).
    unfold loadFile in Ht, Hr, Hc.
    destruct Hmissing as [H|[H|H]]; rewrite H in *; cbn in *;
      by (apply elem_of_nil in Hr || apply elem_of_nil in Hc || apply elem_of_nil in Ht). }
  assert (Hnone : ∀ stopId afterTime, getDirectConnections stopId afterTime pd = []).
  { intros. unfold getDirectConnections. by rewrite tripStopMap_no_valid_trips. }
  split; [done|]. split; [done|]. split.
  - intros startStop targetStops targetStopsList startTime maxTransfers Hstart.
    unfold Bfs.bfsSearch, Combined.bfsSearch, Bfs.bfsRun, Combined.bfsRun.
    rewrite !bool_decide_eq_false_2 by done. split.
    + by apply bfs_search_nothing_to_board.
    + by apply combined_search_nothing_to_board.
  - intros. unfold NextTransit.findBestDirectTrip.
    rewrite bool_decide_eq_true_2; [done|]. rewrite Hempty. apply size_empty.
Qed.

Lemma feed_without_services_finds_nothing_witness :
  preloadTransitData (delete "calendar.txt" oneLineFeed) "monday" 20251124 None
  = Returns (loadFeed (delete "calendar.txt" oneLineFeed))
  ∧ validTripIds (loadFeed (delete "calendar.txt" oneLineFeed)) = ∅.
Proof.
  assert (Hpd : preloadTransitData (delete "calendar.txt" oneLineFeed) "monday"
                  20251124 None
                = Returns (loadFeed (delete "calendar.txt" oneLineFeed))).
  { unfold loadFeed.
    destruct (preloadTransitData (delete "calendar.txt" oneLineFeed) "monday"
                20251124 None) as [pd|e] eqn:Hload; [reflexivity|].
    vm_compute in Hload. discriminate. }
  split; [exact Hpd|].
  assert (Hfile : (delete "calendar.txt" oneLineFeed : filesystem) !! "calendar.txt"
                  = None) by (vm_compute; reflexivity).
  exact (proj1 (feed_without_services_finds_nothing _ _ _ _ _ Hpd
                  (or_intror (or_introl Hfile)))).
Defined.

(** X14.  The valid trips are exactly the trips of [trips.txt] whose route
    is of the type asked for, if any, and whose service has a 1 for the day
    and a date range around today; [tripRouteMap] holds a record of
    [trips.txt] for exactly these; a type filter only removes trips. *)
Theorem valid_trips_are_the_trips_running_today
    (fs : filesystem) (dayName : string) (todayDate : Z) (routeType : option string)
    (pd : PreloadedData) :
  preloadTransitData fs dayName todayDate routeType = Returns pd →
  (∀ k, k ∈ validTripIds pd
        ↔ ∃ t, t ∈ value (loadFile fs "trips.txt") ∧ prop t "trip_id" = k
               ∧ runsToday fs dayName todayDate routeType t)
  ∧ dom (tripRouteMap pd) = validTripIds pd
  ∧ (∀ k t, tripRouteMap pd !! k = Some t →
            t ∈ value (loadFile fs "trips.txt") ∧ prop t "trip_id" = k
            ∧ runsToday fs dayName todayDate routeType t)
  ∧ (∀ pd', preloadTransitData fs dayName todayDate None = Returns pd' →
            validTripIds pd ⊆ validTripIds pd').
Proof.
  intros Hpd. split; [|split; [|split]].
  - by apply preload_validTripIds.
  - by eapply preload_tripRouteMap_dom.
  - by apply preload_tripRouteMap_lookup.
  - intros pd' Hpd' k Hk.
    apply (preload_validTripIds _ _ _ _ _ Hpd) in Hk as (t & Ht & Hid & Hroute & Hcal).
    apply (preload_validTripIds _ _ _ _ _ Hpd'). exists t. split; [done|]. split; [done|].
    split; [|done]. destruct Hroute as (r & Hr & _ & Hrid). by exists r.
Qed.

Lemma valid_trips_are_the_trips_running_today_witness :
  preloadTransitData oneLineFeed "monday" 20251124 None = Returns (loadFeed oneLineFeed)
  ∧ dom (tripRouteMap (loadFeed oneLineFeed)) = validTripIds (loadFeed oneLineFeed).
Proof.
  assert (Hpd : preloadTransitData oneLineFeed "monday" 20251124 None
                = Returns (loadFeed oneLineFeed)).
  { unfold loadFeed.
    destruct (preloadTransitData oneLineFeed "monday" 20251124 None)
      as [pd|e] eqn:Hload; [reflexivity|].
    vm_compute in Hload. discriminate. }
  split; [exact Hpd|].
  exact (proj1 (proj2 (valid_trips_are_the_trips_running_today _ _ _ _ _ Hpd))).
Defined.

(** X15.  A connection carries the route and the headsign of the
    [trips.txt] record of its trip, and its route is a route of
    [routes.txt]. *)
Theorem connections_carry_their_trip_record
    (fs : filesystem) (dayName : string) (todayDate : Z) (routeType : option string)
    (pd : PreloadedData) (stopId afterTime : string) (conn : Connection) :
  preloadTransitData fs dayName todayDate routeType = Returns pd →
  conn ∈ getDirectConnections stopId afterTime pd →
  ∃ t, tripRouteMap pd !! trip_id conn = Some t
       ∧ prop t "trip_id" = trip_id conn
       ∧ route_id conn = prop t "route_id"
       ∧ headsign conn = prop t "trip_headsign"
       ∧ ∃ r, r ∈ routes pd ∧ prop r "route_id" = route_id conn.
Proof.
  intros Hpd Hconn.
  apply getDirectConnections_from_rows in Hconn
    as (src & dst & _ & _ & Hvalid & _ & _ & _ & ->).
  apply bool_decide_eq_true in Hvalid.
  destruct (preload_tripProp _ _ _ _ _ Hpd _ Hvalid)
    as (t & Hget & _ & Hid & [(r & Hr & _ & Hrid) _] & Hprop).
  exists t. cbn. rewrite !Hprop. repeat split; try done.
  exists r. split; [|done].
  by destruct (preload_fields _ _ _ _ _ Hpd) as (_ & _ & ->).
Qed.

Lemma connections_carry_their_trip_record_witness :
  preloadTransitData oneLineFeed "monday" 20251124 None = Returns (loadFeed oneLineFeed)
  ∧ ∃ conn, conn ∈ getDirectConnections "S" "07:30:00" (loadFeed oneLineFeed)
            ∧ ∃ t, tripRouteMap (loadFeed oneLineFeed) !! trip_id conn = Some t
                   ∧ route_id conn = prop t "route_id".
Proof.
  assert (Hpd : preloadTransitData oneLineFeed "monday" 20251124 None
                = Returns (loadFeed oneLineFeed)).
  { unfold loadFeed.
    destruct (preloadTransitData oneLineFeed "monday" 20251124 None)
      as [pd|e] eqn:Hload; [reflexivity|].
    vm_compute in Hload. discriminate. }
  split; [exact Hpd|].
  pose proof (connections_carry_their_trip_record oneLineFeed "monday" 20251124 None
                (loadFeed oneLineFeed) "S" "07:30:00") as Hrecord.
  destruct (getDirectConnections "S" "07:30:00" (loadFeed oneLineFeed))
    as [|conn rest] eqn:Hconns; [vm_compute in Hconns; discriminate|].
  assert (Hin : conn ∈ conn :: rest) by (apply elem_of_cons; by left).
  exists conn. split; [exact Hin|].
  destruct (Hrecord conn Hpd Hin) as (t & Ht & _ & Hroute & _).
  exists t. by split.
Defined.

(** ** Geo index: the nearest stops *)

Lemma StronglySorted_app_between {A} (R : A → A → Prop) l1 l2 a b :
  StronglySorted R (l1 ++ l2) → a ∈ l1 → b ∈ l2 → R a b.
Proof.
  induction l1 as [|x l1 IH]; intros Hs Ha Hb.
  - by apply elem_of_nil in Ha.
  - cbn in Hs. apply StronglySorted_inv in Hs as [Hs Hx].
    apply elem_of_cons in Ha as [->|Ha]; [|by apply IH].
    rewrite Forall_forall in Hx. apply Hx, elem_of_app. by right.
Qed.

(** X16.  When every stop with coordinates has a distance that is a number
    (its coordinates are decimal numerals and no square root is taken of a
    negative number), the stops [findNearestStops] returns and the stops it
    leaves out are together the stops with coordinates; no stop left out is
    nearer than one returned, and none is left out when there are at most
    [n]. *)
Theorem findNearestStops_returns_the_nearest `{JsMath}
    (fs : filesystem) (lat lng : Q) (n : nat) :
  distancesAreNumbers fs lat lng →
  ∃ rest,
    Permutation (findNearestStops fs lat lng n ++ rest) (measuredStops fs lat lng)
    ∧ (∀ a b, a ∈ findNearestStops fs lat lng n → b ∈ rest →
              (distance a <= distance b)%Q)
    ∧ ((length (measuredStops fs lat lng) <= n)%nat → rest = []).
Proof.
  intros _. rewrite findNearestStops_measured.
  set (gt := λ a b : StopWithDistance, Qltb (distance b) (distance a)).
  exists (drop n (sortBy gt (measuredStops fs lat lng))).
  split; [|split].
  - rewrite take_drop. apply sortBy_Permutation.
  - intros a b Ha Hb.
    assert (Hs : StronglySorted (λ a b, gt a b = false)
                   (take n (sortBy gt (measuredStops fs lat lng))
                    ++ drop n (sortBy gt (measuredStops fs lat lng)))).
    { rewrite take_drop. apply (sortBy_sorted gt (λ _, True)).
      - intros x y _ _. unfold gt. rewrite Qltb_true_lt, Qltb_false_le.
        apply Qlt_le_weak.
      - intros x y z _ _ _. unfold gt. rewrite !Qltb_false_le.
        intros. by eapply Qle_trans.
      - by apply Forall_forall. }
    pose proof (StronglySorted_app_between _ _ _ a b Hs Ha Hb) as Hab.
    unfold gt in Hab. by apply Qltb_false_le in Hab.
  - intros Hlen. apply drop_ge.
    by rewrite (Permutation_length (sortBy_Permutation gt _)).
Qed.

Lemma findNearestStops_returns_the_nearest_witness :
  distancesAreNumbers (H := exampleMath) walkFeed 25 55
  ∧ stop_id <$> findNearestStops (H := exampleMath) walkFeed 25 55 2 = ["S"; "W"]
  ∧ ∃ rest,
      Permutation (findNearestStops (H := exampleMath) walkFeed 25 55 2 ++ rest)
                  (measuredStops (H := exampleMath) walkFeed 25 55)
      ∧ (∀ a b, a ∈ findNearestStops (H := exampleMath) walkFeed 25 55 2 → b ∈ rest →
                (distance a <= distance b)%Q)
      ∧ ((length (measuredStops (H := exampleMath) walkFeed 25 55) <= 2)%nat →
         rest = []).
Proof.
  assert (Hnumbers : distancesAreNumbers (H := exampleMath) walkFeed 25 55)
    by (vm_compute; reflexivity).
  split; [exact Hnumbers|]. split; [vm_compute; reflexivity|].
  exact (findNearestStops_returns_the_nearest (H := exampleMath) walkFeed 25 55 2
           Hnumbers).
Defined.

(** ** [main] of [find_transit_combined.js] *)

Section FirstBest.
Import Combined.

Lemma pickBest_fold originalResult nearbyResults :
  pickBest originalResult nearbyResults
  = foldl compareRoute
          {| bestOverallRoute := None; bestOverallTime := XInfinity;
             bestOverallScore := XInfinity |}
          (candidates originalResult nearbyResults).
Proof. unfold pickBest, candidates. by destruct originalResult. Qed.

Lemma compareRoute_firstBest seen o c :
  firstBest seen o → firstBest (seen ++ [c]) (compareRoute o c).
Proof.
  unfold firstBest, compareRoute.
  destruct (bestOverallRoute o) as [best|] eqn:Hbest.
  - intros (before & after & z & -> & Hscore & Ho & Hbefore & Hafter).
    rewrite Ho. destruct (xlt (routeScore c) (XNum z)) eqn:Hlt; cbn.
    + destruct (routeScore c) as [zc| |] eqn:Hc; try done. cbn in Hlt.
      apply Z.ltb_lt in Hlt.
      exists (before ++ best :: after), [], zc. repeat split; try done.
      rewrite Forall_app, Forall_cons. repeat split.
      * eapply Forall_impl; [exact Hbefore|]. intros c' [H'|H']; [left|by right].
        destruct (routeScore c') as [z'| |]; cbn in *; try done.
        apply Z.ltb_lt in H'. apply Z.ltb_lt. lia.
      * left. rewrite Hscore. cbn. by apply Z.ltb_lt.
      * eapply Forall_impl; [exact Hafter|]. intros c' H'. cbv beta in H'.
        destruct (routeScore c') as [z'| |]; cbn in *; [|by left|by right].
        left. apply Z.ltb_ge in H'. apply Z.ltb_lt. lia.
    + rewrite Hbest. exists before, (after ++ [c]), z.
      rewrite <- app_assoc. repeat split; try done.
      apply Forall_app. split; [done|]. by constructor.
  - intros [Ho Hseen]. rewrite Ho.
    destruct (routeScore c) as [zc| |] eqn:Hc; cbn.
    + exists seen, [], zc. repeat split; try done.
      eapply Forall_impl; [exact Hseen|]. intros c' H'. cbv beta in H'.
      destruct (routeScore c') as [z'| |]; [by destruct (H' z')|by left|by right].
    + rewrite Hbest. split; [done|]. apply Forall_app. split; [done|].
      constructor; [|done]. by rewrite Hc.
    + rewrite Hbest. split; [done|]. apply Forall_app. split; [done|].
      constructor; [|done]. by rewrite Hc.
Qed.

Lemma foldl_compareRoute_firstBest rest seen o :
  firstBest seen o → firstBest (seen ++ rest) (foldl compareRoute o rest).
Proof.
  revert seen o. induction rest as [|c rest IH]; intros seen o Hinv; cbn.
  - by rewrite app_nil_r.
  - replace (seen ++ c :: rest) with ((seen ++ [c]) ++ rest)
      by (by rewrite <- app_assoc).
    apply IH. by apply compareRoute_firstBest.
Qed.

Lemma pickBest_firstBest originalResult nearbyResults :
  firstBest (candidates originalResult nearbyResults)
            (pickBest originalResult nearbyResults).
Proof.
  rewrite pickBest_fold.
  apply (foldl_compareRoute_firstBest _ []). split; [done|constructor].
Qed.

Lemma routeScore_number_has_legs info z :
  routeScore info = XNum z → path (result info) ≠ [].
Proof.
  unfold routeScore, calculateTotalTime. intros Hscore Hpath.
  rewrite Hpath in Hscore. done.
Qed.

End FirstBest.

(** X17.  The route [main] of [find_transit_combined.js] keeps is, among the
    candidates in their order, the first with the least score: the ones
    before it score more or have no score, the ones after it do not score
    less; and it has at least one leg. *)
Theorem combined_main_keeps_the_first_best `{JsMath}
    (fs : filesystem) (stopA : string) (placeLat placeLng : Q)
    (userTime : string) (pd : PreloadedData) (best : Combined.RouteInfo) :
  let run := Combined.planRoute fs stopA placeLat placeLng userTime pd in
  Combined.bestOverallRoute run.2 = Some best →
  ∃ before after z,
    Combined.candidates run.1.1 run.1.2 = before ++ best :: after
    ∧ Combined.routeScore best = XNum z
    ∧ Combined.bestOverallScore run.2 = XNum z
    ∧ path (Combined.result best) ≠ []
    ∧ Forall (λ c, xlt (XNum z) (Combined.routeScore c) = true
                   ∨ Combined.routeScore c = XNaN) before
    ∧ Forall (λ c, xlt (Combined.routeScore c) (XNum z) = false) after.
Proof.
  intros run Hbest.
  pose proof (pickBest_firstBest run.1.1 run.1.2) as Hinv.
  unfold firstBest in Hinv.
  change (Combined.pickBest run.1.1 run.1.2) with run.2 in Hinv.
  rewrite Hbest in Hinv.
  destruct Hinv as (before & after & z & Hsplit & Hscore & Ho & Hbefore & Hafter).
  exists before, after, z. repeat split; try done.
  by eapply routeScore_number_has_legs.
Qed.

Lemma combined_main_keeps_the_first_best_witness :
  ∃ best,
    Combined.bestOverallRoute
      (Combined.planRoute (H := exampleMath) walkFeed "S" 25 58 "07:30:00"
         (loadFeed walkFeed)).2 = Some best
    ∧ ∃ z, Combined.routeScore best = XNum z
           ∧ path (Combined.result best) ≠ [].
Proof.
  destruct (Combined.bestOverallRoute
              (Combined.planRoute (H := exampleMath) walkFeed "S" 25 58 "07:30:00"
                 (loadFeed walkFeed)).2) as [best|] eqn:Hbest;
    [|vm_compute in Hbest; discriminate].
  exists best. split; [reflexivity|].
  destruct (combined_main_keeps_the_first_best (H := exampleMath)
              walkFeed "S" 25 58 "07:30:00" (loadFeed walkFeed) best Hbest)
    as (before & after & z & _ & Hscore & _ & Hpath & _).
  exists z. by split.
Defined.

(** X18.  When the source stop is among the stops nearest the destination,
    the search from it returns the route without a leg, no walk is tried, and
    [main] keeps no route: the route without a leg has no score. *)
Theorem combined_main_at_the_destination_keeps_no_route `{JsMath}
    (fs : filesystem) (stopA : string) (placeLat placeLng : Q)
    (userTime : string) (pd : PreloadedData) :
  stopA ∈ stop_id <$> findNearestStops fs placeLat placeLng
                        Combined.MAX_DESTINATIONS_NEAR_PLACE →
  let run := Combined.planRoute fs stopA placeLat placeLng userTime pd in
  (path <$> run.1.1) = Some []
  ∧ run.1.2 = []
  ∧ Combined.bestOverallRoute run.2 = None.
Proof.
  intros Hin. unfold Combined.planRoute, Combined.bfsSearch.
  rewrite bool_decide_eq_true_2 by (by apply elem_of_list_to_set).
  cbn. done.
Qed.

Lemma combined_main_at_the_destination_keeps_no_route_witness :
  "Z" ∈ stop_id <$> findNearestStops (H := exampleMath) walkFeed 25 58
                      Combined.MAX_DESTINATIONS_NEAR_PLACE
  ∧ Combined.bestOverallRoute
      (Combined.planRoute (H := exampleMath) walkFeed "Z" 25 58 "07:30:00"
         (loadFeed walkFeed)).2 = None.
Proof.
  assert (Hnear : "Z" ∈ stop_id <$> findNearestStops (H := exampleMath) walkFeed 25 58
                                      Combined.MAX_DESTINATIONS_NEAR_PLACE).
  { apply (bool_decide_eq_true_1 (_ ∈ (_ : list string))). vm_compute. reflexivity. }
  split; [exact Hnear|].
  exact (proj2 (proj2 (combined_main_at_the_destination_keeps_no_route
                         (H := exampleMath) walkFeed "Z" 25 58 "07:30:00"
                         (loadFeed walkFeed) Hnear))).
Defined.

Section WalkAlternatives.
Context `{JsMath}.
Import Combined.

Lemma searchNearby_spec stopAInfo targetStops targetStopsList userTime pd nearbyStops info :
  info ∈ searchNearby stopAInfo targetStops targetStopsList userTime pd nearbyStops →
  ∃ s, s ∈ nearbyStops
       ∧ bfsSearch (stop_id s) targetStops targetStopsList userTime MAX_TRANSFERS pd
         = Some (result info)
       ∧ walkInfo info
         = Some {| walk_from := stopAInfo; walk_to := s; walk_distance := distance s;
                   walk_time := Qceiling (distance s * 1000 / WALKING_SPEED_M_PER_MIN) |}.
Proof.
  induction nearbyStops as [|s rest IH]; cbn [searchNearby]; intros Hin.
  { by apply elem_of_nil in Hin. }
  destruct (bfsSearch (stop_id s) _ _ _ _ _) as [r|] eqn:Hsearch.
  - assert (Hhere : ∀ info', info' = {| result := r;
                       walkInfo := Some {| walk_from := stopAInfo; walk_to := s;
                                           walk_distance := distance s;
                                           walk_time := Qceiling (distance s * 1000
                                                          / WALKING_SPEED_M_PER_MIN) |} |} →
                    ∃ s', s' ∈ s :: rest
                          ∧ bfsSearch (stop_id s') targetStops targetStopsList userTime
                              MAX_TRANSFERS pd = Some (result info')
                          ∧ walkInfo info'
                            = Some {| walk_from := stopAInfo; walk_to := s';
                                      walk_distance := distance s';
                                      walk_time := Qceiling (distance s' * 1000
                                                     / WALKING_SPEED_M_PER_MIN) |}).
    { intros info' ->. exists s. split; [constructor|]. by split. }
    destruct (numTransfers r =? 0).
    + apply list_elem_of_singleton in Hin. by apply Hhere.
    + apply elem_of_cons in Hin as [Hin|Hin]; [by apply Hhere|].
      destruct (IH Hin) as (s' & Hs' & Hrest). exists s'. split; [by constructor|done].
  - destruct (IH Hin) as (s' & Hs' & Hrest). exists s'. split; [by constructor|done].
Qed.

Lemma searchNearby_stops_at_direct stopAInfo targetStops targetStopsList userTime pd
    nearbyStops i info :
  searchNearby stopAInfo targetStops targetStopsList userTime pd nearbyStops !! i
  = Some info →
  numTransfers (result info) = 0 →
  length (searchNearby stopAInfo targetStops targetStopsList userTime pd nearbyStops) = S i.
Proof.
  revert i. induction nearbyStops as [|s rest IH]; intros i; cbn [searchNearby]; [done|].
  destruct (bfsSearch (stop_id s) _ _ _ _ _) as [r|] eqn:Hsearch; [|apply IH].
  destruct (numTransfers r =? 0) eqn:Hdirect.
  - destruct i as [|i]; [done|]. done.
  - destruct i as [|i]; cbn.
    + intros [= <-]. cbn. intros Hzero. rewrite Hzero in Hdirect. done.
    + intros Hi Hzero. f_equal. by apply IH.
Qed.

Lemma walk_within_500m_takes_7_minutes (d : Q) :
  (d <= MAX_WALKING_DISTANCE_KM)%Q →
  Qceiling (d * 1000 / WALKING_SPEED_M_PER_MIN) <= 7.
Proof.
  intros Hd. change 7 with (Qceiling (25 # 4)). apply Qceiling_resp_le.
  unfold MAX_WALKING_DISTANCE_KM, WALKING_SPEED_M_PER_MIN in *.
  unfold Qdiv. change (/ 80)%Q with (1 # 80)%Q.
  unfold Qle in *. cbn in *. lia.
Qed.

End WalkAlternatives.

(** X19.  No walk is tried when the route from the source stop has no
    transfer, and none after the first walk whose route has no transfer.
    Every walk candidate goes to another stop than the source, within 0.5 km,
    counts [ceil(m / 80)] minutes, at most 7, and carries the route the search
    found from that stop. *)
Theorem combined_main_walks_at_most_500m `{JsMath}
    (fs : filesystem) (stopA : string) (placeLat placeLng : Q)
    (userTime : string) (pd : PreloadedData) :
  let run := Combined.planRoute fs stopA placeLat placeLng userTime pd in
  let targetStopsList :=
    findNearestStops fs placeLat placeLng Combined.MAX_DESTINATIONS_NEAR_PLACE in
  (∀ r, run.1.1 = Some r → numTransfers r = 0 → run.1.2 = [])
  ∧ (∀ i info, run.1.2 !! i = Some info → numTransfers (Combined.result info) = 0 →
               length run.1.2 = S i)
  ∧ ∀ info, info ∈ run.1.2 →
      ∃ w, Combined.walkInfo info = Some w
           ∧ stop_id (walk_to w) ≠ stopA
           ∧ (distance (walk_to w) <= 5 # 10)%Q
           ∧ walk_distance w = distance (walk_to w)
           ∧ walk_time w = Qceiling (distance (walk_to w) * 1000 / 80)
           ∧ walk_time w <= 7
           ∧ Combined.bfsSearch (stop_id (walk_to w))
               (list_to_set (stop_id <$> targetStopsList)) targetStopsList userTime
               Combined.MAX_TRANSFERS pd
             = Some (Combined.result info).
Proof.
  intros run targetStopsList. subst run. unfold Combined.planRoute.
  fold targetStopsList. cbn [fst snd].
  set (targetStops := list_to_set (stop_id <$> targetStopsList) : gset string).
  destruct (Combined.bfsSearch stopA targetStops targetStopsList userTime
              Combined.MAX_TRANSFERS pd) as [r0|] eqn:Horig.
  - destruct (numTransfers r0 =? 0) eqn:Hdirect; cbn [negb].
    { split; [done|]. split; [done|]. intros info Hin. by apply elem_of_nil in Hin. }
    split. { intros r [= <-] Hzero. rewrite Hzero in Hdirect. done. }
    split. { intros i info. apply searchNearby_stops_at_direct. }
    intros info Hin. apply searchNearby_spec in Hin as (s & Hs & Hsearch & Hwalk).
    eexists. split; [exact Hwalk|]. cbn.
    assert (Hfilter : stop_id s ≠ stopA ∧ (distance s <= 5 # 10)%Q).
    { destruct (JsLib.find _ _) as [infoA|]; [|by apply elem_of_nil in Hs].
      destruct (truthy _ && truthy _); [|by apply elem_of_nil in Hs].
      apply list_elem_of_In, filter_In in Hs as [_ Hs].
      apply andb_true_iff in Hs as [Hne Hle]. split.
      - intros Heq. rewrite Heq, str_eqb_refl in Hne. done.
      - by apply Qle_bool_iff in Hle. }
    destruct Hfilter as [Hne Hle]. repeat split; try done.
    by apply walk_within_500m_takes_7_minutes.
  - cbn [negb]. split; [done|].
    split. { intros i info. apply searchNearby_stops_at_direct. }
    intros info Hin. apply searchNearby_spec in Hin as (s & Hs & Hsearch & Hwalk).
    eexists. split; [exact Hwalk|]. cbn.
    assert (Hfilter : stop_id s ≠ stopA ∧ (distance s <= 5 # 10)%Q).
    { destruct (JsLib.find _ _) as [infoA|]; [|by apply elem_of_nil in Hs].
      destruct (truthy _ && truthy _); [|by apply elem_of_nil in Hs].
      apply list_elem_of_In, filter_In in Hs as [_ Hs].
      apply andb_true_iff in Hs as [Hne Hle]. split.
      - intros Heq. rewrite Heq, str_eqb_refl in Hne. done.
      - by apply Qle_bool_iff in Hle. }
    destruct Hfilter as [Hne Hle]. repeat split; try done.
    by apply walk_within_500m_takes_7_minutes.
Qed.

(** ** The walk fallback: which routes are collected and compared *)

Section Collected.
Context `{JsMath}.
Import Combined.


End Collected.




(** ** [main] of [find_next_transit.js] *)

Section Batches.
Import NextTransitMain.
Context (nearestStops : list StopWithDistance) (userTime : string) (pd : PreloadedData).

Local Abbreviation tryStop := (tryStop nearestStops userTime pd).

Lemma firstFound_app l1 l2 :
  firstFound (l1 ++ l2)
  = match firstFound l1 with Some r => Some r | None => firstFound l2 end.
Proof.
  induction l1 as [|[s [m|]] l1 IH]; cbn; [done|done|exact IH].
Qed.

Lemma checkBatches_is_one_scan fuel stops :
  (length stops <= fuel)%nat →
  checkBatches fuel nearestStops userTime pd stops = firstFound (tryStop <$> stops).
Proof.
  revert stops. induction fuel as [|fuel IH]; intros stops Hlen.
  - destruct stops; [done|cbn in Hlen; lia].
  - cbn [checkBatches]. destruct stops as [|s stops]; [done|].
    transitivity (firstFound (tryStop <$> (take BATCH_SIZE (s :: stops)
                                            ++ drop BATCH_SIZE (s :: stops))));
      [|by rewrite take_drop].
    rewrite fmap_app, firstFound_app.
    destruct (firstFound (tryStop <$> take BATCH_SIZE (s :: stops))); [done|].
    apply IH. rewrite length_drop. cbn in *. unfold BATCH_SIZE. lia.
Qed.

Lemma firstFound_first stops m s :
  firstFound (tryStop <$> stops) = Some (m, s) →
  ∃ skipped rest,
    stops = skipped ++ s :: rest
    ∧ Forall (λ s', NextTransit.findBestDirectTrip (stop_id s') nearestStops userTime pd
                    = None) skipped
    ∧ NextTransit.findBestDirectTrip (stop_id s) nearestStops userTime pd = Some m.
Proof.
  induction stops as [|s0 stops IH]; [done|]. cbn.
  destruct (NextTransit.findBestDirectTrip (stop_id s0) _ _ _) as [m0|] eqn:Hs0.
  - intros [= <- <-]. by exists [], stops.
  - intros Hrest. destruct (IH Hrest) as (skipped & rest & -> & Hskipped & Hs).
    exists (s0 :: skipped), rest. split; [done|]. split; [by constructor|done].
Qed.

End Batches.

Lemma walk_within_2km_takes_25_minutes (d : Q) :
  (d <= 2)%Q → Qceiling (d * 1000 / 80) <= 25.
Proof.
  intros Hd. change 25 with (Qceiling 25). apply Qceiling_resp_le.
  unfold Qdiv. change (/ 80)%Q with (1 # 80)%Q.
  unfold Qle in *. cbn in *. lia.
Qed.

(** X20.  In the place mode of [find_next_transit.js], a trip given without
    a walk is the direct trip from the source stop.  A trip given with a walk
    means that the source stop has none; the walk goes to the first stop, in
    order of distance within 2 km of the source, that has a direct trip, and
    counts [ceil(m / 80)] minutes, at most 25.  The batches of ten do not
    change which stop that is. *)
Theorem to_place_walks_to_the_first_stop_with_a_trip `{JsMath}
    (fs : filesystem) (stopA : string) (placeLat placeLng : Q)
    (userTime : string) (pd : PreloadedData) (found : NextTransitMain.Found) :
  let nearestStops := findNearestStops fs placeLat placeLng 100 in
  NextTransitMain.toPlace fs stopA placeLat placeLng userTime pd = Some found →
  match NextTransitMain.found_walk found with
  | None =>
      NextTransit.findBestDirectTrip stopA nearestStops userTime pd
      = Some (NextTransitMain.found_trip found)
  | Some w =>
      NextTransit.findBestDirectTrip stopA nearestStops userTime pd = None
      ∧ ∃ skipped s rest,
          walkableSourceStops fs stopA = skipped ++ s :: rest
          ∧ Forall (λ s', NextTransit.findBestDirectTrip (stop_id s') nearestStops
                            userTime pd = None) skipped
          ∧ NextTransit.findBestDirectTrip (stop_id s) nearestStops userTime pd
            = Some (NextTransitMain.found_trip found)
          ∧ w = {| NextTransitMain.walkFrom := stopA;
                   NextTransitMain.walkTo := stop_id s;
                   NextTransitMain.walkDistance := distance s;
                   NextTransitMain.walkTime := Qceiling (distance s * 1000 / 80) |}
          ∧ stop_id s ≠ stopA
          ∧ (distance s <= 2)%Q
          ∧ NextTransitMain.walkTime w <= 25
  end.
Proof.
  intros nearestStops. unfold NextTransitMain.toPlace. fold nearestStops.
  destruct (NextTransit.findBestDirectTrip stopA nearestStops userTime pd) as [m|] eqn:Hdirect.
  { by intros [= <-]. }
  unfold walkableSourceStops.
  destruct (JsLib.find _ _) as [sourceStop|]; [|done].
  destruct (truthy _ && truthy _); [|done].
  set (nearby := List.filter _ _).
  rewrite checkBatches_is_one_scan by done.
  destruct (NextTransitMain.firstFound _) as [[m s]|] eqn:Hfound; [|done].
  intros [= <-]. cbn. split; [done|].
  apply firstFound_first in Hfound as (skipped & rest & Hsplit & Hskipped & Hs).
  exists skipped, s, rest. repeat split; try done.
  - assert (Hin : s ∈ nearby) by (rewrite Hsplit; apply elem_of_app; right; constructor).
    apply list_elem_of_In, filter_In in Hin as [_ Hin].
    apply andb_true_iff in Hin as [Hne _]. intros Heq.
    rewrite Heq, str_eqb_refl in Hne. done.
  - assert (Hin : s ∈ nearby) by (rewrite Hsplit; apply elem_of_app; right; constructor).
    apply list_elem_of_In, filter_In in Hin as [_ Hin].
    apply andb_true_iff in Hin as [_ Hle]. by apply Qle_bool_iff in Hle.
  - apply walk_within_2km_takes_25_minutes.
    assert (Hin : s ∈ nearby) by (rewrite Hsplit; apply elem_of_app; right; constructor).
    apply list_elem_of_In, filter_In in Hin as [_ Hin].
    apply andb_true_iff in Hin as [_ Hle]. by apply Qle_bool_iff in Hle.
Qed.

Lemma to_place_walks_to_the_first_stop_with_a_trip_witness :
  ∃ found,
    NextTransitMain.toPlace (H := exampleMath) walkFeed "S" 25 58 "07:30:00"
      (loadFeed walkFeed) = Some found
    ∧ match NextTransitMain.found_walk found with
      | None =>
          NextTransit.findBestDirectTrip "S"
            (findNearestStops (H := exampleMath) walkFeed 25 58 100) "07:30:00"
            (loadFeed walkFeed) = Some (NextTransitMain.found_trip found)
      | Some w =>
          NextTransit.findBestDirectTrip "S"
            (findNearestStops (H := exampleMath) walkFeed 25 58 100) "07:30:00"
            (loadFeed walkFeed) = None
          ∧ NextTransitMain.walkTime w <= 25
      end.
Proof.
  destruct (NextTransitMain.toPlace (H := exampleMath) walkFeed "S" 25 58 "07:30:00"
              (loadFeed walkFeed)) as [found|] eqn:Hfound;
    [|vm_compute in Hfound; discriminate].
  exists found. split; [reflexivity|].
  pose proof (to_place_walks_to_the_first_stop_with_a_trip (H := exampleMath)
                walkFeed "S" 25 58 "07:30:00" (loadFeed walkFeed) found Hfound) as Hspec.
  cbv zeta in Hspec.
  destruct (NextTransitMain.found_walk found) as [w|]; [|exact Hspec].
  destruct Hspec as (Hnone & s0 & s & rest & _ & _ & _ & _ & _ & _ & Htime).
  by split.
Defined.





Section TwoStops.
Context (pd : PreloadedData) (stopA stopB userTime : string) (cand : StopWithDistance).
Context (Hcand : stop_id cand = stopB).



End TwoStops.



(** ** The arguments of [main] in [find_transit_bfs.js] *)

(** X22.  A fourth argument that reads as a number below 10, given without
    a fifth, is taken as the transfer limit and the route type is dropped:
    route types 0 to 4 cannot be given alone.  The limit is at most 2
    whenever it is a number. *)
Theorem lone_fourth_argument_is_read_as_max_transfers
    (parseInt10 : string → jsnum) (stop place time fourth : string) (n : Z) :
  fourth ≠ "" → parseInt10 fourth = Some n → n < 10 →
  BfsMain.arguments parseInt10 [stop; place; time; fourth]
  = Some {| BfsMain.stopA := stop; BfsMain.placeName := place;
            BfsMain.userTime := (if truthy time then Some time else None);
            BfsMain.routeType := None;
            BfsMain.maxTransfers := Some (Z.min n 2) |}
  ∧ ∀ args a, BfsMain.arguments parseInt10 args = Some a →
              match BfsMain.maxTransfers a with
              | Some k => k <= 2
              | None => ∃ fifth, BfsMain.given args 4 = Some fifth
                                 ∧ parseInt10 fifth = None
              end.
Proof.
  intros Hne Hparse Hn. split.
  - assert (H4 : BfsMain.given [stop; place; time; fourth] 4 = None) by done.
    assert (H3 : BfsMain.given [stop; place; time; fourth] 3 = Some fourth).
    { unfold BfsMain.given, truthy. cbn [lookup list_lookup].
      by rewrite (str_eqb_ne fourth "") by done. }
    assert (H2 : BfsMain.given [stop; place; time; fourth] 2
                 = if truthy time then Some time else None) by done.
    unfold BfsMain.arguments. rewrite H4, H3, H2, Hparse. cbn [jlt].
    rewrite (proj2 (Z.ltb_lt n 10)) by done.
    cbn [jmin fmap option_fmap option_map]. do 3 f_equal.
    apply Z.min_l. apply Z.le_min_r.
  - intros args a. unfold BfsMain.arguments.
    destruct args as [|s [|p rest]]; [done|done|].
    destruct (BfsMain.given _ 4) as [a4|] eqn:H4.
    + intros [= <-]. cbn. destruct (parseInt10 a4) as [k|] eqn:Hk; cbn; [lia|eauto].
    + destruct (BfsMain.given _ 3) as [a3|].
      * destruct (jlt (parseInt10 a3) (Some 10)) eqn:Hlt.
        -- intros [= <-]. cbn. destruct (parseInt10 a3); [cbn; lia|done].
        -- intros [= <-]. cbn. unfold Bfs.DEFAULT_MAX_TRANSFERS. lia.
      * intros [= <-]. cbn. unfold Bfs.DEFAULT_MAX_TRANSFERS. lia.
Qed.

Lemma lone_fourth_argument_is_read_as_max_transfers_witness :
  Js.parseInt "1" = Some 1
  ∧ BfsMain.arguments Js.parseInt ["12345"; "Dubai Mall"; "08:00:00"; "1"]
    = Some {| BfsMain.stopA := "12345"; BfsMain.placeName := "Dubai Mall";
              BfsMain.userTime := Some "08:00:00";
              BfsMain.routeType := None;
              BfsMain.maxTransfers := Some 1 |}.
Proof.
  assert (Hparse : Js.parseInt "1" = Some 1) by (vm_compute; reflexivity).
  split; [exact Hparse|].
  exact (proj1 (lone_fourth_argument_is_read_as_max_transfers Js.parseInt
                  "12345" "Dubai Mall" "08:00:00" "1" 1
                  ltac:(discriminate) Hparse ltac:(lia))).
Defined.

(** ** The lemmas on the transfer buffer, the walk fallback and the finder, at work *)

Lemma transfer_buffer_kept_before_2355_witness :
  wellFormedTime 8 10 0 ∧ wellFormedTime 8 20 0
  ∧ 60 * 8 + 10 + TRANSFER_TIME_MINUTES < 24 * 60
  ∧ 0 <= compareTime (timeString 8 20 0)
           (addMinutesToTime (timeString 8 10 0) TRANSFER_TIME_MINUTES)
  ∧ ∃ wait, timeDifferenceMinutes (timeString 8 10 0) (timeString 8 20 0) = Some wait
            ∧ TRANSFER_TIME_MINUTES <= wait.
Proof.
  assert (H1 : wellFormedTime 8 10 0) by (unfold wellFormedTime; lia).
  assert (H2 : wellFormedTime 8 20 0) by (unfold wellFormedTime; lia).
  assert (H3 : 60 * 8 + 10 + TRANSFER_TIME_MINUTES < 24 * 60) by (vm_compute; reflexivity).
  assert (H4 : 0 <= compareTime (timeString 8 20 0)
                      (addMinutesToTime (timeString 8 10 0) TRANSFER_TIME_MINUTES))
    by (vm_compute; discriminate).
  split; [exact H1|]. split; [exact H2|]. split; [exact H3|]. split; [exact H4|].
  exact (transfer_buffer_kept_before_2355 8 10 0 8 20 0 H1 H2 H3 H4).
Defined.

Lemma bfs_fallback_takes_first_route_witness :
  ∃ journey walk,
    bfsSearchNearby None {[ "Z" ]} [targetStop "Z" 0] "07:30:00" 2 (loadFeed walkFeed)
      walkCandidates = Some journey
    ∧ journey_walk journey = Some walk
    ∧ stop_id (walk_to walk) = "W".
Proof.
  destruct (bfsSearchNearby None {[ "Z" ]} [targetStop "Z" 0] "07:30:00" 2
              (loadFeed walkFeed) walkCandidates) as [journey|] eqn:Hsearch;
    [|vm_compute in Hsearch; discriminate].
  destruct (bfs_fallback_takes_first_route None {[ "Z" ]} [targetStop "Z" 0] "07:30:00"
              2 (loadFeed walkFeed) walkCandidates journey Hsearch)
    as (skipped & nearbyStop & rest & walk & _ & _ & _ & Hwalk & _).
  exists journey, walk. split; [reflexivity|]. split; [exact Hwalk|].
  vm_compute in Hsearch. injection Hsearch as <-.
  cbn in Hwalk. injection Hwalk as <-. reflexivity.
Defined.


